(** * Longitudinal space-charge drift: the two collective right-hand sides

    A shallow embedding of the two simulation scripts of the repository:

    - [LSC_drift2.ipynb]  (module [H]): the harmonic-summation field solver
      and its ODE right-hand side [collective_ode];
    - the grid/FFT script (module [G]): the histogram + Fourier-space
      field solve and its right-hand side [collective_ode_fft].

    Numbers: Python and numpy double-precision values are modelled as the
    real numbers of the Standard Library, so every statement below is a
    statement in exact real arithmetic; rounding is not modelled.  numpy
    arrays are lists; the flat state [Y] keeps the interleaved layout
    [eta_0, pos_0, eta_1, pos_1, ...] of the scripts.  Python exceptions
    are values of [exn] carried by the error monad [result]: the
    module-level code of each script, whose divisions raise
    ZeroDivisionError on a zero divisor, is the computation
    [module_level]; the functions of the scripts read the values it has
    bound. *)

From Stdlib Require Import Reals List ZArith Lia Lra Bool Arith.
From Stdlib Require Import Permutation.
Import ListNotations.
Local Open Scope R_scope.

(** ** Exceptions and the error monad *)

(** [ValueError] and [ZeroDivisionError] are what Python and numpy raise in
    the modelled code.  [DomainViolation] and [NumericAnomaly] are the
    failure classes named by the specification; no path of the scripts
    constructs them. *)
Inductive exn : Type :=
| ValueError
| ZeroDivisionError
| DomainViolation
| NumericAnomaly.

Definition result (A : Type) : Type := (exn + A)%type.

Definition Ok {A : Type} (a : A) : result A := inr a.
Definition Err {A : Type} (e : exn) : result A := inl e.

Definition bind {A B : Type} (m : result A) (k : A -> result B) : result B :=
  match m with
  | inl e => inl e
  | inr a => k a
  end.

Notation "x <- m ;; k" := (bind m (fun x => k))
  (at level 61, m at next level, right associativity).

(** A Python float of the diagnostics: a number or [nan]. *)
Inductive pyfloat : Type :=
| Num (x : R)
| NaN.

(** Python's [/] on two Python numbers: a zero divisor raises
    ZeroDivisionError.  (Division of numpy arrays and numpy scalars does
    not raise; it is written with the plain quotient.) *)
Definition truediv (x y : R) : result R :=
  if Req_dec_T y 0 then Err ZeroDivisionError else Ok (x / y).

(** ** numpy on lists of reals *)

Module Np.

Definition Rsum (xs : list R) : R := fold_right Rplus 0 xs.

(** [np.mean]: the sum divided by the number of entries.  (On an empty
    array numpy yields nan; here the quotient by zero is 0.) *)
Definition mean (xs : list R) : R := Rsum xs / INR (length xs).

(** [np.std] with its default [ddof=0] (nan on an empty array, as the
    mean). *)
Definition std (xs : list R) : R :=
  sqrt (mean (map (fun x => (x - mean xs) * (x - mean xs)) xs)).

(** [np.zeros(n)]: a negative dimension is a ValueError. *)
Definition zeros (n : Z) : result (list R) :=
  if (n <? 0)%Z then Err ValueError else Ok (repeat 0 (Z.to_nat n)).

Definition zeros_like {A : Type} (Y : list A) : list R := repeat 0 (length Y).

(** [Y[0::2]] and [Y[1::2]]. *)
Fixpoint slice_even {A : Type} (l : list A) : list A :=
  match l with
  | [] => []
  | x :: [] => [x]
  | x :: _ :: t => x :: slice_even t
  end.

Fixpoint slice_odd {A : Type} (l : list A) : list A :=
  match l with
  | [] => []
  | _ :: [] => []
  | _ :: y :: t => y :: slice_odd t
  end.

(** numpy's broadcasting of a one-dimensional right-hand side onto [n]
    slots: equal length, or a single entry repeated; anything else is
    "could not broadcast", a ValueError. *)
Definition broadcast_to (n : nat) (src : list R) : result (list R) :=
  if (length src =? n)%nat then Ok src
  else if (length src =? 1)%nat then Ok (repeat (hd 0 src) n)
  else Err ValueError.

(** Writing [src] into every second slot of [dst], starting at slot 0. *)
Fixpoint write_step2 (dst src : list R) {struct dst} : list R :=
  match dst with
  | [] => []
  | x :: t =>
      match src with
      | [] => dst
      | s :: ss =>
          s :: match t with
               | [] => []
               | y :: t' => y :: write_step2 t' ss
               end
      end
  end.

(** [dst[0::2] = src] *)
Definition assign_even (dst src : list R) : result (list R) :=
  src' <- broadcast_to (length (slice_even dst)) src ;;
  Ok (write_step2 dst src').

(** [dst[1::2] = src] *)
Definition assign_odd (dst src : list R) : result (list R) :=
  src' <- broadcast_to (length (slice_odd dst)) src ;;
  Ok (match dst with
      | [] => []
      | x :: t => x :: write_step2 t src'
      end).

Fixpoint map2 {A B C : Type} (f : A -> B -> C) (l : list A) (m : list B) : list C :=
  match l, m with
  | a :: l', b :: m' => f a b :: map2 f l' m'
  | _, _ => []
  end.

(** [acc += x] on arrays: [x] is broadcast onto the shape of [acc]. *)
Definition iadd (acc x : list R) : result (list R) :=
  x' <- broadcast_to (length acc) x ;;
  Ok (map2 Rplus acc x').

(** [np.mod(x, m)]: the remainder with the sign of the divisor. *)
Definition mod_ (x m : R) : R := x - IZR (Zfloor (x / m)) * m.

(** [np.clip(a, lo, hi)] is [minimum(maximum(a, lo), hi)]. *)
Definition clip (a lo hi : Z) : Z := Z.min (Z.max a lo) hi.

Definition Rleb (x y : R) : bool := if Rle_dec x y then true else false.
Definition Reqb (x y : R) : bool := if Req_dec_T x y then true else false.

(** [np.sqrt] of a scalar: nan for a negative argument. *)
Definition sqrt_ (x : R) : pyfloat := if Rleb 0 x then Num (sqrt x) else NaN.

(** [np.histogram(a, bins=n, range=(lo, hi))[0]], the counts of the [n]
    equal-width bins: samples outside [[lo, hi]] are dropped, a sample on
    the upper edge belongs to the last bin.  A bin count below one and an
    inverted range are ValueErrors; an empty range is widened by a half on
    each side. *)
Definition hist_keep (lo hi x : R) : bool := Rleb lo x && Rleb x hi.

Definition hist_index (n : Z) (lo hi x : R) : Z :=
  let i := Zfloor ((x - lo) / (hi - lo) * IZR n) in
  if (i =? n)%Z then (i - 1)%Z else i.

Definition bincount (n : Z) (idx : list Z) : list Z :=
  map (fun j => Z.of_nat (length (filter (fun i => (i =? Z.of_nat j)%Z) idx)))
      (seq 0 (Z.to_nat n)).

Definition histogram (a : list R) (n : Z) (lo hi : R) : result (list Z) :=
  if (n <? 1)%Z then Err ValueError
  else if Rleb lo hi then
    let '(first_edge, last_edge) :=
      if Reqb lo hi then (lo - / 2, hi + / 2) else (lo, hi) in
    let kept := filter (hist_keep first_edge last_edge) a in
    Ok (bincount n (map (hist_index n first_edge last_edge) kept))
  else Err ValueError.

(** [np.linspace(start, stop, num)] with its default [endpoint=True]:
    [num] samples [start + j * step], [step = (stop - start) / (num - 1)],
    the last one set to [stop] when there are at least two; a negative
    [num] is a ValueError. *)
Definition linspace (start stop : R) (num : Z) : result (list R) :=
  if (num <? 0)%Z then Err ValueError
  else Ok (map (fun j =>
                  if (1 <? num)%Z && (Z.of_nat j =? num - 1)%Z then stop
                  else start + INR j * ((stop - start) / IZR (num - 1)))
               (seq 0 (Z.to_nat num))).

End Np.

(** ** Variant H: harmonic summation ([LSC_drift2.ipynb]) *)

Module H.

(** The flat configuration at the top of the script; [e], [m_e], [c] and
    [epsilon_0] are the constants imported from [scipy.constants]. *)
Record Config : Type := mkConfig {
  drift_length_ode : R;
  N_particles : Z;
  lambda_laser : R;
  gamma_ref : R;
  sigma_eta0_rel : R;
  A_mod_over_sigma_eta0 : R;
  I_peak_avg : R;
  beam_radius : R;
  N_harmonics_Ez : Z;
  e : R;
  m_e : R;
  c : R;
  epsilon_0 : R
}.

(** What the module-level code has bound when [solve_ivp] is called: the
    names whose value is the quotient of two Python numbers, and the
    initial state. *)
Record Globals : Type := mkGlobals {
  k_laser_val : R;
  beta_ref_val : pyfloat;
  B_hghg_val : R;
  R56_val : R;
  n0_avg_val : R;
  Y0_val : list R;
  Ez_const_factor_val : R;
  eta_change_factor_val : R;
  theta_change_factor_val : R
}.

Section Constants.
Variable cfg : Config.

(** The values of the module-level names, as the functions below read
    them.  The assignments of [k_laser], [B_hghg], [R56], [n0_avg],
    [Ez_const_factor], [eta_change_factor] and [theta_change_factor]
    divide two Python numbers and raise ZeroDivisionError on a zero
    divisor: they are run, in source order and with that exception, by
    [module_level] below; when it runs through, the names hold the
    quotients written here (lemma [module_level_inv]). *)
Definition k_laser : R := 2 * PI / lambda_laser cfg.
Definition A_mod : R := A_mod_over_sigma_eta0 cfg * sigma_eta0_rel cfg.
Definition B_hghg : R := 1 / A_mod_over_sigma_eta0 cfg.
Definition R56 : R := B_hghg / (k_laser * sigma_eta0_rel cfg).
Definition n0_avg : R :=
  I_peak_avg cfg / (e cfg * c cfg * PI * (beam_radius cfg) ^ 2).

Definition Ez_const_factor : R :=
  (2 * e cfg * n0_avg) / (epsilon_0 cfg * k_laser).
Definition gamma_ref_sq : R := (gamma_ref cfg) ^ 2.
Definition eta_change_factor : R :=
  - e cfg / (gamma_ref cfg * m_e cfg * (c cfg) ^ 2).
Definition theta_change_factor : R := k_laser / gamma_ref_sq.

(** Initial distribution, from the two arrays drawn from the random
    source ([np.random.normal] and [np.random.uniform] refuse a negative
    size, and [np.random.normal] a negative scale, with a ValueError). *)
Definition initial_state (eta0_particles theta0_particles : list R)
  : result (list R) :=
  if (N_particles cfg <? 0)%Z || negb (Np.Rleb 0 (sigma_eta0_rel cfg))
  then Err ValueError
  else
    let eta1_particles :=
      Np.map2 (fun eta0 theta0 => eta0 + A_mod * sin theta0)
              eta0_particles theta0_particles in
    let theta1_particles := theta0_particles in
    let eta_init_ode := eta1_particles in
    let theta_init_ode :=
      Np.map2 (fun theta1 eta1 =>
                 Np.mod_ (Np.mod_ (theta1 + k_laser * R56 * eta1) (2 * PI))
                         (2 * PI))
              theta1_particles eta1_particles in
    Y0 <- Np.zeros (2 * N_particles cfg) ;;
    Y0 <- Np.assign_even Y0 eta_init_ode ;;
    Np.assign_odd Y0 theta_init_ode.

(** The module-level code from the configuration block to the call of
    [solve_ivp], in source order: every [/] of two Python numbers is a
    [truediv]. *)
Definition module_level (eta0_particles theta0_particles : list R)
  : result Globals :=
  k_laser' <- truediv (2 * PI) (lambda_laser cfg) ;;
  inv_gamma_ref_sq <- truediv 1 ((gamma_ref cfg) ^ 2) ;;
  let beta_ref' := Np.sqrt_ (1 - inv_gamma_ref_sq) in
  B_hghg' <- truediv 1 (A_mod_over_sigma_eta0 cfg) ;;
  R56' <- truediv B_hghg' (k_laser' * sigma_eta0_rel cfg) ;;
  n0_avg' <- truediv (I_peak_avg cfg)
                     (e cfg * c cfg * PI * (beam_radius cfg) ^ 2) ;;
  Y0 <- initial_state eta0_particles theta0_particles ;;
  Ez_const_factor' <- truediv (2 * e cfg * n0_avg')
                              (epsilon_0 cfg * k_laser') ;;
  eta_change_factor' <- truediv (- e cfg)
                                (gamma_ref cfg * m_e cfg * (c cfg) ^ 2) ;;
  theta_change_factor' <- truediv k_laser' ((gamma_ref cfg) ^ 2) ;;
  Ok (mkGlobals k_laser' beta_ref' B_hghg' R56' n0_avg' Y0
                Ez_const_factor' eta_change_factor' theta_change_factor').

(** The bunching factors: [bn_array[n_h-1] = mean(cos(n_h * theta))] for
    [n_h] in [range(1, N_harmonics_Ez + 1)]. *)
Definition bn_array (current_theta : list R) : result (list R) :=
  _ <- Np.zeros (N_harmonics_Ez cfg) ;;
  Ok (map (fun n_h => Np.mean (map (fun th => cos (INR n_h * th)) current_theta))
          (seq 1 (Z.to_nat (N_harmonics_Ez cfg)))).

(** [bn_array[n_h-1] != 0]: over an empty ensemble the mean is nan, which
    differs from 0. *)
Definition bn_differs_from_zero (bn : list R) (current_theta : list R)
           (n_h : nat) : bool :=
  match current_theta with
  | [] => true
  | _ :: _ => negb (Np.Reqb (nth (n_h - 1) bn 0) 0)
  end.

(** One round of the accumulation loop. *)
Definition Ez_loop_body (bn : list R) (current_theta : list R)
           (acc : result (list R)) (n_h : nat) : result (list R) :=
  sum_terms <- acc ;;
  if bn_differs_from_zero bn current_theta n_h && negb (n_h =? 0)%nat
  then Np.iadd sum_terms
         (map (fun th => (nth (n_h - 1) bn 0 / INR n_h) * sin (INR n_h * th))
              current_theta)
  else Ok sum_terms.

(** The field at the particles: [Ez_particles = -Ez_const_factor * sum]. *)
Definition Ez_particles (current_theta : list R) : result (list R) :=
  bn <- bn_array current_theta ;;
  sum_terms_for_Ez <-
    fold_left (Ez_loop_body bn current_theta)
              (seq 1 (Z.to_nat (N_harmonics_Ez cfg)))
              (Np.zeros (N_particles cfg)) ;;
  Ok (map (fun s => - Ez_const_factor * s) sum_terms_for_Ez).

Definition collective_ode (z : R) (Y : list R) : result (list R) :=
  let dYdz := Np.zeros_like Y in
  let current_eta := Np.slice_even Y in
  let current_theta := Np.slice_odd Y in
  Ez <- Ez_particles current_theta ;;
  dYdz <- Np.assign_even dYdz (map (fun E => eta_change_factor * E) Ez) ;;
  Np.assign_odd dYdz (map (fun eta => theta_change_factor * eta) current_eta).

(** Diagnostics: the normalised projected energy spread per snapshot.
    [sol_t] are the recorded [z] values, [sol_y] the rows of [sol.y]
    (one row per state component, one column per snapshot). *)
Definition history_sigma_eta_ode (sol_t : list R) (sol_y : list (list R))
  : list pyfloat :=
  let eta_at_z_eval := Np.slice_even sol_y in
  map (fun i_z =>
         if (N_particles cfg >? 10)%Z then
           let std_eta_projected :=
             Np.std (map (fun row => nth i_z row 0) eta_at_z_eval) in
           Num (std_eta_projected / sigma_eta0_rel cfg)
         else NaN)
      (seq 0 (length sol_t)).


(** The field recomputed for the force plot from the raw phases of one
    snapshot: the loop adds [-(bn/n) * sin(n * theta)] and the result is
    scaled by [Ez_const_factor]. *)
Definition Ez_plot_loop_body (bn : list R) (theta_plot_raw : list R)
           (acc : result (list R)) (n_h : nat) : result (list R) :=
  sum_terms_plot <- acc ;;
  if bn_differs_from_zero bn theta_plot_raw n_h && negb (n_h =? 0)%nat
  then Np.iadd sum_terms_plot
         (map (fun th => - (nth (n_h - 1) bn 0 / INR n_h) * sin (INR n_h * th))
              theta_plot_raw)
  else Ok sum_terms_plot.

Definition Ez_particles_plot (theta_plot_raw : list R) : result (list R) :=
  bn_array_plot <- bn_array theta_plot_raw ;;
  sum_terms_plot <-
    fold_left (Ez_plot_loop_body bn_array_plot theta_plot_raw)
              (seq 1 (Z.to_nat (N_harmonics_Ez cfg)))
              (Np.zeros (N_particles cfg)) ;;
  Ok (map (fun s => Ez_const_factor * s) sum_terms_plot).

(** [_force_proxy_plot = -e * _Ez_particles_plot] *)
Definition force_proxy_plot (theta_plot_raw : list R) : result (list R) :=
  Ez_particles_plot <- Ez_particles_plot theta_plot_raw ;;
  Ok (map (fun E => - e cfg * E) Ez_particles_plot).

End Constants.

End H.

(** ** Complex numbers and the discrete Fourier transform *)

Module Cx.

Record C : Type := mkC { re : R; im : R }.

Definition C0 : C := mkC 0 0.
Definition Ci : C := mkC 0 1.
Definition RtoC (x : R) : C := mkC x 0.
Definition Cadd (a b : C) : C := mkC (re a + re b) (im a + im b).
Definition Cmul (a b : C) : C :=
  mkC (re a * re b - im a * im b) (re a * im b + im a * re b).
Definition Cdiv (a b : C) : C :=
  let d := re b * re b + im b * im b in
  mkC ((re a * re b + im a * im b) / d) ((im a * re b - re a * im b) / d).
Definition Csum (xs : list C) : C := fold_right Cadd C0 xs.

(** [exp(1j * t)] *)
Definition cis (t : R) : C := mkC (cos t) (sin t).

(** [scipy.fft.fft]: [y[k] = sum_n x[n] * exp(-2j*pi*k*n/N)]. *)
Definition fft (x : list C) : list C :=
  let N := length x in
  map (fun k =>
         Csum (map (fun n => Cmul (nth n x C0)
                                  (cis (- (2 * PI * INR (k * n) / INR N))))
                   (seq 0 N)))
      (seq 0 N).

(** [scipy.fft.ifft]: [x[n] = (1/N) * sum_k y[k] * exp(2j*pi*k*n/N)]. *)
Definition ifft (y : list C) : list C :=
  let N := length y in
  map (fun n =>
         Cmul (RtoC (1 / INR N))
              (Csum (map (fun k => Cmul (nth k y C0)
                                        (cis (2 * PI * INR (k * n) / INR N)))
                         (seq 0 N))))
      (seq 0 N).

(** [scipy.fft.fftfreq(n, d)]: the bin order is
    [[0, 1, ..., (n-1)//2, -(n//2), ..., -1] / (d*n)]. *)
Definition fftfreq (n : Z) (d : R) : list R :=
  let val := 1 / (IZR n * d) in
  map (fun i => let i := Z.of_nat i in
                IZR (if (i <? (n - 1) / 2 + 1)%Z then i else (i - n)%Z) * val)
      (seq 0 (Z.to_nat n)).

End Cx.

(** ** Variant G: charge histogram and Fourier-space field solve *)

Module G.

Import Cx.

Record Config : Type := mkConfig {
  N_particles : Z;
  lambda_laser : R;
  drift_length_ode : R;
  gamma_ref : R;
  sigma_eta0_rel : R;
  A_mod_over_sigma_eta0 : R;
  I_avg_beam : R;
  beam_radius_transverse : R;
  N_grid_s : Z;
  e : R;
  m_e : R;
  c : R;
  epsilon_0 : R
}.

(** What the module-level code has bound when [solve_ivp] is called: the
    names whose value is the quotient of two Python numbers, the grid, the
    wavenumbers and the initial state. *)
Record Globals : Type := mkGlobals {
  k_laser_val : R;
  B_hghg_val : R;
  R56_val : R;
  T_laser_period_val : R;
  Q_macro_val : R;
  rho_avg_beam_val : R;
  ds_grid_val : R;
  s_grid_val : list R;
  k_s_grid_fft_val : list R;
  Y0_val : list R;
  eta_change_factor_ode_val : R;
  s_change_factor_ode_val : R
}.

Section Constants.
Variable cfg : Config.

(** The values of the module-level names, as the functions below read
    them.  The assignments of [k_laser], [T_laser_period], [Q_macro],
    [ds_grid], [eta_change_factor_ode] and [s_change_factor_ode] (and of
    [B_hghg] and [R56] further down) divide two Python numbers and raise
    ZeroDivisionError on a zero divisor, as [fftfreq] does inside
    [k_s_grid_fft]: they are run, in source order and with that
    exception, by [module_level] below; when it runs through, the names
    hold the quotients written here (lemma [module_level_fft_inv]). *)
Definition k_laser : R := 2 * PI / lambda_laser cfg.
Definition period_length_s : R := lambda_laser cfg.
Definition beam_area_transverse : R := PI * (beam_radius_transverse cfg) ^ 2.
Definition T_laser_period : R := lambda_laser cfg / c cfg.
Definition Q_total_in_one_period : R := I_avg_beam cfg * T_laser_period.
Definition Q_macro : R := Q_total_in_one_period / IZR (N_particles cfg).
Definition ds_grid : R := period_length_s / IZR (N_grid_s cfg).
Definition k_s_grid_fft : list R :=
  map (fun f => f * 2 * PI) (fftfreq (N_grid_s cfg) ds_grid).

Definition gamma_ref_sq : R := (gamma_ref cfg) ^ 2.
Definition eta_change_factor_ode : R :=
  - 1 / (gamma_ref cfg * m_e cfg * (c cfg) ^ 2).
Definition s_change_factor_ode : R := 1 / gamma_ref_sq.

(** Step 1: charge density on the grid from the reduced positions. *)
Definition charge_density (current_s_mod : list R) : result (list R) :=
  _ <- Np.zeros (N_grid_s cfg) ;;
  counts <- Np.histogram current_s_mod (N_grid_s cfg) 0 period_length_s ;;
  Ok (map (fun cnt => (- Q_macro) * IZR cnt / (ds_grid * beam_area_transverse))
          counts).

(** Step 2, in frequency space: [Ez_fft] from the density. *)
Definition rho_ac (rho_s : list R) : list R :=
  map (fun r => r - Np.mean rho_s) rho_s.

Definition Ez_fft (rho_s : list R) : list C :=
  let rho_ac_fft := fft (map RtoC (rho_ac rho_s)) in
  Np.map2 (fun k rho_k =>
             if Np.Reqb k 0 then RtoC 0
             else Cdiv rho_k (Cmul (Cmul Ci (RtoC k)) (RtoC (epsilon_0 cfg))))
          k_s_grid_fft rho_ac_fft.

(** The inverse transform before its real part is taken. *)
Definition Ez_s_grid_complex (rho_s : list R) : list C := ifft (Ez_fft rho_s).

(** [Ez_s_grid = ifft(Ez_fft).real] *)
Definition Ez_s_grid (rho_s : list R) : list R :=
  map re (Ez_s_grid_complex rho_s).

(** The grid index of a reduced position: floor, then clip. *)
Definition particle_grid_index (s_mod : R) : Z :=
  Np.clip (Zfloor (s_mod / ds_grid)) 0 (N_grid_s cfg - 1).

(** Step 7: the per-particle field sample. *)
Definition Ez_particles_interp (Ez_grid : list R) (current_s_mod : list R)
  : list R :=
  map (fun s => - nth (Z.to_nat (particle_grid_index s)) Ez_grid 0)
      current_s_mod.

Definition collective_ode_fft (z : R) (Y : list R) : result (list R) :=
  let dYdz := Np.zeros_like Y in
  let current_eta := Np.slice_even Y in
  let current_s_raw := Np.slice_odd Y in
  let current_s_mod := map (fun s => Np.mod_ s period_length_s) current_s_raw in
  rho_s <- charge_density current_s_mod ;;
  let Ez_grid := Ez_s_grid rho_s in
  let Ez_interp := Ez_particles_interp Ez_grid current_s_mod in
  dYdz <- Np.assign_even dYdz
            (map (fun E => (- e cfg) * E * eta_change_factor_ode) Ez_interp) ;;
  Np.assign_odd dYdz (map (fun eta => s_change_factor_ode * eta) current_eta).

Definition history_sigma_eta_ode_fft (sol_t : list R) (sol_y : list (list R))
  : list pyfloat :=
  let eta_at_z_eval := Np.slice_even sol_y in
  map (fun i_z =>
         if (N_particles cfg >? 10)%Z then
           let std_eta_projected :=
             Np.std (map (fun row => nth i_z row 0) eta_at_z_eval) in
           Num (std_eta_projected / sigma_eta0_rel cfg)
         else NaN)
      (seq 0 (length sol_t)).

(** The seeding constants and the initial distribution of the grid
    script. *)
Definition A_mod : R := A_mod_over_sigma_eta0 cfg * sigma_eta0_rel cfg.
Definition B_hghg : R := 1 / A_mod_over_sigma_eta0 cfg.
Definition R56 : R := B_hghg / (k_laser * sigma_eta0_rel cfg).

Definition eta_init_ode (eta0_particles theta0_particles : list R) : list R :=
  Np.map2 (fun eta0 theta0 => eta0 + A_mod * sin theta0)
          eta0_particles theta0_particles.

Definition s_init_ode_raw (eta0_particles theta0_particles : list R) : list R :=
  Np.map2 (fun theta1 eta1 => theta1 / k_laser + R56 * eta1)
          theta0_particles (eta_init_ode eta0_particles theta0_particles).

Definition s_init_ode (eta0_particles theta0_particles : list R) : list R :=
  map (fun s => Np.mod_ s period_length_s)
      (s_init_ode_raw eta0_particles theta0_particles).

Definition theta_init_ode (eta0_particles theta0_particles : list R) : list R :=
  map (fun s => s * k_laser) (s_init_ode eta0_particles theta0_particles).

(** [np.random.normal] and [np.random.uniform] refuse a negative size, and
    [np.random.normal] a negative scale, with a ValueError. *)
Definition initial_state (eta0_particles theta0_particles : list R)
  : result (list R) :=
  if (N_particles cfg <? 0)%Z || negb (Np.Rleb 0 (sigma_eta0_rel cfg))
  then Err ValueError
  else
    Y0 <- Np.zeros (2 * N_particles cfg) ;;
    Y0 <- Np.assign_even Y0 (eta_init_ode eta0_particles theta0_particles) ;;
    Np.assign_odd Y0 (s_init_ode eta0_particles theta0_particles).

(** The grid points [s_grid = np.linspace(0, period_length_s - ds_grid,
    N_grid_s)]. *)
Definition s_grid : result (list R) :=
  Np.linspace 0 (period_length_s - ds_grid) (N_grid_s cfg).

(** The module-level code from the configuration block to the call of
    [solve_ivp], in source order: every [/] of two Python numbers is a
    [truediv], [fftfreq] divides by [n * d]. *)
Definition module_level (eta0_particles theta0_particles : list R)
  : result Globals :=
  k_laser' <- truediv (2 * PI) (lambda_laser cfg) ;;
  B_hghg' <- truediv 1 (A_mod_over_sigma_eta0 cfg) ;;
  R56' <- truediv B_hghg' (k_laser' * sigma_eta0_rel cfg) ;;
  T_laser_period' <- truediv (lambda_laser cfg) (c cfg) ;;
  let Q_total_in_one_period' := I_avg_beam cfg * T_laser_period' in
  Q_macro' <- truediv Q_total_in_one_period' (IZR (N_particles cfg)) ;;
  rho_avg_beam' <- truediv (I_avg_beam cfg)
                           (c cfg * beam_area_transverse) ;;
  ds_grid' <- truediv period_length_s (IZR (N_grid_s cfg)) ;;
  s_grid' <- Np.linspace 0 (period_length_s - ds_grid') (N_grid_s cfg) ;;
  _ <- truediv 1 (IZR (N_grid_s cfg) * ds_grid') ;;
  let k_s_grid_fft' :=
    map (fun f => f * 2 * PI) (fftfreq (N_grid_s cfg) ds_grid') in
  Y0 <- initial_state eta0_particles theta0_particles ;;
  eta_change_factor_ode' <-
    truediv (- 1) (gamma_ref cfg * m_e cfg * (c cfg) ^ 2) ;;
  s_change_factor_ode' <- truediv 1 ((gamma_ref cfg) ^ 2) ;;
  Ok (mkGlobals k_laser' B_hghg' R56' T_laser_period' Q_macro' rho_avg_beam'
                ds_grid' s_grid' k_s_grid_fft' Y0
                eta_change_factor_ode' s_change_factor_ode').

(** The density and field profiles recomputed for the plots from the
    reduced positions of one snapshot; here the mean density is not
    subtracted before the transform. *)
Definition rho_s_plot (s_plot_mod_fft : list R) : result (list R) :=
  counts_plot <-
    Np.histogram s_plot_mod_fft (N_grid_s cfg) 0 period_length_s ;;
  Ok (map (fun cnt => (- Q_macro) * IZR cnt / (ds_grid * beam_area_transverse))
          counts_plot).

Definition current_s_plot (s_plot_mod_fft : list R) : result (list R) :=
  counts_plot <-
    Np.histogram s_plot_mod_fft (N_grid_s cfg) 0 period_length_s ;;
  Ok (map (fun cnt => (- Q_macro) * IZR cnt * c cfg / ds_grid) counts_plot).

Definition Ez_fft_plot (rho_s_plot : list R) : list C :=
  let rho_ac_s_plot := rho_s_plot in
  let rho_ac_fft_plot := fft (map RtoC rho_ac_s_plot) in
  Np.map2 (fun k rho_k =>
             if Np.Reqb k 0 then C0
             else Cdiv rho_k (Cmul (Cmul Ci (RtoC k)) (RtoC (epsilon_0 cfg))))
          k_s_grid_fft rho_ac_fft_plot.

Definition Ez_s_grid_plot (rho_s_plot : list R) : list R :=
  map re (ifft (Ez_fft_plot rho_s_plot)).

(** [_force_on_electron_grid_plot = -e * _Ez_s_grid_plot] *)
Definition force_on_electron_grid_plot (rho_s_plot : list R) : list R :=
  map (fun E => - e cfg * E) (Ez_s_grid_plot rho_s_plot).

End Constants.

End G.

(** ** Notions used to state the properties *)

(** The bunching factor of order [n]: the mean over all particles of
    [cos(n * theta)]. *)
Definition bunching_factor (n : nat) (theta : list R) : R :=
  Np.Rsum (map (fun th => cos (INR n * th)) theta) / INR (length theta).

(** [S(phase) = sum_{n=1..N_h} (b_n / n) * sin(n * phase)]. *)
Definition harmonic_sum (N_h : nat) (theta : list R) (phase : R) : R :=
  Np.Rsum (map (fun n => bunching_factor n theta / INR n * sin (INR n * phase))
               (seq 1 N_h)).

(** The flat state built from the two index-aligned arrays. *)
Fixpoint interleave (A B : list R) : list R :=
  match A, B with
  | a :: A', b :: B' => a :: b :: interleave A' B'
  | _, _ => []
  end.

(** A four-particle ensemble with three harmonics. *)
Definition cfg_H_example : H.Config :=
  H.mkConfig 1 4 1 2 1 1 1 1 3 1 1 1 1.

(** A two-particle Variant G configuration on a four-point grid. *)
Definition cfg_G_example : G.Config :=
  G.mkConfig 2 4 1 1 1 1 (1 / 2) 1 4 1 1 1 1.

(** Four particles at rest on four equally spaced phases. *)
Definition Y_example : list R := [0; 0; 0; PI / 2; 0; PI; 0; 3 * (PI / 2)].

(** The list whose entry [i] is replaced by its image under [f]. *)
Fixpoint update_nth {A : Type} (i : nat) (f : A -> A) (l : list A) : list A :=
  match l, i with
  | [], _ => []
  | x :: t, O => f x :: t
  | x :: t, S j => x :: update_nth j f t
  end.

(** The state in which the position of particle [i] is moved by exactly
    one period. *)
Definition add_period (cfg : G.Config) (i : nat) (Y : list R) : list R :=
  update_nth (2 * i + 1) (fun s => s + G.period_length_s cfg) Y.

(** Evaluation of the closed integers under [IZR]. *)
Ltac eval_IZR :=
  repeat match goal with
         | |- context [IZR ?z] =>
             lazymatch z with
             | Z0 => fail
             | Zpos _ => fail
             | Zneg _ => fail
             | _ => let v := eval vm_compute in z in change (IZR z) with (IZR v)
             end
         end.

(** The fourth roots of unity, by the exponent. *)
Definition w4 (m : nat) : Cx.C :=
  match (m mod 4)%nat with
  | 0%nat => Cx.mkC 1 0
  | 1%nat => Cx.mkC 0 1
  | 2%nat => Cx.mkC (-1) 0
  | _ => Cx.mkC 0 (-1)
  end.

(** Complex operations unfolded to their components. *)
Ltac C_components :=
  unfold w4, Cx.Csum, Cx.Cmul, Cx.Cadd, Cx.Cdiv, Cx.RtoC, Cx.Ci, Cx.C0;
  cbn [Nat.mul Nat.add Nat.modulo Nat.divmod fst snd Nat.sub fold_right
       Cx.re Cx.im].

(** The reading of step 7 without a sign change: every particle's sample
    is the grid field value at the particle's grid index. *)
Definition sample_is_grid_value (cfg : G.Config) (Y : list R) : Prop :=
  let s_mod :=
    map (fun s => Np.mod_ s (G.period_length_s cfg)) (Np.slice_odd Y) in
  forall rho_s, G.charge_density cfg s_mod = Ok rho_s ->
  forall i, (i < length s_mod)%nat ->
    nth i (G.Ez_particles_interp cfg (G.Ez_s_grid cfg rho_s) s_mod) 0
    = nth (Z.to_nat (G.particle_grid_index cfg (nth i s_mod 0)))
          (G.Ez_s_grid cfg rho_s) 0.

(** Two particles at rest, at [s = 0] and [s = 1] of the period [4]. *)
Definition Y_two_bins : list R := [0; 0; 0; 1].

(** A computation whose only possible failure is a ValueError. *)
Definition only_value_error {A : Type} (r : result A) : Prop :=
  forall e, r = Err e -> e = ValueError.

(** The reading of the specification: when some entry of the inverse
    transform has an imaginary part beyond the tolerance, the evaluation
    of the right-hand side fails with [NumericAnomaly]. *)
Definition raises_on_imaginary_residual
           (tol : R) (cfg : G.Config) (z : R) (Y : list R) : Prop :=
  let s_mod :=
    map (fun s => Np.mod_ s (G.period_length_s cfg)) (Np.slice_odd Y) in
  forall rho_s, G.charge_density cfg s_mod = Ok rho_s ->
  (exists j, (j < length (G.Ez_s_grid_complex cfg rho_s))%nat
             /\ tol < Rabs (Cx.im (nth j (G.Ez_s_grid_complex cfg rho_s) Cx.C0))) ->
  G.collective_ode_fft cfg z Y = Err NumericAnomaly.

(** Two particles at rest in the same bin. *)
Definition Y_one_bin : list R := [0; 0; 0; 0].

(** The reading of the specification for Variant H: a non-positive
    harmonic or particle count stops the run at initialization, that is in
    the module-level code before [solve_ivp] is called, with
    [DomainViolation]. *)
Definition fails_fast_at_initialization
           (cfg : H.Config) (eta0_particles theta0_particles : list R) : Prop :=
  (H.N_harmonics_Ez cfg <= 0)%Z \/ (H.N_particles cfg <= 0)%Z ->
  H.module_level cfg eta0_particles theta0_particles = Err DomainViolation.

(** The parameters other than the counts under which no module-level
    division has a zero divisor and the random source accepts the
    spread. *)
Definition H_parameters_ok (cfg : H.Config) : Prop :=
  H.lambda_laser cfg <> 0 /\ H.gamma_ref cfg <> 0
  /\ H.A_mod_over_sigma_eta0 cfg <> 0 /\ 0 < H.sigma_eta0_rel cfg
  /\ H.beam_radius cfg <> 0
  /\ H.e cfg <> 0 /\ H.m_e cfg <> 0 /\ H.c cfg <> 0 /\ H.epsilon_0 cfg <> 0.

Definition G_parameters_ok (cfg : G.Config) : Prop :=
  G.lambda_laser cfg <> 0 /\ G.gamma_ref cfg <> 0
  /\ G.A_mod_over_sigma_eta0 cfg <> 0 /\ 0 < G.sigma_eta0_rel cfg
  /\ G.beam_radius_transverse cfg <> 0
  /\ G.m_e cfg <> 0 /\ G.c cfg <> 0.

(** The record of module-level names with the values the functions of the
    scripts read. *)
Definition H_globals (cfg : H.Config) (Y0 : list R) : H.Globals :=
  H.mkGlobals (H.k_laser cfg) (Np.sqrt_ (1 - 1 / (H.gamma_ref cfg) ^ 2))
              (H.B_hghg cfg) (H.R56 cfg) (H.n0_avg cfg) Y0
              (H.Ez_const_factor cfg) (H.eta_change_factor cfg)
              (H.theta_change_factor cfg).

Definition G_globals (cfg : G.Config) (s_grid Y0 : list R) : G.Globals :=
  G.mkGlobals (G.k_laser cfg) (G.B_hghg cfg) (G.R56 cfg)
              (G.T_laser_period cfg) (G.Q_macro cfg)
              (G.I_avg_beam cfg / (G.c cfg * G.beam_area_transverse cfg))
              (G.ds_grid cfg) s_grid (G.k_s_grid_fft cfg) Y0
              (G.eta_change_factor_ode cfg) (G.s_change_factor_ode cfg).

(** A computation whose only possible failures are the exceptions of
    Python and numpy. *)
Definition python_exception {A : Type} (r : result A) : Prop :=
  forall e, r = Err e -> e = ValueError \/ e = ZeroDivisionError.

(** Variant G configurations with an invalid count. *)
Definition cfg_G_no_grid : G.Config :=
  G.mkConfig 2 4 1 1 1 1 (1 / 2) 1 0 1 1 1 1.

Definition cfg_G_no_particles : G.Config :=
  G.mkConfig 0 4 1 1 1 1 (1 / 2) 1 4 1 1 1 1.

Definition cfg_G_negative_grid : G.Config :=
  G.mkConfig 2 4 1 1 1 1 (1 / 2) 1 (-4) 1 1 1 1.

(** A Variant H configuration with a negative particle count. *)
Definition cfg_H_negative_particles : H.Config :=
  H.mkConfig 1 (-4) 1 2 1 1 1 1 3 1 1 1 1.

(** Four particles and a harmonic count of zero. *)
Definition cfg_H_no_harmonics : H.Config :=
  H.mkConfig 1 4 1 2 1 1 1 1 0 1 1 1 1.

(** The four phases of the concrete scenario. *)
Definition phases4 : list R := [0; PI / 2; PI; 3 * (PI / 2)].

(** The state advanced along a derivative array: [Y + h * dYdz]. *)
Definition advance (h : R) (Y dYdz : list R) : list R :=
  Np.map2 (fun y d => y + h * d) Y dYdz.

(** Four particles and a single harmonic. *)
Definition cfg_H_one_harmonic : H.Config :=
  H.mkConfig 1 4 2 1 1 1 1 1 1 1 1 1 1.

(** The reading of the last clause of C9: starting from the four phases
    with energies [eta], the eta-derivatives vanish again at the state the
    integrator reaches by advancing along the derivative over [h]. *)
Definition eta_derivative_stays_zero
           (cfg : H.Config) (eta : list R) (h : R) : Prop :=
  let Y := interleave eta phases4 in
  forall dYdz dYdz',
    H.collective_ode cfg 0 Y = Ok dYdz ->
    H.collective_ode cfg h (advance h Y dYdz) = Ok dYdz' ->
    Np.slice_even dYdz' = [0; 0; 0; 0].

(** Sum of a list of integers. *)
Definition Zsum (l : list Z) : Z := fold_right Z.add 0%Z l.

(** Two phase arrays that agree up to whole turns, entry by entry. *)
Definition same_phases (theta theta' : list R) : Prop :=
  Forall2 (fun a b => exists k : Z, b = a + 2 * IZR k * PI) theta theta'.


(** The partial sum [1 + 1/2 + ... + 1/N_h]. *)
Definition harmonic_number (N_h : nat) : R :=
  Np.Rsum (map (fun n => 1 / INR n) (seq 1 N_h)).

(** A four-particle Variant G configuration with the wavelength, energy
    spread and modulation ratio of [cfg_H_one_harmonic]. *)
Definition cfg_G_four_particles : G.Config :=
  G.mkConfig 4 2 1 1 1 1 1 1 4 1 1 1 1.

(** Eleven-particle configurations, for the diagnostics. *)
Definition cfg_H_eleven : H.Config :=
  H.mkConfig 1 11 1 2 1 1 1 1 3 1 1 1 1.

Definition cfg_G_eleven : G.Config :=
  G.mkConfig 11 4 1 1 1 1 1 1 4 1 1 1 1.

(** ** Lists, slices and slice assignment *)

Lemma interleave_length (A B : list R) :
  length A = length B -> length (interleave A B) = (2 * length A)%nat.
Proof.
  revert B; induction A as [|a A IH]; intros [|b B]; simpl; intros HL;
    try discriminate; try reflexivity.
  rewrite IH by lia. lia.
Qed.

Lemma slice_even_interleave (A B : list R) :
  length A = length B -> Np.slice_even (interleave A B) = A.
Proof.
  revert B; induction A as [|a A IH]; intros [|b B]; simpl; intros HL;
    try discriminate; try reflexivity.
  rewrite IH by lia. reflexivity.
Qed.

Lemma slice_odd_interleave (A B : list R) :
  length A = length B -> Np.slice_odd (interleave A B) = B.
Proof.
  revert B; induction A as [|a A IH]; intros [|b B]; simpl; intros HL;
    try discriminate; try reflexivity.
  rewrite IH by lia. reflexivity.
Qed.

Lemma slice_even_length {A : Type} (n : nat) (Y : list A) :
  length Y = (2 * n)%nat -> length (Np.slice_even Y) = n.
Proof.
  revert Y; induction n as [|n IH]; intros [|x [|y t]]; simpl; intros HL;
    try discriminate; try reflexivity; try lia.
  rewrite IH by lia. reflexivity.
Qed.

Lemma slice_odd_length {A : Type} (n : nat) (Y : list A) :
  length Y = (2 * n)%nat -> length (Np.slice_odd Y) = n.
Proof.
  revert Y; induction n as [|n IH]; intros [|x [|y t]]; simpl; intros HL;
    try discriminate; try reflexivity; try lia.
  rewrite IH by lia. reflexivity.
Qed.

Lemma nth_interleave_even (A B : list R) (i : nat) :
  length A = length B ->
  nth (2 * i) (interleave A B) 0 = nth i A 0.
Proof.
  revert A B; induction i as [|i IH]; intros [|a A] [|b B]; simpl; intros HL;
    try discriminate; try reflexivity.
  replace (i + S (i + 0))%nat with (S (2 * i)) by lia.
  apply IH. lia.
Qed.

Lemma nth_interleave_odd (A B : list R) (i : nat) :
  length A = length B ->
  nth (2 * i + 1) (interleave A B) 0 = nth i B 0.
Proof.
  revert A B; induction i as [|i IH]; intros [|a A] [|b B]; simpl; intros HL;
    try discriminate; try reflexivity.
  replace (i + S (i + 0) + 1)%nat with (S (2 * i + 1)) by lia.
  apply IH. lia.
Qed.

Lemma broadcast_to_same (n : nat) (src : list R) :
  length src = n -> Np.broadcast_to n src = Ok src.
Proof.
  intros HL. unfold Np.broadcast_to. rewrite HL, Nat.eqb_refl. reflexivity.
Qed.

Lemma write_step2_even (n : nat) (dst src : list R) :
  length dst = (2 * n)%nat -> length src = n ->
  Np.write_step2 dst src = interleave src (Np.slice_odd dst).
Proof.
  revert dst src; induction n as [|n IH]; intros [|x [|y t]] [|s ss]; simpl;
    intros HD HS; try discriminate; try reflexivity; try lia.
  do 2 f_equal. apply IH; lia.
Qed.

Lemma write_step2_odd (n : nat) (x : R) (t src : list R) :
  length (x :: t) = (2 * n)%nat -> length src = n ->
  x :: Np.write_step2 t src = interleave (Np.slice_even (x :: t)) src.
Proof.
  revert x t src; induction n as [|n IH]; intros x [|y t] [|s ss]; simpl;
    intros HD HS; try discriminate; try reflexivity; try lia.
  do 2 f_equal.
  destruct t as [|y' t'].
  - destruct ss; [reflexivity | simpl in *; lia].
  - apply (IH y' t' ss); simpl in *; lia.
Qed.

(** The two slice assignments on a fresh [zeros_like(Y)] produce the
    interleaving of their right-hand sides. *)
Lemma assign_slices (n : nat) (Y A B : list R) :
  length Y = (2 * n)%nat -> length A = n -> length B = n ->
  (dYdz <- Np.assign_even (Np.zeros_like Y) A ;; Np.assign_odd dYdz B)
  = Ok (interleave A B).
Proof.
  intros HY HA HB.
  assert (HZ : length (Np.zeros_like Y) = (2 * n)%nat).
  { unfold Np.zeros_like. rewrite repeat_length. exact HY. }
  unfold Np.assign_even.
  rewrite (broadcast_to_same _ A) by (rewrite (slice_even_length n); auto).
  cbn [bind Ok].
  rewrite (write_step2_even n) by assumption.
  set (D := interleave A (Np.slice_odd (Np.zeros_like Y))).
  assert (HO : length (Np.slice_odd (Np.zeros_like Y)) = n)
    by (apply slice_odd_length; exact HZ).
  assert (HD : length D = (2 * n)%nat).
  { unfold D. rewrite interleave_length; lia. }
  unfold Np.assign_odd.
  rewrite (broadcast_to_same _ B) by (rewrite (slice_odd_length n); auto).
  cbn [bind Ok]. f_equal.
  destruct D as [|x t] eqn:ED.
  - destruct n; [|simpl in HD; lia].
    destruct A; [|discriminate]. destruct B; [|discriminate]. reflexivity.
  - rewrite (write_step2_odd n) by assumption.
    rewrite <- ED. unfold D. rewrite slice_even_interleave by lia. reflexivity.
Qed.

(** ** Variant H: the field *)

Lemma Rsum_snoc (xs : list R) (x : R) : Np.Rsum (xs ++ [x]) = Np.Rsum xs + x.
Proof.
  induction xs as [|y ys IH]; simpl.
  - lra.
  - rewrite IH. lra.
Qed.

Lemma map2_Rplus_map {A : Type} (f g : A -> R) (l : list A) :
  Np.map2 Rplus (map f l) (map g l) = map (fun x => f x + g x) l.
Proof.
  induction l as [|a l IH]; simpl; [reflexivity | now rewrite IH].
Qed.

Lemma repeat_as_map {A : Type} (l : list A) (v : R) :
  repeat v (length l) = map (fun _ => v) l.
Proof.
  induction l as [|a l IH]; simpl; [reflexivity | now rewrite IH].
Qed.

Lemma harmonic_sum_S (m : nat) (theta : list R) (phase : R) :
  harmonic_sum (S m) theta phase
  = harmonic_sum m theta phase
    + bunching_factor (S m) theta / INR (S m) * sin (INR (S m) * phase).
Proof.
  unfold harmonic_sum. rewrite seq_S, map_app. cbn [map].
  rewrite Rsum_snoc. reflexivity.
Qed.

Lemma mean_cos_bunching (n : nat) (theta : list R) :
  Np.mean (map (fun th => cos (INR n * th)) theta) = bunching_factor n theta.
Proof.
  unfold Np.mean, bunching_factor. now rewrite length_map.
Qed.

Lemma bn_array_ok (cfg : H.Config) (theta : list R) :
  (0 <= H.N_harmonics_Ez cfg)%Z ->
  H.bn_array cfg theta
  = Ok (map (fun n => bunching_factor n theta)
            (seq 1 (Z.to_nat (H.N_harmonics_Ez cfg)))).
Proof.
  intros HN. unfold H.bn_array, Np.zeros.
  destruct (Z.ltb_spec (H.N_harmonics_Ez cfg) 0) as [Hlt|_]; [lia|].
  cbn [bind Ok]. f_equal. apply map_ext. intros n. apply mean_cos_bunching.
Qed.

Lemma nth_bunching (N_h n : nat) (theta : list R) :
  (1 <= n <= N_h)%nat ->
  nth (n - 1) (map (fun k => bunching_factor k theta) (seq 1 N_h)) 0
  = bunching_factor n theta.
Proof.
  intros Hn.
  rewrite (nth_indep _ 0 (bunching_factor 0 theta))
    by (rewrite length_map, length_seq; lia).
  pose proof (map_nth (fun k => bunching_factor k theta) (seq 1 N_h) 0%nat (n - 1))
    as E.
  cbv beta in E. rewrite E, seq_nth by lia.
  f_equal. lia.
Qed.

(** The accumulation loop, after its first [m] rounds. *)
Lemma Ez_loop_rounds (N_h : nat) (theta : list R) (m : nat) :
  (m <= N_h)%nat ->
  fold_left (H.Ez_loop_body (map (fun k => bunching_factor k theta) (seq 1 N_h)) theta)
            (seq 1 m) (Ok (repeat 0 (length theta)))
  = Ok (map (harmonic_sum m theta) theta).
Proof.
  induction m as [|m IH]; intros Hm.
  - simpl. f_equal. apply repeat_as_map.
  - rewrite seq_S, fold_left_app, IH by lia.
    cbn [fold_left Nat.add]. unfold H.Ez_loop_body. cbn [bind Ok].
    rewrite nth_bunching by lia.
    set (b := bunching_factor (S m) theta).
    assert (Hadd :
      Np.iadd (map (harmonic_sum m theta) theta)
              (map (fun th => b / INR (S m) * sin (INR (S m) * th)) theta)
      = Ok (map (harmonic_sum (S m) theta) theta)).
    { unfold Np.iadd. rewrite broadcast_to_same by (now rewrite !length_map).
      cbn [bind Ok]. rewrite map2_Rplus_map. f_equal.
      apply map_ext. intros th. now rewrite harmonic_sum_S. }
    unfold H.bn_differs_from_zero. rewrite nth_bunching by lia. fold b.
    destruct theta as [|th0 theta']; [exact Hadd|].
    unfold Np.Reqb. destruct (Req_dec_T b 0) as [Hb|Hb]; cbn [negb andb].
    + f_equal. apply map_ext. intros th. rewrite harmonic_sum_S.
      fold b. rewrite Hb. lra.
    + exact Hadd.
Qed.

Lemma Ez_particles_ok (cfg : H.Config) (theta : list R) :
  (0 <= H.N_harmonics_Ez cfg)%Z ->
  H.N_particles cfg = Z.of_nat (length theta) ->
  H.Ez_particles cfg theta
  = Ok (map (fun th => - H.Ez_const_factor cfg
                       * harmonic_sum (Z.to_nat (H.N_harmonics_Ez cfg)) theta th)
            theta).
Proof.
  intros HN HP. unfold H.Ez_particles.
  rewrite bn_array_ok by assumption. cbn [bind Ok].
  unfold Np.zeros. rewrite HP.
  destruct (Z.ltb_spec (Z.of_nat (length theta)) 0) as [Hlt|_]; [lia|].
  rewrite Nat2Z.id.
  change (@inr exn (list R) (repeat 0 (length theta)))
    with (Ok (repeat 0 (length theta))).
  rewrite Ez_loop_rounds by apply Nat.le_refl.
  cbn [bind Ok]. now rewrite map_map.
Qed.

(** C1.  For an ensemble of N phases and a harmonic count N_h >= 1, the
    Variant H solver returns for each particle the field
    [-C * sum_{n=1..N_h} (b_n/n) * sin(n*theta_i)], where [b_n] is the mean
    over all particles of [cos(n*theta)] and [C] is [Ez_const_factor]; and
    the entry of [bn_array] for a harmonic [n] is that same [b_n] whatever
    the harmonic count is (two configurations with different counts agree
    on every harmonic they share). *)
Theorem C1_harmonic_field (cfg : H.Config) (theta : list R) :
  (1 <= H.N_harmonics_Ez cfg)%Z ->
  H.N_particles cfg = Z.of_nat (length theta) ->
  H.Ez_particles cfg theta
  = Ok (map (fun theta_i =>
               - H.Ez_const_factor cfg
               * Np.Rsum (map (fun n => bunching_factor n theta / INR n
                                        * sin (INR n * theta_i))
                              (seq 1 (Z.to_nat (H.N_harmonics_Ez cfg)))))
            theta)
  /\ (forall (cfg' : H.Config) (n : nat),
         (1 <= Z.of_nat n <= H.N_harmonics_Ez cfg)%Z ->
         (Z.of_nat n <= H.N_harmonics_Ez cfg')%Z ->
         exists bn bn',
           H.bn_array cfg theta = Ok bn /\ H.bn_array cfg' theta = Ok bn'
           /\ nth (n - 1) bn 0 = bunching_factor n theta
           /\ nth (n - 1) bn' 0 = nth (n - 1) bn 0).
Proof.
  intros HN HP. split.
  - rewrite Ez_particles_ok by (assumption || lia). reflexivity.
  - intros cfg' n Hn Hn'.
    eexists. eexists.
    rewrite !bn_array_ok by lia.
    repeat split.
    + apply nth_bunching. lia.
    + rewrite !nth_bunching by lia. reflexivity.
Qed.

Lemma C1_harmonic_field_witness :
  (1 <= H.N_harmonics_Ez cfg_H_example)%Z
  /\ H.N_particles cfg_H_example = Z.of_nat (length [0; PI / 2; PI; 3 * (PI / 2)])
  /\ H.Ez_particles cfg_H_example [0; PI / 2; PI; 3 * (PI / 2)]
     = Ok (map (fun theta_i =>
                  - H.Ez_const_factor cfg_H_example
                  * Np.Rsum (map (fun n =>
                                    bunching_factor n [0; PI / 2; PI; 3 * (PI / 2)]
                                    / INR n * sin (INR n * theta_i))
                                 (seq 1 (Z.to_nat (H.N_harmonics_Ez cfg_H_example)))))
               [0; PI / 2; PI; 3 * (PI / 2)]).
Proof.
  assert (H1 : (1 <= H.N_harmonics_Ez cfg_H_example)%Z) by (simpl; lia).
  assert (H2 : H.N_particles cfg_H_example
               = Z.of_nat (length [0; PI / 2; PI; 3 * (PI / 2)])) by reflexivity.
  split; [exact H1 | split; [exact H2 |]].
  exact (proj1 (C1_harmonic_field cfg_H_example _ H1 H2)).
Defined.

(** ** The right-hand sides as interleaved derivative arrays *)

Lemma nth_map_lt {A : Type} (f : A -> R) (l : list A) (d : A) (i : nat) :
  (i < length l)%nat -> nth i (map f l) 0 = f (nth i l d).
Proof.
  intros Hi.
  rewrite (nth_indep _ 0 (f d)) by (now rewrite length_map).
  apply map_nth.
Qed.

Lemma histogram_ok (a : list R) (n : Z) (hi : R) :
  (1 <= n)%Z -> 0 <= hi ->
  exists counts, Np.histogram a n 0 hi = Ok counts
                 /\ length counts = Z.to_nat n.
Proof.
  intros Hn Hhi. unfold Np.histogram.
  destruct (Z.ltb_spec n 1) as [Hlt|_]; [lia|].
  unfold Np.Rleb at 1. destruct (Rle_dec 0 hi) as [_|Hc]; [|contradiction].
  destruct (Np.Reqb 0 hi); eexists; (split; [reflexivity|]);
    unfold Np.bincount; now rewrite length_map, length_seq.
Qed.

Lemma charge_density_ok (cfg : G.Config) (s_mod : list R) :
  (1 <= G.N_grid_s cfg)%Z -> 0 <= G.lambda_laser cfg ->
  exists rho_s, G.charge_density cfg s_mod = Ok rho_s
                /\ length rho_s = Z.to_nat (G.N_grid_s cfg).
Proof.
  intros Hn HL. unfold G.charge_density, Np.zeros.
  destruct (Z.ltb_spec (G.N_grid_s cfg) 0) as [Hlt|_]; [lia|].
  cbn [bind Ok].
  destruct (histogram_ok s_mod (G.N_grid_s cfg) (G.period_length_s cfg) Hn HL)
    as (counts & -> & HLc).
  cbn [bind Ok]. eexists. split; [reflexivity|].
  now rewrite length_map.
Qed.

Lemma collective_ode_layout (cfg : H.Config) (z : R) (Y : list R) (n : nat) :
  (0 <= H.N_harmonics_Ez cfg)%Z ->
  H.N_particles cfg = Z.of_nat n ->
  length Y = (2 * n)%nat ->
  H.collective_ode cfg z Y
  = Ok (interleave
          (map (fun theta_i =>
                  H.eta_change_factor cfg
                  * (- H.Ez_const_factor cfg
                     * harmonic_sum (Z.to_nat (H.N_harmonics_Ez cfg))
                                    (Np.slice_odd Y) theta_i))
               (Np.slice_odd Y))
          (map (fun eta => H.theta_change_factor cfg * eta) (Np.slice_even Y))).
Proof.
  intros HN HP HY. unfold H.collective_ode.
  pose proof (slice_odd_length n Y HY) as HO.
  pose proof (slice_even_length n Y HY) as HE.
  rewrite Ez_particles_ok by (try assumption; now rewrite HO).
  cbn [bind Ok].
  rewrite (assign_slices n) by (try assumption; now rewrite ?length_map).
  now rewrite map_map.
Qed.

Lemma collective_ode_fft_layout (cfg : G.Config) (z : R) (Y : list R) (n : nat)
      (rho_s : list R) :
  length Y = (2 * n)%nat ->
  G.charge_density cfg
    (map (fun s => Np.mod_ s (G.period_length_s cfg)) (Np.slice_odd Y)) = Ok rho_s ->
  G.collective_ode_fft cfg z Y
  = Ok (interleave
          (map (fun E => (- G.e cfg) * E * G.eta_change_factor_ode cfg)
               (G.Ez_particles_interp cfg (G.Ez_s_grid cfg rho_s)
                  (map (fun s => Np.mod_ s (G.period_length_s cfg))
                       (Np.slice_odd Y))))
          (map (fun eta => G.s_change_factor_ode cfg * eta) (Np.slice_even Y))).
Proof.
  intros HY Hrho. unfold G.collective_ode_fft.
  pose proof (slice_odd_length n Y HY) as HO.
  pose proof (slice_even_length n Y HY) as HE.
  rewrite Hrho. cbn [bind Ok].
  rewrite (assign_slices n); try assumption; try reflexivity.
  - unfold G.Ez_particles_interp. now rewrite !length_map.
  - now rewrite length_map.
Qed.

(** C2.  On a flattened state [Y] of 2N entries both right-hand sides
    return a derivative array of 2N entries with, for every particle [i],
    [d(eta_i)/dz = K_eta * F_i] and [d(position_i)/dz = K_drift * eta_i]:
    [F] is the field sample of the variant's solver; [K_eta] is
    [-e / (gamma_ref * m_e * c^2)] in Variant H and
    [(-e) * (-1 / (gamma_ref * m_e * c^2))] in Variant G; [K_drift] is
    [k_laser / gamma_ref^2] in Variant H and [1 / gamma_ref^2] in Variant G.
    The position derivative of particle [i] is a function of [eta_i]
    alone. *)
Theorem C2_vector_field (cfgH : H.Config) (cfgG : G.Config) (z : R)
        (Y : list R) (n : nat) :
  length Y = (2 * n)%nat ->
  (0 <= H.N_harmonics_Ez cfgH)%Z ->
  H.N_particles cfgH = Z.of_nat n ->
  (1 <= G.N_grid_s cfgG)%Z ->
  0 <= G.lambda_laser cfgG ->
  let eta := Np.slice_even Y in
  let position := Np.slice_odd Y in
  (exists F dYdz,
      H.Ez_particles cfgH position = Ok F /\ length F = n
      /\ H.collective_ode cfgH z Y = Ok dYdz /\ length dYdz = (2 * n)%nat
      /\ forall i, (i < n)%nat ->
           nth (2 * i) dYdz 0
           = (- H.e cfgH / (H.gamma_ref cfgH * H.m_e cfgH * (H.c cfgH) ^ 2))
             * nth i F 0
           /\ nth (2 * i + 1) dYdz 0
              = (2 * PI / H.lambda_laser cfgH / (H.gamma_ref cfgH) ^ 2)
                * nth i eta 0)
  /\
  (exists rho_s dYdz,
      let s_mod := map (fun s => Np.mod_ s (G.period_length_s cfgG)) position in
      let F := G.Ez_particles_interp cfgG (G.Ez_s_grid cfgG rho_s) s_mod in
      G.charge_density cfgG s_mod = Ok rho_s /\ length F = n
      /\ G.collective_ode_fft cfgG z Y = Ok dYdz /\ length dYdz = (2 * n)%nat
      /\ forall i, (i < n)%nat ->
           nth (2 * i) dYdz 0
           = ((- G.e cfgG)
              * (- 1 / (G.gamma_ref cfgG * G.m_e cfgG * (G.c cfgG) ^ 2)))
             * nth i F 0
           /\ nth (2 * i + 1) dYdz 0
              = (1 / (G.gamma_ref cfgG) ^ 2) * nth i eta 0).
Proof.
  intros HY HNh HNp HNg HL eta position.
  pose proof (slice_odd_length n Y HY) as HO.
  pose proof (slice_even_length n Y HY) as HE.
  split.
  - eexists. eexists.
    rewrite Ez_particles_ok by (try assumption; unfold position; now rewrite HO).
    rewrite (collective_ode_layout cfgH z Y n) by assumption.
    split; [reflexivity|]. split; [now rewrite length_map|].
    split; [reflexivity|].
    split; [rewrite interleave_length; rewrite !length_map; lia|].
    intros i Hi. split.
    + rewrite nth_interleave_even by (rewrite !length_map; lia).
      fold position.
      rewrite !(nth_map_lt _ position 0) by (unfold position; lia).
      reflexivity.
    + rewrite nth_interleave_odd by (rewrite !length_map; lia).
      rewrite (nth_map_lt _ (Np.slice_even Y) 0) by lia.
      reflexivity.
  - destruct (charge_density_ok cfgG
                (map (fun s => Np.mod_ s (G.period_length_s cfgG)) position) HNg HL)
      as (rho_s & Hrho & _).
    exists rho_s. eexists. cbv zeta.
    rewrite (collective_ode_fft_layout cfgG z Y n rho_s HY Hrho).
    split; [exact Hrho|].
    assert (HF : length (G.Ez_particles_interp cfgG (G.Ez_s_grid cfgG rho_s)
                   (map (fun s => Np.mod_ s (G.period_length_s cfgG)) position)) = n).
    { unfold G.Ez_particles_interp. rewrite !length_map. exact HO. }
    split; [exact HF|]. split; [reflexivity|].
    split; [rewrite interleave_length; rewrite !length_map; fold position; lia|].
    intros i Hi. split.
    + rewrite nth_interleave_even by (rewrite !length_map; fold position; lia).
      fold position.
      rewrite (nth_map_lt _ _ 0) by lia.
      unfold G.eta_change_factor_ode. ring.
    + rewrite nth_interleave_odd by (rewrite !length_map; fold position; lia).
      rewrite (nth_map_lt _ (Np.slice_even Y) 0) by lia.
      reflexivity.
Qed.

Lemma C2_vector_field_witness :
  length Y_example = (2 * 4)%nat
  /\ (0 <= H.N_harmonics_Ez cfg_H_example)%Z
  /\ H.N_particles cfg_H_example = Z.of_nat 4
  /\ (1 <= G.N_grid_s cfg_G_example)%Z
  /\ 0 <= G.lambda_laser cfg_G_example
  /\ (exists dYdz,
         H.collective_ode cfg_H_example 0 Y_example = Ok dYdz
         /\ nth 1 dYdz 0
            = (2 * PI / H.lambda_laser cfg_H_example
               / (H.gamma_ref cfg_H_example) ^ 2)
              * nth 0 (Np.slice_even Y_example) 0)
  /\ (exists dYdz,
         G.collective_ode_fft cfg_G_example 0 Y_example = Ok dYdz
         /\ nth 1 dYdz 0
            = (1 / (G.gamma_ref cfg_G_example) ^ 2)
              * nth 0 (Np.slice_even Y_example) 0).
Proof.
  assert (H1 : length Y_example = (2 * 4)%nat) by reflexivity.
  assert (H2 : (0 <= H.N_harmonics_Ez cfg_H_example)%Z) by (simpl; lia).
  assert (H3 : H.N_particles cfg_H_example = Z.of_nat 4) by reflexivity.
  assert (H4 : (1 <= G.N_grid_s cfg_G_example)%Z) by (simpl; lia).
  assert (H5 : 0 <= G.lambda_laser cfg_G_example) by (simpl; lra).
  repeat (split; [assumption|]).
  destruct (C2_vector_field cfg_H_example cfg_G_example 0 Y_example 4
              H1 H2 H3 H4 H5) as [(F & dH & _ & _ & EH & _ & PH)
                                    (rho & dG & _ & _ & EG & _ & PG)].
  split.
  - exists dH. split; [exact EH|].
    exact (proj2 (PH 0%nat ltac:(lia))).
  - exists dG. split; [exact EG|].
    exact (proj2 (PG 0%nat ltac:(lia))).
Defined.

(** ** Variant G: the frequency-space solve *)

Lemma fft_length (x : list Cx.C) : length (Cx.fft x) = length x.
Proof. unfold Cx.fft. now rewrite length_map, length_seq. Qed.

Lemma ifft_length (y : list Cx.C) : length (Cx.ifft y) = length y.
Proof. unfold Cx.ifft. now rewrite length_map, length_seq. Qed.

Lemma map2_length {A B C : Type} (f : A -> B -> C) (l : list A) (m : list B) :
  length l = length m -> length (Np.map2 f l m) = length l.
Proof.
  revert m; induction l as [|a l IH]; intros [|b m]; simpl; intros HL;
    try discriminate; try reflexivity.
  now rewrite IH by lia.
Qed.

Lemma k_s_grid_fft_length (cfg : G.Config) :
  length (G.k_s_grid_fft cfg) = Z.to_nat (G.N_grid_s cfg).
Proof.
  unfold G.k_s_grid_fft, Cx.fftfreq. now rewrite !length_map, length_seq.
Qed.

Lemma Reqb_refl (x : R) : Np.Reqb x x = true.
Proof. unfold Np.Reqb. destruct (Req_dec_T x x); [reflexivity | contradiction]. Qed.

(** The first wavenumber of the grid is the zero frequency. *)
Lemma k_s_grid_fft_head (cfg : G.Config) :
  (1 <= G.N_grid_s cfg)%Z ->
  exists ks, G.k_s_grid_fft cfg = 0 :: ks.
Proof.
  intros Hn. unfold G.k_s_grid_fft, Cx.fftfreq.
  destruct (Z.to_nat (G.N_grid_s cfg)) as [|m] eqn:Em; [lia|].
  cbn [seq map]. eexists. f_equal.
  destruct (Z.ltb_spec (Z.of_nat 0) ((G.N_grid_s cfg - 1) / 2 + 1)) as [_|Hc].
  - cbn [Z.of_nat]. ring.
  - exfalso. cbn [Z.of_nat] in Hc.
    assert (0 <= (G.N_grid_s cfg - 1) / 2)%Z by (apply Z.div_pos; lia). lia.
Qed.

Lemma Rsum_shift (rho : list R) (offset : R) :
  Np.Rsum (map (fun r => r + offset) rho)
  = Np.Rsum rho + INR (length rho) * offset.
Proof.
  induction rho as [|r rho IH].
  - simpl. lra.
  - cbn [map Np.Rsum fold_right length]. fold (Np.Rsum (map (fun r => r + offset) rho)).
    fold (Np.Rsum rho). rewrite IH, S_INR. lra.
Qed.

(** Subtracting the mean removes any uniform offset of the density. *)
Lemma rho_ac_offset (rho : list R) (offset : R) :
  G.rho_ac (map (fun r => r + offset) rho) = G.rho_ac rho.
Proof.
  destruct rho as [|r0 rho0] eqn:E; [reflexivity|]. rewrite <- E.
  assert (Hlen : INR (length rho) <> 0).
  { rewrite E. apply not_0_INR. discriminate. }
  unfold G.rho_ac. rewrite map_map. apply map_ext. intros r.
  unfold Np.mean. rewrite Rsum_shift, length_map. field. exact Hlen.
Qed.

(** C3.  In the Variant G solve, whatever the density on the grid, the
    zero-frequency entry of the field spectrum [Ez_fft] is exactly zero,
    and adding a uniform offset to the charge density leaves the field on
    the grid unchanged. *)
Theorem C3_dc_component (cfg : G.Config) (rho_s : list R) (offset : R) :
  (1 <= G.N_grid_s cfg)%Z ->
  length rho_s = Z.to_nat (G.N_grid_s cfg) ->
  nth_error (G.k_s_grid_fft cfg) 0 = Some 0
  /\ nth_error (G.Ez_fft cfg rho_s) 0 = Some Cx.C0
  /\ G.Ez_s_grid cfg (map (fun r => r + offset) rho_s) = G.Ez_s_grid cfg rho_s.
Proof.
  intros Hn HL.
  destruct (k_s_grid_fft_head cfg Hn) as (ks & Hk).
  split; [now rewrite Hk|]. split.
  - unfold G.Ez_fft. rewrite Hk.
    destruct (Cx.fft (map Cx.RtoC (G.rho_ac rho_s))) as [|x xs] eqn:Ef.
    + exfalso.
      assert (HF : length (Cx.fft (map Cx.RtoC (G.rho_ac rho_s)))
                   = Z.to_nat (G.N_grid_s cfg)).
      { rewrite fft_length, length_map. unfold G.rho_ac.
        now rewrite length_map. }
      rewrite Ef in HF. simpl in HF. lia.
    + cbn [Np.map2 nth_error]. now rewrite Reqb_refl.
  - unfold G.Ez_s_grid, G.Ez_s_grid_complex, G.Ez_fft.
    now rewrite rho_ac_offset.
Qed.

Lemma C3_dc_component_witness :
  (1 <= G.N_grid_s cfg_G_example)%Z
  /\ length [1; 2; 3; 4] = Z.to_nat (G.N_grid_s cfg_G_example)
  /\ nth_error (G.Ez_fft cfg_G_example [1; 2; 3; 4]) 0 = Some Cx.C0
  /\ G.Ez_s_grid cfg_G_example (map (fun r => r + 5) [1; 2; 3; 4])
     = G.Ez_s_grid cfg_G_example [1; 2; 3; 4].
Proof.
  assert (H1 : (1 <= G.N_grid_s cfg_G_example)%Z) by (simpl; lia).
  assert (H2 : length [1; 2; 3; 4] = Z.to_nat (G.N_grid_s cfg_G_example))
    by reflexivity.
  split; [exact H1 | split; [exact H2 |]].
  exact (proj2 (C3_dc_component cfg_G_example [1; 2; 3; 4] 5 H1 H2)).
Defined.

(** ** Variant G: grid indices and periodicity *)

Lemma clip_bounds (a n : Z) : (1 <= n)%Z -> (0 <= Np.clip a 0 (n - 1) <= n - 1)%Z.
Proof. intros Hn. unfold Np.clip. lia. Qed.

Lemma Ez_s_grid_length (cfg : G.Config) (rho_s : list R) :
  length rho_s = Z.to_nat (G.N_grid_s cfg) ->
  length (G.Ez_s_grid cfg rho_s) = Z.to_nat (G.N_grid_s cfg).
Proof.
  intros HL. unfold G.Ez_s_grid, G.Ez_s_grid_complex, G.Ez_fft.
  rewrite length_map, ifft_length, map2_length; rewrite k_s_grid_fft_length.
  - reflexivity.
  - rewrite fft_length, length_map. unfold G.rho_ac. now rewrite length_map.
Qed.

(** C6.  In Variant G, whatever real number the position is, the grid
    index computed from it lies in [[0, N_g - 1]], so the read of the grid
    field is in bounds; and a reduced position equal to the period itself
    (the upper boundary) is mapped to the last bin [N_g - 1]. *)
Theorem C6_index_in_bounds (cfg : G.Config) (s : R) (rho_s : list R) :
  (1 <= G.N_grid_s cfg)%Z ->
  G.lambda_laser cfg <> 0 ->
  length rho_s = Z.to_nat (G.N_grid_s cfg) ->
  (0 <= G.particle_grid_index cfg s <= G.N_grid_s cfg - 1)%Z
  /\ (0 <= G.particle_grid_index cfg (Np.mod_ s (G.period_length_s cfg))
      <= G.N_grid_s cfg - 1)%Z
  /\ (Z.to_nat (G.particle_grid_index cfg (Np.mod_ s (G.period_length_s cfg)))
      < length (G.Ez_s_grid cfg rho_s))%nat
  /\ G.particle_grid_index cfg (G.period_length_s cfg) = (G.N_grid_s cfg - 1)%Z.
Proof.
  intros Hn HL Hrho.
  split; [apply clip_bounds; exact Hn|].
  split; [apply clip_bounds; exact Hn|].
  split.
  - rewrite Ez_s_grid_length by exact Hrho.
    pose proof (clip_bounds
                  (Zfloor (Np.mod_ s (G.period_length_s cfg) / G.ds_grid cfg))
                  (G.N_grid_s cfg) Hn) as B.
    unfold G.particle_grid_index. lia.
  - unfold G.particle_grid_index, G.ds_grid, G.period_length_s.
    assert (HN : IZR (G.N_grid_s cfg) <> 0)
      by (apply not_0_IZR; lia).
    replace (G.lambda_laser cfg / (G.lambda_laser cfg / IZR (G.N_grid_s cfg)))
      with (IZR (G.N_grid_s cfg)) by (field; split; assumption).
    rewrite ZfloorZ. unfold Np.clip. lia.
Qed.

Lemma C6_index_in_bounds_witness :
  (1 <= G.N_grid_s cfg_G_example)%Z
  /\ G.lambda_laser cfg_G_example <> 0
  /\ length [1; 2; 3; 4] = Z.to_nat (G.N_grid_s cfg_G_example)
  /\ (0 <= G.particle_grid_index cfg_G_example
             (Np.mod_ (-1) (G.period_length_s cfg_G_example))
      <= G.N_grid_s cfg_G_example - 1)%Z
  /\ G.particle_grid_index cfg_G_example (G.period_length_s cfg_G_example)
     = (G.N_grid_s cfg_G_example - 1)%Z.
Proof.
  assert (H1 : (1 <= G.N_grid_s cfg_G_example)%Z) by (simpl; lia).
  assert (H2 : G.lambda_laser cfg_G_example <> 0) by (simpl; lra).
  assert (H3 : length [1; 2; 3; 4] = Z.to_nat (G.N_grid_s cfg_G_example))
    by reflexivity.
  repeat (split; [assumption|]).
  destruct (C6_index_in_bounds cfg_G_example (-1) [1; 2; 3; 4] H1 H2 H3)
    as (_ & B & _ & E).
  split; [exact B | exact E].
Defined.

Lemma mod_period (s m : R) : m <> 0 -> Np.mod_ (s + m) m = Np.mod_ s m.
Proof.
  intros Hm. unfold Np.mod_.
  replace ((s + m) / m) with (s / m + IZR 1) by (field; exact Hm).
  rewrite Zfloor_addz, plus_IZR. ring.
Qed.

Lemma slice_even_update_odd {A : Type} (f : A -> A) (i : nat) (Y : list A) :
  Np.slice_even (update_nth (2 * i + 1) f Y) = Np.slice_even Y.
Proof.
  revert Y; induction i as [|i IH]; intros [|x [|y t]]; try reflexivity;
    replace (2 * S i + 1)%nat with (S (S (2 * i + 1))) by lia;
    cbn [update_nth Np.slice_even]; try reflexivity.
  now rewrite IH.
Qed.

Lemma slice_odd_update_odd {A : Type} (f : A -> A) (i : nat) (Y : list A) :
  Np.slice_odd (update_nth (2 * i + 1) f Y) = update_nth i f (Np.slice_odd Y).
Proof.
  revert Y; induction i as [|i IH]; intros [|x [|y t]]; try reflexivity;
    replace (2 * S i + 1)%nat with (S (S (2 * i + 1))) by lia;
    cbn [update_nth Np.slice_odd]; try reflexivity.
  now rewrite IH.
Qed.

Lemma update_nth_length {A : Type} (f : A -> A) (i : nat) (l : list A) :
  length (update_nth i f l) = length l.
Proof.
  revert i; induction l as [|x t IH]; intros [|i]; simpl; try reflexivity.
  now rewrite IH.
Qed.

Lemma map_update_nth {A B : Type} (g : A -> B) (f : A -> A) (i : nat) (l : list A) :
  (forall x, g (f x) = g x) -> map g (update_nth i f l) = map g l.
Proof.
  intros Hg. revert i; induction l as [|x t IH]; intros [|i]; simpl;
    try reflexivity.
  - now rewrite Hg.
  - now rewrite IH.
Qed.

(** C5.  In Variant G, a position and that position plus exactly one
    period reduce to the same value, hence to the same bin index; and
    replacing the position of any one particle by itself plus one period
    leaves the reduced positions, and the whole right-hand side (the field
    sample and [d(eta)/dz] of every particle included), unchanged. *)
Theorem C5_periodicity (cfg : G.Config) (z s : R) (i : nat) (Y : list R) :
  G.period_length_s cfg <> 0 ->
  G.particle_grid_index cfg (Np.mod_ (s + G.period_length_s cfg)
                                     (G.period_length_s cfg))
  = G.particle_grid_index cfg (Np.mod_ s (G.period_length_s cfg))
  /\ map (fun s => Np.mod_ s (G.period_length_s cfg))
         (Np.slice_odd (add_period cfg i Y))
     = map (fun s => Np.mod_ s (G.period_length_s cfg)) (Np.slice_odd Y)
  /\ G.collective_ode_fft cfg z (add_period cfg i Y)
     = G.collective_ode_fft cfg z Y.
Proof.
  intros HL.
  assert (Hmod : map (fun s => Np.mod_ s (G.period_length_s cfg))
                     (Np.slice_odd (add_period cfg i Y))
                 = map (fun s => Np.mod_ s (G.period_length_s cfg))
                       (Np.slice_odd Y)).
  { unfold add_period. rewrite slice_odd_update_odd.
    apply map_update_nth. intros x. now apply mod_period. }
  split; [now rewrite mod_period|]. split; [exact Hmod|].
  unfold G.collective_ode_fft. rewrite Hmod.
  unfold add_period at 2. rewrite slice_even_update_odd.
  unfold Np.zeros_like, add_period. now rewrite update_nth_length.
Qed.

Lemma C5_periodicity_witness :
  G.period_length_s cfg_G_example <> 0
  /\ G.collective_ode_fft cfg_G_example 0 (add_period cfg_G_example 1 Y_example)
     = G.collective_ode_fft cfg_G_example 0 Y_example.
Proof.
  assert (H1 : G.period_length_s cfg_G_example <> 0)
    by (unfold G.period_length_s; simpl; lra).
  split; [exact H1|].
  exact (proj2 (proj2 (C5_periodicity cfg_G_example 0 0 1 Y_example H1))).
Defined.

(** ** The four-point grid of [cfg_G_example], evaluated *)

Lemma k_s_grid_fft_example :
  G.k_s_grid_fft cfg_G_example = [0; PI / 2; - PI; - (PI / 2)].
Proof.
  unfold G.k_s_grid_fft, Cx.fftfreq, G.ds_grid, G.period_length_s.
  cbn [cfg_G_example G.N_grid_s G.lambda_laser].
  change (Z.to_nat 4) with 4%nat. cbn [seq map].
  eval_IZR.
  repeat (f_equal; try field).
Qed.

Lemma cis_quarter (m : nat) : Cx.cis (2 * PI * INR m / INR 4) = w4 m.
Proof.
  unfold w4, Cx.cis.
  pose proof (Nat.div_mod_eq m 4) as E.
  pose proof (Nat.mod_upper_bound m 4 ltac:(lia)) as B.
  set (q := (m / 4)%nat) in *. set (r := (m mod 4)%nat) in *.
  assert (EA : 2 * PI * INR m / INR 4 = INR r * (PI / 2) + 2 * INR q * PI).
  { rewrite E, plus_INR, mult_INR. simpl INR. field. }
  rewrite EA, cos_period, sin_period.
  destruct r as [|[|[|[|r]]]]; try lia.
  - simpl INR. rewrite Rmult_0_l, cos_0, sin_0. reflexivity.
  - simpl INR. rewrite Rmult_1_l, cos_PI2, sin_PI2. reflexivity.
  - replace (INR 2 * (PI / 2)) with PI by (simpl; field).
    rewrite cos_PI, sin_PI. reflexivity.
  - replace (INR 3 * (PI / 2)) with (3 * (PI / 2)) by (simpl; field).
    rewrite cos_3PI2, sin_3PI2. reflexivity.
Qed.

Lemma cis_quarter_neg (m : nat) :
  Cx.cis (- (2 * PI * INR m / INR 4))
  = Cx.mkC (Cx.re (w4 m)) (- Cx.im (w4 m)).
Proof.
  rewrite <- cis_quarter. unfold Cx.cis. cbn [Cx.re Cx.im].
  now rewrite cos_neg, sin_neg.
Qed.

Lemma fft_four_points (x0 x1 x2 x3 : R) :
  Cx.fft (map Cx.RtoC [x0; x1; x2; x3])
  = [ Cx.mkC (x0 + x1 + x2 + x3) 0;
      Cx.mkC (x0 - x2) (x3 - x1);
      Cx.mkC (x0 - x1 + x2 - x3) 0;
      Cx.mkC (x0 - x2) (x1 - x3) ].
Proof.
  unfold Cx.fft. cbn [map length seq nth].
  rewrite !cis_quarter_neg. C_components.
  repeat (f_equal; try ring).
Qed.

Lemma ifft_four_points (y0 y1 y2 y3 : Cx.C) :
  Cx.ifft [y0; y1; y2; y3]
  = [ Cx.mkC ((Cx.re y0 + Cx.re y1 + Cx.re y2 + Cx.re y3) / 4)
             ((Cx.im y0 + Cx.im y1 + Cx.im y2 + Cx.im y3) / 4);
      Cx.mkC ((Cx.re y0 - Cx.im y1 - Cx.re y2 + Cx.im y3) / 4)
             ((Cx.im y0 + Cx.re y1 - Cx.im y2 - Cx.re y3) / 4);
      Cx.mkC ((Cx.re y0 - Cx.re y1 + Cx.re y2 - Cx.re y3) / 4)
             ((Cx.im y0 - Cx.im y1 + Cx.im y2 - Cx.im y3) / 4);
      Cx.mkC ((Cx.re y0 + Cx.im y1 - Cx.re y2 - Cx.im y3) / 4)
             ((Cx.im y0 - Cx.re y1 - Cx.im y2 + Cx.re y3) / 4) ].
Proof.
  unfold Cx.ifft. cbn [map length seq nth].
  rewrite !cis_quarter. C_components. simpl INR.
  repeat (f_equal; try field).
Qed.

Lemma Reqb_neq (x y : R) : x <> y -> Np.Reqb x y = false.
Proof.
  intros H. unfold Np.Reqb.
  destruct (Req_dec_T x y); [contradiction | reflexivity].
Qed.

Lemma Rleb_true (x y : R) : x <= y -> Np.Rleb x y = true.
Proof.
  intros H. unfold Np.Rleb.
  destruct (Rle_dec x y); [reflexivity | contradiction].
Qed.

(** The inverse transform on the example grid, in closed form: the real
    parts are the field, the imaginary parts come from the Nyquist bin. *)
Lemma Ez_s_grid_complex_example (x0 x1 x2 x3 : R) :
  G.Ez_s_grid_complex cfg_G_example [x0; x1; x2; x3]
  = [ Cx.mkC ((x3 - x1) / PI) ((x0 - x1 + x2 - x3) / (4 * PI));
      Cx.mkC ((x0 - x2) / PI) (- ((x0 - x1 + x2 - x3) / (4 * PI)));
      Cx.mkC ((x1 - x3) / PI) ((x0 - x1 + x2 - x3) / (4 * PI));
      Cx.mkC ((x2 - x0) / PI) (- ((x0 - x1 + x2 - x3) / (4 * PI))) ].
Proof.
  pose proof PI_RGT_0 as HPI.
  unfold G.Ez_s_grid_complex, G.Ez_fft. rewrite k_s_grid_fft_example.
  unfold G.rho_ac. cbn [map].
  match goal with
  | |- context [Cx.fft [Cx.RtoC ?a; Cx.RtoC ?b; Cx.RtoC ?c; Cx.RtoC ?d]] =>
      change (Cx.fft [Cx.RtoC a; Cx.RtoC b; Cx.RtoC c; Cx.RtoC d])
        with (Cx.fft (map Cx.RtoC [a; b; c; d]))
  end.
  rewrite fft_four_points. cbn [Np.map2].
  rewrite Reqb_refl, !Reqb_neq by lra.
  rewrite ifft_four_points. cbn [G.epsilon_0 cfg_G_example].
  C_components.
  repeat (f_equal; try (field; lra)).
Qed.

Lemma mod_small (x m : R) : 0 <= x < m -> Np.mod_ x m = x.
Proof.
  intros [H0 Hm]. unfold Np.mod_.
  rewrite (Zfloor_eq 0).
  - ring.
  - assert (0 < m) by lra.
    split.
    + apply Rmult_le_pos; [lra | left; now apply Rinv_0_lt_compat].
    + apply (Rmult_lt_reg_r m); [assumption|].
      unfold Rdiv. rewrite Rmult_assoc, Rinv_l by lra. lra.
Qed.

Lemma hist_index_example (j : Z) (x : R) :
  (0 <= j < 4)%Z -> IZR j <= x < IZR j + 1 -> Np.hist_index 4 0 4 x = j.
Proof.
  intros Hj Hx. unfold Np.hist_index.
  rewrite (Zfloor_eq j) by (split; lra).
  destruct (Z.eqb_spec j 4); [lia | reflexivity].
Qed.

Lemma histogram_two_samples (x y : R) (i j : Z) :
  (0 <= i < 4)%Z -> IZR i <= x < IZR i + 1 ->
  (0 <= j < 4)%Z -> IZR j <= y < IZR j + 1 ->
  Np.histogram [x; y] 4 0 4 = Ok (Np.bincount 4 [i; j]).
Proof.
  intros Hi Hx Hj Hy. unfold Np.histogram.
  change (4 <? 1)%Z with false. cbv iota.
  rewrite Rleb_true, Reqb_neq by lra.
  assert (Bi : IZR i <= 3) by (apply IZR_le; lia).
  assert (Bj : IZR j <= 3) by (apply IZR_le; lia).
  assert (Pi : 0 <= IZR i) by (apply IZR_le; lia).
  assert (Pj : 0 <= IZR j) by (apply IZR_le; lia).
  cbn [filter]. unfold Np.hist_keep.
  rewrite !Rleb_true by lra. cbn [andb map].
  now rewrite (hist_index_example i), (hist_index_example j).
Qed.

(** Two macro-particles on the example grid: each adds [-1/PI] to the
    density of its bin. *)
Lemma charge_density_two_samples (x y : R) (i j : Z) :
  (0 <= i < 4)%Z -> IZR i <= x < IZR i + 1 ->
  (0 <= j < 4)%Z -> IZR j <= y < IZR j + 1 ->
  G.charge_density cfg_G_example [x; y]
  = Ok (map (fun cnt => - (1 / PI) * IZR cnt) (Np.bincount 4 [i; j])).
Proof.
  intros Hi Hx Hj Hy. unfold G.charge_density.
  change (Np.zeros (G.N_grid_s cfg_G_example)) with (Ok (repeat 0 4)).
  cbn [bind Ok].
  change (G.N_grid_s cfg_G_example) with 4%Z.
  change (G.period_length_s cfg_G_example) with 4.
  rewrite (histogram_two_samples x y i j) by assumption.
  cbn [bind Ok]. f_equal. apply map_ext. intros cnt.
  unfold G.Q_macro, G.Q_total_in_one_period, G.T_laser_period, G.ds_grid,
    G.beam_area_transverse, G.period_length_s.
  cbn [cfg_G_example G.N_particles G.N_grid_s G.lambda_laser G.c G.I_avg_beam
       G.beam_radius_transverse].
  pose proof PI_RGT_0. field. lra.
Qed.

Lemma particle_grid_index_example (j : Z) (x : R) :
  (0 <= j < 4)%Z -> IZR j <= x < IZR j + 1 ->
  G.particle_grid_index cfg_G_example x = j.
Proof.
  intros Hj Hx. unfold G.particle_grid_index, G.ds_grid, G.period_length_s.
  cbn [cfg_G_example G.N_grid_s G.lambda_laser].
  rewrite (Zfloor_eq j) by (split; lra).
  unfold Np.clip. lia.
Qed.

(** ** Variant G: the per-particle sample *)

(** C4, as stated, fails: with the two particles of [Y_two_bins] on the
    example grid, the grid field at the first particle's bin is
    [1 / PI^2], while its sample is [-1 / PI^2]. *)
Lemma C4_sample_sign_counterexample :
  ~ sample_is_grid_value cfg_G_example Y_two_bins.
Proof.
  pose proof PI_RGT_0 as HPI.
  unfold sample_is_grid_value, Y_two_bins. cbn [Np.slice_odd map].
  change (G.period_length_s cfg_G_example) with 4.
  rewrite !mod_small by lra.
  intros Hclaim.
  specialize (Hclaim _ (charge_density_two_samples 0 1 0 1
                          ltac:(lia) ltac:(lra) ltac:(lia) ltac:(lra))
                     0%nat ltac:(simpl; lia)).
  unfold G.Ez_particles_interp, G.Ez_s_grid in Hclaim.
  cbn [map nth] in Hclaim.
  rewrite (particle_grid_index_example 0 0) in Hclaim by (lia || lra).
  change (Np.bincount 4 [0%Z; 1%Z]) with [1%Z; 1%Z; 0%Z; 0%Z] in Hclaim.
  cbn [map] in Hclaim.
  rewrite Ez_s_grid_complex_example in Hclaim.
  cbn [map nth Z.to_nat Cx.re] in Hclaim.
  assert (Hpos : 0 < (- (1 / PI) * 0 - - (1 / PI) * 1) / PI).
  { replace ((- (1 / PI) * 0 - - (1 / PI) * 1) / PI) with (/ PI * / PI)
      by (field; lra).
    apply Rmult_lt_0_compat; now apply Rinv_0_lt_compat. }
  lra.
Qed.

(** C4, amended.  In Variant G the per-particle field sample of step 7 is
    the negated grid field value at the particle's grid index, and
    [d(eta_i)/dz] is [(-e) * sample_i * eta_change_factor_ode]. *)
Theorem C4_sample_is_negated_grid_value (cfg : G.Config) (z : R) (Y : list R)
        (n : nat) (rho_s : list R) (i : nat) :
  let s_mod :=
    map (fun s => Np.mod_ s (G.period_length_s cfg)) (Np.slice_odd Y) in
  let Ez_grid := G.Ez_s_grid cfg rho_s in
  let index_i := Z.to_nat (G.particle_grid_index cfg (nth i s_mod 0)) in
  length Y = (2 * n)%nat ->
  (i < n)%nat ->
  G.charge_density cfg s_mod = Ok rho_s ->
  nth i (G.Ez_particles_interp cfg Ez_grid s_mod) 0 = - nth index_i Ez_grid 0
  /\ exists dYdz,
       G.collective_ode_fft cfg z Y = Ok dYdz
       /\ nth (2 * i) dYdz 0
          = (- G.e cfg) * (- nth index_i Ez_grid 0) * G.eta_change_factor_ode cfg.
Proof.
  intros s_mod Ez_grid index_i HY Hi Hrho.
  pose proof (slice_odd_length n Y HY) as HO.
  pose proof (slice_even_length n Y HY) as HE.
  assert (Hs : length s_mod = n) by (unfold s_mod; now rewrite length_map).
  assert (Hsample :
    nth i (G.Ez_particles_interp cfg Ez_grid s_mod) 0 = - nth index_i Ez_grid 0).
  { unfold G.Ez_particles_interp.
    rewrite (nth_map_lt _ s_mod 0) by lia. reflexivity. }
  split; [exact Hsample|].
  eexists. split.
  - apply (collective_ode_fft_layout cfg z Y n rho_s HY Hrho).
  - rewrite nth_interleave_even.
    + fold s_mod. fold Ez_grid.
      rewrite (nth_map_lt _ _ 0).
      * now rewrite Hsample.
      * unfold G.Ez_particles_interp. rewrite length_map. lia.
    + unfold G.Ez_particles_interp. rewrite !length_map. lia.
Qed.

Lemma C4_sample_is_negated_grid_value_witness :
  length Y_two_bins = (2 * 2)%nat
  /\ (0 < 2)%nat
  /\ G.charge_density cfg_G_example [0; 1]
     = Ok [- (1 / PI) * 1; - (1 / PI) * 1; - (1 / PI) * 0; - (1 / PI) * 0]
  /\ nth 0 (G.Ez_particles_interp cfg_G_example
              (G.Ez_s_grid cfg_G_example
                 [- (1 / PI) * 1; - (1 / PI) * 1; - (1 / PI) * 0; - (1 / PI) * 0])
              (map (fun s => Np.mod_ s (G.period_length_s cfg_G_example))
                   (Np.slice_odd Y_two_bins))) 0
     = - nth (Z.to_nat
                (G.particle_grid_index cfg_G_example
                   (nth 0 (map (fun s => Np.mod_ s (G.period_length_s cfg_G_example))
                               (Np.slice_odd Y_two_bins)) 0)))
             (G.Ez_s_grid cfg_G_example
                [- (1 / PI) * 1; - (1 / PI) * 1; - (1 / PI) * 0; - (1 / PI) * 0]) 0.
Proof.
  assert (H1 : length Y_two_bins = (2 * 2)%nat) by reflexivity.
  assert (H2 : (0 < 2)%nat) by lia.
  assert (H3 : G.charge_density cfg_G_example [0; 1]
               = Ok [- (1 / PI) * 1; - (1 / PI) * 1;
                     - (1 / PI) * 0; - (1 / PI) * 0]).
  { rewrite (charge_density_two_samples 0 1 0 1) by (lia || lra). reflexivity. }
  split; [exact H1 | split; [exact H2 | split; [exact H3 |]]].
  refine (proj1 (C4_sample_is_negated_grid_value cfg_G_example 0 Y_two_bins 2
                   _ 0 H1 H2 _)).
  unfold Y_two_bins. cbn [Np.slice_odd map].
  change (G.period_length_s cfg_G_example) with 4.
  rewrite !mod_small by lra. exact H3.
Defined.

(** ** Failures of the right-hand sides *)

Lemma ove_Ok {A : Type} (a : A) : only_value_error (Ok a).
Proof. intros e He. discriminate. Qed.

Lemma ove_Err {A : Type} : only_value_error (@Err A ValueError).
Proof. intros e He. now inversion He. Qed.

Lemma ove_bind {A B : Type} (m : result A) (k : A -> result B) :
  only_value_error m -> (forall a, only_value_error (k a)) ->
  only_value_error (bind m k).
Proof.
  intros Hm Hk e He. destruct m as [e'|a]; simpl in He.
  - inversion He; subst. now apply Hm.
  - now apply (Hk a).
Qed.

Lemma ove_zeros (n : Z) : only_value_error (Np.zeros n).
Proof.
  unfold Np.zeros. destruct (n <? 0)%Z; [apply ove_Err | apply ove_Ok].
Qed.

Lemma ove_broadcast_to (n : nat) (src : list R) :
  only_value_error (Np.broadcast_to n src).
Proof.
  unfold Np.broadcast_to.
  destruct (length src =? n)%nat; [apply ove_Ok|].
  destruct (length src =? 1)%nat; [apply ove_Ok | apply ove_Err].
Qed.

Lemma ove_assign_even (dst src : list R) :
  only_value_error (Np.assign_even dst src).
Proof.
  apply ove_bind; [apply ove_broadcast_to | intros; apply ove_Ok].
Qed.

Lemma ove_assign_odd (dst src : list R) :
  only_value_error (Np.assign_odd dst src).
Proof.
  apply ove_bind; [apply ove_broadcast_to | intros; apply ove_Ok].
Qed.

Lemma ove_iadd (acc x : list R) : only_value_error (Np.iadd acc x).
Proof.
  apply ove_bind; [apply ove_broadcast_to | intros; apply ove_Ok].
Qed.

Lemma ove_histogram (a : list R) (n : Z) (lo hi : R) :
  only_value_error (Np.histogram a n lo hi).
Proof.
  unfold Np.histogram.
  destruct (n <? 1)%Z; [apply ove_Err|].
  destruct (Np.Rleb lo hi); [|apply ove_Err].
  destruct (Np.Reqb lo hi); apply ove_Ok.
Qed.

Lemma ove_charge_density (cfg : G.Config) (s_mod : list R) :
  only_value_error (G.charge_density cfg s_mod).
Proof.
  apply ove_bind; [apply ove_zeros | intros _].
  apply ove_bind; [apply ove_histogram | intros; apply ove_Ok].
Qed.

Lemma ove_collective_ode_fft (cfg : G.Config) (z : R) (Y : list R) :
  only_value_error (G.collective_ode_fft cfg z Y).
Proof.
  unfold G.collective_ode_fft.
  apply ove_bind; [apply ove_charge_density | intros rho_s].
  apply ove_bind; [apply ove_assign_even | intros; apply ove_assign_odd].
Qed.

Lemma ove_Ez_loop (bn theta : list R) (l : list nat) (acc : result (list R)) :
  only_value_error acc ->
  only_value_error (fold_left (H.Ez_loop_body bn theta) l acc).
Proof.
  revert acc; induction l as [|n l IH]; intros acc Hacc; [exact Hacc|].
  cbn [fold_left]. apply IH. unfold H.Ez_loop_body.
  apply ove_bind; [exact Hacc | intros sum_terms].
  destruct (H.bn_differs_from_zero bn theta n && negb (n =? 0)%nat);
    [apply ove_iadd | apply ove_Ok].
Qed.

Lemma ove_collective_ode (cfg : H.Config) (z : R) (Y : list R) :
  only_value_error (H.collective_ode cfg z Y).
Proof.
  unfold H.collective_ode.
  apply ove_bind.
  - unfold H.Ez_particles. apply ove_bind.
    + unfold H.bn_array.
      apply ove_bind; [apply ove_zeros | intros; apply ove_Ok].
    + intros bn. apply ove_bind; [|intros; apply ove_Ok].
      apply ove_Ez_loop, ove_zeros.
  - intros Ez.
    apply ove_bind; [apply ove_assign_even | intros; apply ove_assign_odd].
Qed.

Lemma ove_initial_state (cfg : H.Config) (eta0 theta0 : list R) :
  only_value_error (H.initial_state cfg eta0 theta0).
Proof.
  unfold H.initial_state.
  destruct ((H.N_particles cfg <? 0)%Z
            || negb (Np.Rleb 0 (H.sigma_eta0_rel cfg))); [apply ove_Err|].
  apply ove_bind; [apply ove_zeros | intros Y0].
  apply ove_bind; [apply ove_assign_even | intros; apply ove_assign_odd].
Qed.

(** ** Variant G: the imaginary part of the inverse transform *)

(** C7, as stated, fails: with both particles in the first bin of the
    example grid, the inverse transform has the imaginary part
    [-1 / (2 * PI^2)] at the first grid point (larger in size than 1/100,
    next to a real part of 0), and the right-hand side still returns
    normally, built from the real parts. *)
Lemma C7_residual_counterexample :
  ~ raises_on_imaginary_residual (1 / 100) cfg_G_example 0 Y_one_bin.
Proof.
  pose proof PI_RGT_0 as HPI. pose proof PI_4 as HPI4.
  unfold raises_on_imaginary_residual, Y_one_bin. cbn [Np.slice_odd map].
  change (G.period_length_s cfg_G_example) with 4.
  rewrite !mod_small by lra.
  intros Hclaim.
  pose proof (charge_density_two_samples 0 0 0 0
                ltac:(lia) ltac:(lra) ltac:(lia) ltac:(lra)) as Hrho.
  specialize (Hclaim _ Hrho).
  change (Np.bincount 4 [0%Z; 0%Z]) with [2%Z; 0%Z; 0%Z; 0%Z] in *.
  cbn [map] in *.
  assert (Hret : exists dYdz,
             G.collective_ode_fft cfg_G_example 0 [0; 0; 0; 0] = Ok dYdz).
  { eexists. apply (collective_ode_fft_layout cfg_G_example 0 [0; 0; 0; 0] 2).
    - reflexivity.
    - cbn [Np.slice_odd map].
      change (G.period_length_s cfg_G_example) with 4.
      rewrite !mod_small by lra. exact Hrho. }
  destruct Hret as (dYdz & Hret).
  rewrite Hret in Hclaim.
  assert (Hne : Ok dYdz <> @Err (list R) NumericAnomaly) by discriminate.
  apply Hne, Hclaim.
  exists 0%nat. rewrite Ez_s_grid_complex_example. cbn [length nth Cx.im].
  split; [lia|].
  replace ((- (1 / PI) * 2 - - (1 / PI) * 0 + - (1 / PI) * 0 - - (1 / PI) * 0)
           / (4 * PI))
    with (- (/ (2 * (PI * PI)))) by (field; lra).
  rewrite Rabs_Ropp, Rabs_pos_eq.
  - assert (Hsq : 2 * (PI * PI) < 100) by nra.
    assert (Hpos : 0 < 2 * (PI * PI)) by nra.
    replace (1 / 100) with (/ 100) by lra.
    apply Rinv_lt_contravar; [nra | exact Hsq].
  - left. apply Rinv_0_lt_compat. nra.
Qed.

(** C7, amended.  The Variant G field on the grid is the real part of the
    inverse transform, whatever its imaginary part is; no tolerance or
    finiteness check is made.  The right-hand side never fails with
    [NumericAnomaly] (its only failure is a ValueError), and on a state of
    2N entries over a valid grid it returns the derivative array whose
    [d(eta_i)/dz] is computed from the real part at the particle's bin. *)
Theorem C7_real_part_kept (cfg : G.Config) (z : R) (Y : list R) (n : nat) :
  length Y = (2 * n)%nat ->
  (1 <= G.N_grid_s cfg)%Z ->
  0 <= G.lambda_laser cfg ->
  let s_mod :=
    map (fun s => Np.mod_ s (G.period_length_s cfg)) (Np.slice_odd Y) in
  G.collective_ode_fft cfg z Y <> Err NumericAnomaly
  /\ exists rho_s dYdz,
       G.charge_density cfg s_mod = Ok rho_s
       /\ G.collective_ode_fft cfg z Y = Ok dYdz
       /\ forall i, (i < n)%nat ->
            nth (2 * i) dYdz 0
            = (- G.e cfg)
              * (- Cx.re (nth (Z.to_nat (G.particle_grid_index cfg (nth i s_mod 0)))
                              (G.Ez_s_grid_complex cfg rho_s) Cx.C0))
              * G.eta_change_factor_ode cfg.
Proof.
  intros HY Hn HL s_mod. split.
  - intros Habs. apply ove_collective_ode_fft in Habs. discriminate.
  - destruct (charge_density_ok cfg s_mod Hn HL) as (rho_s & Hrho & _).
    exists rho_s. eexists. split; [exact Hrho|]. split.
    + apply (collective_ode_fft_layout cfg z Y n rho_s HY Hrho).
    + intros i Hi.
      pose proof (slice_odd_length n Y HY) as HO.
      assert (Hs : length s_mod = n) by (unfold s_mod; now rewrite length_map).
      rewrite nth_interleave_even
        by (unfold G.Ez_particles_interp; rewrite !length_map;
            rewrite (slice_even_length n Y HY); lia).
      fold s_mod.
      rewrite (nth_map_lt _ _ 0)
        by (unfold G.Ez_particles_interp; rewrite length_map; lia).
      unfold G.Ez_particles_interp.
      rewrite (nth_map_lt _ s_mod 0) by lia.
      unfold G.Ez_s_grid.
      change 0 with (Cx.re Cx.C0) at 2.
      now rewrite map_nth.
Qed.

Lemma C7_real_part_kept_witness :
  length Y_one_bin = (2 * 2)%nat
  /\ (1 <= G.N_grid_s cfg_G_example)%Z
  /\ 0 <= G.lambda_laser cfg_G_example
  /\ G.collective_ode_fft cfg_G_example 0 Y_one_bin <> Err NumericAnomaly.
Proof.
  assert (H1 : length Y_one_bin = (2 * 2)%nat) by reflexivity.
  assert (H2 : (1 <= G.N_grid_s cfg_G_example)%Z) by (simpl; lia).
  assert (H3 : 0 <= G.lambda_laser cfg_G_example) by (simpl; lra).
  split; [exact H1 | split; [exact H2 | split; [exact H3 |]]].
  exact (proj1 (C7_real_part_kept cfg_G_example 0 Y_one_bin 2 H1 H2 H3)).
Defined.

(** ** The module-level code and invalid counts *)

Lemma truediv_ok (x y : R) : y <> 0 -> truediv x y = Ok (x / y).
Proof.
  intros Hy. unfold truediv.
  destruct (Req_dec_T y 0); [contradiction | reflexivity].
Qed.

Lemma truediv_cases (x y : R) :
  (y = 0 /\ truediv x y = Err ZeroDivisionError)
  \/ (y <> 0 /\ truediv x y = Ok (x / y)).
Proof.
  unfold truediv. destruct (Req_dec_T y 0); [left | right]; now split.
Qed.

(** One module-level division in a goal: either it raises, or the run goes
    on with the quotient. *)
Ltac truediv_step :=
  match goal with
  | |- context [bind (truediv ?x ?y) _] =>
      let Hy := fresh "Hy" in
      let E := fresh "E" in
      destruct (truediv_cases x y) as [[Hy E]|[Hy E]];
      rewrite E; cbn [bind Ok Err]
  end.

(** The same in a hypothesis that says the run went through. *)
Ltac truediv_inv H :=
  match type of H with
  | context [bind (truediv ?x ?y) _] =>
      let Hy := fresh "Hy" in
      let E := fresh "E" in
      destruct (truediv_cases x y) as [[Hy E]|[Hy E]];
      rewrite E in H; cbn [bind Ok Err] in H; [discriminate H|]
  end.

Ltac nonzero :=
  unfold Rdiv;
  repeat first
    [ assumption
    | apply PI_neq0
    | apply Rmult_integral_contrapositive_currified
    | apply pow_nonzero
    | apply Rinv_neq_0_compat
    | lra ].

Lemma factor_l (a b : R) : a * b <> 0 -> a <> 0.
Proof. intros H E. apply H. rewrite E. ring. Qed.

Lemma factor_r (a b : R) : a * b <> 0 -> b <> 0.
Proof. intros H E. apply H. rewrite E. ring. Qed.

Lemma pow2_factor (a : R) : a ^ 2 <> 0 -> a <> 0.
Proof. intros H E. apply H. rewrite E. ring. Qed.

Lemma pe_Ok {A : Type} (a : A) : python_exception (Ok a).
Proof. intros e He. discriminate. Qed.

Lemma pe_ove {A : Type} (r : result A) :
  only_value_error r -> python_exception r.
Proof. intros Hr e He. left. now apply Hr. Qed.

Lemma pe_truediv (x y : R) : python_exception (truediv x y).
Proof.
  intros e He. unfold truediv in He.
  destruct (Req_dec_T y 0); [|discriminate]. right. now inversion He.
Qed.

Lemma pe_bind {A B : Type} (m : result A) (k : A -> result B) :
  python_exception m -> (forall a, python_exception (k a)) ->
  python_exception (bind m k).
Proof.
  intros Hm Hk e He. destruct m as [e'|a]; simpl in He.
  - inversion He; subst. now apply Hm.
  - now apply (Hk a).
Qed.

Lemma ove_linspace (start stop : R) (num : Z) :
  only_value_error (Np.linspace start stop num).
Proof.
  unfold Np.linspace. destruct (num <? 0)%Z; [apply ove_Err | apply ove_Ok].
Qed.

Lemma ove_initial_state_fft (cfg : G.Config) (eta0 theta0 : list R) :
  only_value_error (G.initial_state cfg eta0 theta0).
Proof.
  unfold G.initial_state.
  destruct ((G.N_particles cfg <? 0)%Z
            || negb (Np.Rleb 0 (G.sigma_eta0_rel cfg))); [apply ove_Err|].
  apply ove_bind; [apply ove_zeros | intros Y0].
  apply ove_bind; [apply ove_assign_even | intros; apply ove_assign_odd].
Qed.

Lemma pe_module_level (cfg : H.Config) (eta0 theta0 : list R) :
  python_exception (H.module_level cfg eta0 theta0).
Proof.
  unfold H.module_level.
  repeat (apply pe_bind; [apply pe_truediv | intros ?]).
  apply pe_bind; [apply pe_ove, ove_initial_state | intros Y0].
  repeat (apply pe_bind; [apply pe_truediv | intros ?]).
  apply pe_Ok.
Qed.

Lemma pe_module_level_fft (cfg : G.Config) (eta0 theta0 : list R) :
  python_exception (G.module_level cfg eta0 theta0).
Proof.
  unfold G.module_level.
  repeat (apply pe_bind; [apply pe_truediv | intros ?]).
  apply pe_bind; [apply pe_ove, ove_linspace | intros s_grid].
  apply pe_bind; [apply pe_truediv | intros ?].
  apply pe_bind; [apply pe_ove, ove_initial_state_fft | intros Y0].
  repeat (apply pe_bind; [apply pe_truediv | intros ?]).
  apply pe_Ok.
Qed.

(** *** The initial state *)

Lemma initial_state_ok (cfg : H.Config) (eta0 theta0 : list R) (n : nat) :
  0 <= H.sigma_eta0_rel cfg ->
  H.N_particles cfg = Z.of_nat n ->
  length eta0 = n -> length theta0 = n ->
  let eta1 := Np.map2 (fun eta0 theta0 => eta0 + H.A_mod cfg * sin theta0)
                      eta0 theta0 in
  H.initial_state cfg eta0 theta0
  = Ok (interleave eta1
          (Np.map2 (fun theta1 eta1 =>
                      Np.mod_ (Np.mod_ (theta1 + H.k_laser cfg * H.R56 cfg * eta1)
                                       (2 * PI))
                              (2 * PI))
                   theta0 eta1)).
Proof.
  intros Hs HN He Ht eta1. unfold H.initial_state. rewrite HN.
  rewrite Rleb_true by exact Hs.
  destruct (Z.ltb_spec (Z.of_nat n) 0) as [Hlt|_]; [lia|].
  cbn [orb negb]. unfold Np.zeros.
  destruct (Z.ltb_spec (2 * Z.of_nat n) 0) as [Hlt|_]; [lia|].
  cbn [bind Ok].
  replace (Z.to_nat (2 * Z.of_nat n)) with (2 * n)%nat by lia.
  replace (repeat 0 (2 * n)) with (Np.zeros_like (repeat 0 (2 * n)))
    by (unfold Np.zeros_like; now rewrite repeat_length).
  fold eta1.
  assert (L1 : length eta1 = n) by (unfold eta1; rewrite map2_length; lia).
  now rewrite (assign_slices n);
    [| apply repeat_length | exact L1 | rewrite map2_length; lia].
Qed.

Lemma initial_state_fft_ok (cfg : G.Config) (eta0 theta0 : list R) (n : nat) :
  0 <= G.sigma_eta0_rel cfg ->
  G.N_particles cfg = Z.of_nat n ->
  length eta0 = n -> length theta0 = n ->
  G.initial_state cfg eta0 theta0
  = Ok (interleave (G.eta_init_ode cfg eta0 theta0)
                   (G.s_init_ode cfg eta0 theta0)).
Proof.
  intros Hs HN He Ht. unfold G.initial_state. rewrite HN.
  rewrite Rleb_true by exact Hs.
  destruct (Z.ltb_spec (Z.of_nat n) 0) as [Hlt|_]; [lia|].
  cbn [orb negb]. unfold Np.zeros.
  destruct (Z.ltb_spec (2 * Z.of_nat n) 0) as [Hlt|_]; [lia|].
  cbn [bind Ok].
  replace (Z.to_nat (2 * Z.of_nat n)) with (2 * n)%nat by lia.
  replace (repeat 0 (2 * n)) with (Np.zeros_like (repeat 0 (2 * n)))
    by (unfold Np.zeros_like; now rewrite repeat_length).
  assert (L1 : length (G.eta_init_ode cfg eta0 theta0) = n)
    by (unfold G.eta_init_ode; rewrite map2_length; lia).
  assert (L2 : length (G.s_init_ode cfg eta0 theta0) = n).
  { unfold G.s_init_ode, G.s_init_ode_raw.
    rewrite length_map, map2_length; lia. }
  now rewrite (assign_slices n) by (assumption || apply repeat_length).
Qed.

Lemma initial_state_inv (cfg : H.Config) (eta0 theta0 Y0 : list R) :
  H.initial_state cfg eta0 theta0 = Ok Y0 ->
  (0 <= H.N_particles cfg)%Z /\ 0 <= H.sigma_eta0_rel cfg.
Proof.
  unfold H.initial_state, Np.Rleb. intros H.
  destruct (Z.ltb_spec (H.N_particles cfg) 0) as [Hlt|Hge];
    [discriminate H|].
  destruct (Rle_dec 0 (H.sigma_eta0_rel cfg)) as [Hs|Hs];
    [now split | discriminate H].
Qed.

Lemma initial_state_fft_inv (cfg : G.Config) (eta0 theta0 Y0 : list R) :
  G.initial_state cfg eta0 theta0 = Ok Y0 ->
  (0 <= G.N_particles cfg)%Z /\ 0 <= G.sigma_eta0_rel cfg.
Proof.
  unfold G.initial_state, Np.Rleb. intros H.
  destruct (Z.ltb_spec (G.N_particles cfg) 0) as [Hlt|Hge];
    [discriminate H|].
  destruct (Rle_dec 0 (G.sigma_eta0_rel cfg)) as [Hs|Hs];
    [now split | discriminate H].
Qed.

Lemma initial_state_negative (cfg : H.Config) (eta0 theta0 : list R) :
  (H.N_particles cfg < 0)%Z ->
  H.initial_state cfg eta0 theta0 = Err ValueError.
Proof.
  intros HN. unfold H.initial_state.
  destruct (Z.ltb_spec (H.N_particles cfg) 0) as [_|Hge]; [reflexivity | lia].
Qed.

Lemma initial_state_fft_negative (cfg : G.Config) (eta0 theta0 : list R) :
  (G.N_particles cfg < 0)%Z ->
  G.initial_state cfg eta0 theta0 = Err ValueError.
Proof.
  intros HN. unfold G.initial_state.
  destruct (Z.ltb_spec (G.N_particles cfg) 0) as [_|Hge]; [reflexivity | lia].
Qed.

(** *** The module-level code of the harmonic script *)

(** Over parameters without a zero divisor the module-level code is the
    construction of the initial state, and it binds the values that the
    right-hand side reads. *)
Lemma module_level_ok (cfg : H.Config) (eta0 theta0 : list R) :
  H_parameters_ok cfg ->
  H.module_level cfg eta0 theta0
  = (Y0 <- H.initial_state cfg eta0 theta0 ;; Ok (H_globals cfg Y0)).
Proof.
  intros (Hl & Hg & Ha & Hs & Hr & He & Hm & Hc & Hp).
  unfold H.module_level.
  rewrite (truediv_ok _ (H.lambda_laser cfg)) by exact Hl. cbn [bind Ok].
  rewrite (truediv_ok 1 (H.gamma_ref cfg ^ 2)) by nonzero. cbn [bind Ok].
  rewrite (truediv_ok 1 (H.A_mod_over_sigma_eta0 cfg)) by exact Ha.
  cbn [bind Ok].
  rewrite (truediv_ok _ (2 * PI / H.lambda_laser cfg * H.sigma_eta0_rel cfg))
    by nonzero.
  cbn [bind Ok].
  rewrite (truediv_ok (H.I_peak_avg cfg)) by nonzero. cbn [bind Ok].
  destruct (H.initial_state cfg eta0 theta0) as [e|Y0]; [reflexivity|].
  cbn [bind Ok].
  rewrite (truediv_ok _ (H.epsilon_0 cfg * (2 * PI / H.lambda_laser cfg)))
    by nonzero.
  cbn [bind Ok].
  rewrite (truediv_ok (- H.e cfg)) by nonzero. cbn [bind Ok].
  rewrite (truediv_ok _ (H.gamma_ref cfg ^ 2)) by nonzero.
  reflexivity.
Qed.

(** Conversely, when the module-level code runs through, no divisor was
    zero, the counts and the spread were accepted by the random source, and
    the names hold the values that the right-hand side reads. *)
Lemma module_level_inv (cfg : H.Config) (eta0 theta0 : list R) (g : H.Globals) :
  H.module_level cfg eta0 theta0 = Ok g ->
  H_parameters_ok cfg
  /\ (0 <= H.N_particles cfg)%Z
  /\ H.initial_state cfg eta0 theta0 = Ok (H.Y0_val g)
  /\ g = H_globals cfg (H.Y0_val g).
Proof.
  intros H. unfold H.module_level in H.
  do 5 truediv_inv H.
  destruct (H.initial_state cfg eta0 theta0) as [e|Y0] eqn:HY0;
    [discriminate H|].
  cbn [bind Ok] in H.
  do 3 truediv_inv H.
  inversion H; subst g; clear H. cbn [H.Y0_val].
  destruct (initial_state_inv cfg eta0 theta0 Y0 HY0) as [HN Hs].
  pose proof (factor_r _ _ Hy2) as Hs0.
  pose proof (pow2_factor _ Hy0) as Hg.
  pose proof (factor_l _ _ (factor_l _ _ (factor_l _ _ Hy3))) as He.
  pose proof (factor_r _ _ (factor_l _ _ (factor_l _ _ Hy3))) as Hc.
  pose proof (pow2_factor _ (factor_r _ _ Hy3)) as Hr.
  pose proof (factor_l _ _ Hy4) as Hp.
  pose proof (factor_r _ _ (factor_l _ _ Hy5)) as Hm.
  repeat split; try assumption; lra.
Qed.

(** *** The module-level code of the grid script *)

Lemma period_over_grid (cfg : G.Config) :
  G.lambda_laser cfg <> 0 -> (G.N_grid_s cfg <> 0)%Z ->
  IZR (G.N_grid_s cfg) * (G.period_length_s cfg / IZR (G.N_grid_s cfg)) <> 0.
Proof.
  intros Hl Hn. unfold G.period_length_s.
  replace (IZR (G.N_grid_s cfg) * (G.lambda_laser cfg / IZR (G.N_grid_s cfg)))
    with (G.lambda_laser cfg); [exact Hl|].
  field. now apply not_0_IZR.
Qed.

Lemma module_level_fft_ok (cfg : G.Config) (eta0 theta0 : list R) :
  G_parameters_ok cfg ->
  (G.N_particles cfg <> 0)%Z -> (G.N_grid_s cfg <> 0)%Z ->
  G.module_level cfg eta0 theta0
  = (s_grid <- G.s_grid cfg ;;
     Y0 <- G.initial_state cfg eta0 theta0 ;;
     Ok (G_globals cfg s_grid Y0)).
Proof.
  intros (Hl & Hg & Ha & Hs & Hr & Hm & Hc) HNp HNg.
  assert (HNp' : IZR (G.N_particles cfg) <> 0) by now apply not_0_IZR.
  assert (HNg' : IZR (G.N_grid_s cfg) <> 0) by now apply not_0_IZR.
  unfold G.module_level.
  rewrite (truediv_ok _ (G.lambda_laser cfg)) by exact Hl. cbn [bind Ok].
  rewrite (truediv_ok 1 (G.A_mod_over_sigma_eta0 cfg)) by exact Ha.
  cbn [bind Ok].
  rewrite (truediv_ok _ (2 * PI / G.lambda_laser cfg * G.sigma_eta0_rel cfg))
    by nonzero.
  cbn [bind Ok].
  rewrite (truediv_ok _ (G.c cfg)) by exact Hc. cbn [bind Ok].
  rewrite (truediv_ok _ (IZR (G.N_particles cfg))) by exact HNp'.
  cbn [bind Ok].
  rewrite (truediv_ok (G.I_avg_beam cfg))
    by (unfold G.beam_area_transverse; nonzero).
  cbn [bind Ok].
  rewrite (truediv_ok _ (IZR (G.N_grid_s cfg))) by exact HNg'.
  cbn [bind Ok].
  unfold G.s_grid. fold (G.ds_grid cfg).
  destruct (Np.linspace 0 (G.period_length_s cfg - G.ds_grid cfg)
              (G.N_grid_s cfg)) as [e|points]; [reflexivity|].
  cbn [bind Ok].
  rewrite (truediv_ok 1) by (now apply period_over_grid).
  cbn [bind Ok].
  destruct (G.initial_state cfg eta0 theta0) as [e|Y0]; [reflexivity|].
  cbn [bind Ok].
  rewrite (truediv_ok (- 1)) by nonzero. cbn [bind Ok].
  rewrite (truediv_ok 1 (G.gamma_ref cfg ^ 2)) by nonzero.
  reflexivity.
Qed.

Lemma module_level_fft_inv (cfg : G.Config) (eta0 theta0 : list R)
      (g : G.Globals) :
  G.module_level cfg eta0 theta0 = Ok g ->
  G_parameters_ok cfg
  /\ (1 <= G.N_particles cfg)%Z /\ (1 <= G.N_grid_s cfg)%Z
  /\ G.s_grid cfg = Ok (G.s_grid_val g)
  /\ G.initial_state cfg eta0 theta0 = Ok (G.Y0_val g)
  /\ g = G_globals cfg (G.s_grid_val g) (G.Y0_val g).
Proof.
  intros H. unfold G.module_level in H.
  do 7 truediv_inv H.
  fold (G.ds_grid cfg) in H. fold (G.s_grid cfg) in H.
  destruct (G.s_grid cfg) as [e|points] eqn:Hgrid; [discriminate H|].
  cbn [bind Ok] in H.
  truediv_inv H.
  destruct (G.initial_state cfg eta0 theta0) as [e|Y0] eqn:HY0;
    [discriminate H|].
  cbn [bind Ok] in H.
  do 2 truediv_inv H.
  inversion H; subst g; clear H. cbn [G.Y0_val G.s_grid_val].
  destruct (initial_state_fft_inv cfg eta0 theta0 Y0 HY0) as [HN Hs].
  assert (HNp : (G.N_particles cfg <> 0)%Z)
    by (intros Ez; apply Hy3; now rewrite Ez).
  assert (HNg : (G.N_grid_s cfg <> 0)%Z)
    by (intros Ez; apply Hy5; now rewrite Ez).
  assert (HNg0 : (0 <= G.N_grid_s cfg)%Z).
  { unfold G.s_grid, Np.linspace in Hgrid.
    destruct (Z.ltb_spec (G.N_grid_s cfg) 0) as [Hlt|Hge];
      [discriminate Hgrid | exact Hge]. }
  pose proof (factor_r _ _ Hy1) as Hs0.
  unfold G.beam_area_transverse in Hy4.
  pose proof (pow2_factor _ (factor_r _ _ (factor_r _ _ Hy4))) as Hr.
  pose proof (pow2_factor _ Hy8) as Hg.
  pose proof (factor_r _ _ (factor_l _ _ Hy7)) as Hm.
  unfold G_parameters_ok.
  repeat split; try assumption; try lia; lra.
Qed.

Lemma module_level_fft_zero_count (cfg : G.Config) (eta0 theta0 : list R) :
  (G.N_grid_s cfg = 0 \/ G.N_particles cfg = 0)%Z ->
  G.module_level cfg eta0 theta0 = Err ZeroDivisionError.
Proof.
  intros Hz. unfold G.module_level.
  do 7 (truediv_step; [reflexivity|]).
  exfalso. destruct Hz as [Hz|Hz].
  - match goal with
    | H : IZR (G.N_grid_s cfg) <> 0 |- _ => apply H; now rewrite Hz
    end.
  - match goal with
    | H : IZR (G.N_particles cfg) <> 0 |- _ => apply H; now rewrite Hz
    end.
Qed.

Lemma module_level_fft_negative_count (cfg : G.Config) (eta0 theta0 : list R) :
  G_parameters_ok cfg ->
  (G.N_grid_s cfg <> 0)%Z -> (G.N_particles cfg <> 0)%Z ->
  (G.N_grid_s cfg <= 0 \/ G.N_particles cfg <= 0)%Z ->
  G.module_level cfg eta0 theta0 = Err ValueError.
Proof.
  intros Hok HNg HNp Hneg.
  rewrite module_level_fft_ok by assumption.
  unfold G.s_grid, Np.linspace.
  destruct (Z.ltb_spec (G.N_grid_s cfg) 0) as [Hlt|Hge]; [reflexivity|].
  cbn [bind Ok].
  rewrite initial_state_fft_negative by lia. reflexivity.
Qed.

(** C8, as stated, fails: with a harmonic count of zero the module-level
    code of Variant H runs through, all the way to the call of
    [solve_ivp], and raises nothing. *)
Lemma C8_zero_harmonics_counterexample :
  ~ fails_fast_at_initialization cfg_H_no_harmonics [0; 0; 0; 0] phases4.
Proof.
  unfold fails_fast_at_initialization. intros Hclaim.
  assert (Hok : H_parameters_ok cfg_H_no_harmonics)
    by (unfold H_parameters_ok; simpl; repeat split; lra).
  assert (Hzero : (H.N_harmonics_Ez cfg_H_no_harmonics <= 0)%Z) by (simpl; lia).
  specialize (Hclaim (or_introl Hzero)).
  rewrite (module_level_ok _ _ _ Hok) in Hclaim.
  rewrite (initial_state_ok cfg_H_no_harmonics [0; 0; 0; 0] phases4 4)
    in Hclaim by (reflexivity || (simpl; lra)).
  discriminate Hclaim.
Qed.

(** C8, amended.  Neither script validates its counts, and nothing ever
    fails with [DomainViolation].

    Variant G does stop in its module-level code, before [solve_ivp] is
    called, whenever the grid size or the particle count is zero or
    negative, but with the exceptions of Python and numpy: a count of
    zero is a ZeroDivisionError (from [ds_grid = period_length_s /
    N_grid_s] or [Q_macro = Q_total_in_one_period / N_particles], if no
    earlier division has raised it already), and a negative count, the
    other parameters having no zero divisor, is a ValueError (from
    [np.linspace] or [np.random.normal]).

    Variant H stops in its module-level code for a negative particle
    count only (a ValueError from [np.random.normal] when no division
    raises first).  With a particle count N >= 0 and parameters without a
    zero divisor its module-level code runs through whatever the harmonic
    count is; with a harmonic count of zero every evaluation of the
    right-hand side returns normally, with [d(eta_i)/dz = 0] for every
    particle; with a negative harmonic count every evaluation of the
    right-hand side, hence the first one made by [solve_ivp] after the
    module-level code has run through, fails with a ValueError. *)
Theorem C8_no_count_validation (cfgG : G.Config) (cfgH : H.Config)
        (eta0 theta0 : list R) (z : R) (Y : list R) (n : nat) :
  ((G.N_grid_s cfgG <= 0 \/ G.N_particles cfgG <= 0)%Z ->
   exists e,
     G.module_level cfgG eta0 theta0 = Err e
     /\ (e = ValueError \/ e = ZeroDivisionError)
     /\ ((G.N_grid_s cfgG = 0 \/ G.N_particles cfgG = 0)%Z ->
         e = ZeroDivisionError)
     /\ (G_parameters_ok cfgG ->
         (G.N_grid_s cfgG <> 0)%Z -> (G.N_particles cfgG <> 0)%Z ->
         e = ValueError))
  /\ G.module_level cfgG eta0 theta0 <> Err DomainViolation
  /\ G.collective_ode_fft cfgG z Y <> Err DomainViolation
  /\ ((H.N_particles cfgH < 0)%Z ->
      exists e,
        H.module_level cfgH eta0 theta0 = Err e
        /\ (e = ValueError \/ e = ZeroDivisionError)
        /\ (H_parameters_ok cfgH -> e = ValueError))
  /\ (H_parameters_ok cfgH ->
      H.N_particles cfgH = Z.of_nat n ->
      length eta0 = n -> length theta0 = n ->
      exists Y0,
        H.module_level cfgH eta0 theta0 = Ok (H_globals cfgH Y0)
        /\ length Y0 = (2 * n)%nat)
  /\ (H.N_harmonics_Ez cfgH = 0%Z ->
      H.N_particles cfgH = Z.of_nat n -> length Y = (2 * n)%nat ->
      exists dYdz,
        H.collective_ode cfgH z Y = Ok dYdz
        /\ forall i, (i < n)%nat -> nth (2 * i) dYdz 0 = 0)
  /\ ((H.N_harmonics_Ez cfgH < 0)%Z ->
      H.collective_ode cfgH z Y = Err ValueError)
  /\ H.module_level cfgH eta0 theta0 <> Err DomainViolation
  /\ H.collective_ode cfgH z Y <> Err DomainViolation.
Proof.
  split; [|split; [|split; [|split; [|split; [|split; [|split; [|split]]]]]]].
  - intros Hbad.
    destruct (G.module_level cfgG eta0 theta0) as [e|g] eqn:Hm.
    + exists e. split; [reflexivity|].
      split; [exact (pe_module_level_fft cfgG eta0 theta0 e Hm)|].
      split.
      * intros Hz.
        rewrite (module_level_fft_zero_count cfgG eta0 theta0 Hz) in Hm.
        now inversion Hm.
      * intros Hok HNg HNp.
        rewrite (module_level_fft_negative_count cfgG eta0 theta0
                   Hok HNg HNp Hbad) in Hm.
        now inversion Hm.
    + exfalso.
      destruct (module_level_fft_inv cfgG eta0 theta0 g Hm)
        as (_ & HNp & HNg & _).
      lia.
  - intros Habs.
    destruct (pe_module_level_fft cfgG eta0 theta0 _ Habs); discriminate.
  - intros Habs. apply ove_collective_ode_fft in Habs. discriminate.
  - intros Hneg.
    destruct (H.module_level cfgH eta0 theta0) as [e|g] eqn:Hm.
    + exists e. split; [reflexivity|].
      split; [exact (pe_module_level cfgH eta0 theta0 e Hm)|].
      intros Hok.
      rewrite (module_level_ok cfgH eta0 theta0 Hok) in Hm.
      rewrite (initial_state_negative cfgH eta0 theta0 Hneg) in Hm.
      now inversion Hm.
    + exfalso.
      destruct (module_level_inv cfgH eta0 theta0 g Hm) as (_ & HN & _).
      lia.
  - intros Hok HN He Ht.
    rewrite (module_level_ok cfgH eta0 theta0 Hok).
    assert (Hs : 0 <= H.sigma_eta0_rel cfgH)
      by (destruct Hok as (_ & _ & _ & Hs & _); lra).
    rewrite (initial_state_ok cfgH eta0 theta0 n Hs HN He Ht).
    eexists. split; [reflexivity|].
    assert (L1 : length (Np.map2 (fun eta0 theta0 =>
                                    eta0 + H.A_mod cfgH * sin theta0)
                                 eta0 theta0) = n)
      by (rewrite map2_length; lia).
    rewrite interleave_length; [rewrite L1; lia|].
    rewrite L1, map2_length; [lia | rewrite L1; lia].
  - intros H0 HN HY. eexists. split.
    + apply (collective_ode_layout cfgH z Y n); [lia | exact HN | exact HY].
    + intros i Hi.
      pose proof (slice_odd_length n Y HY) as HO.
      pose proof (slice_even_length n Y HY) as HE.
      rewrite nth_interleave_even by (rewrite !length_map; lia).
      rewrite (nth_map_lt _ _ 0) by lia.
      rewrite H0. unfold harmonic_sum. cbn [Z.to_nat seq map Np.Rsum fold_right].
      ring.
  - intros Hneg. unfold H.collective_ode, H.Ez_particles, H.bn_array, Np.zeros.
    destruct (Z.ltb_spec (H.N_harmonics_Ez cfgH) 0) as [_|Hge]; [reflexivity | lia].
  - intros Habs.
    destruct (pe_module_level cfgH eta0 theta0 _ Habs); discriminate.
  - intros Habs. apply ove_collective_ode in Habs. discriminate.
Qed.

Lemma C8_no_count_validation_witness :
  G.module_level cfg_G_no_grid [0; 0] [0; 0] = Err ZeroDivisionError
  /\ G.module_level cfg_G_no_particles [] [] = Err ZeroDivisionError
  /\ G.module_level cfg_G_negative_grid [0; 0] [0; 0] = Err ValueError
  /\ H.module_level cfg_H_negative_particles [] [] = Err ValueError
  /\ (exists Y0,
        H.module_level cfg_H_no_harmonics [0; 0; 0; 0] phases4
        = Ok (H_globals cfg_H_no_harmonics Y0)
        /\ length Y0 = (2 * 4)%nat)
  /\ exists dYdz, H.collective_ode cfg_H_no_harmonics 0 Y_example = Ok dYdz
                  /\ forall i, (i < 4)%nat -> nth (2 * i) dYdz 0 = 0.
Proof.
  assert (HokG : G_parameters_ok cfg_G_negative_grid)
    by (unfold G_parameters_ok; simpl; repeat split; lra).
  assert (HokH : H_parameters_ok cfg_H_negative_particles)
    by (unfold H_parameters_ok; simpl; repeat split; lra).
  assert (HokH' : H_parameters_ok cfg_H_no_harmonics)
    by (unfold H_parameters_ok; simpl; repeat split; lra).
  assert (G1 : (G.N_grid_s cfg_G_no_grid <= 0
                \/ G.N_particles cfg_G_no_grid <= 0)%Z) by (left; simpl; lia).
  assert (G2 : (G.N_grid_s cfg_G_no_particles <= 0
                \/ G.N_particles cfg_G_no_particles <= 0)%Z)
    by (right; simpl; lia).
  assert (G3 : (G.N_grid_s cfg_G_negative_grid <= 0
                \/ G.N_particles cfg_G_negative_grid <= 0)%Z)
    by (left; simpl; lia).
  assert (H4 : (H.N_particles cfg_H_negative_particles < 0)%Z) by (simpl; lia).
  split; [|split; [|split; [|split; [|split]]]].
  - destruct (proj1 (C8_no_count_validation cfg_G_no_grid cfg_H_no_harmonics
                       [0; 0] [0; 0] 0 Y_example 4) G1)
      as (e & He & _ & Hz & _).
    rewrite He, (Hz (or_introl eq_refl)). reflexivity.
  - destruct (proj1 (C8_no_count_validation cfg_G_no_particles
                       cfg_H_no_harmonics [] [] 0 Y_example 4) G2)
      as (e & He & _ & Hz & _).
    rewrite He, (Hz (or_intror eq_refl)). reflexivity.
  - destruct (proj1 (C8_no_count_validation cfg_G_negative_grid
                       cfg_H_no_harmonics [0; 0] [0; 0] 0 Y_example 4) G3)
      as (e & He & _ & _ & Hv).
    rewrite He, (Hv HokG); [reflexivity | simpl; lia | simpl; lia].
  - destruct (proj1 (proj2 (proj2 (proj2
                (C8_no_count_validation cfg_G_example cfg_H_negative_particles
                   [] [] 0 Y_example 4)))) H4)
      as (e & He & _ & Hv).
    rewrite He, (Hv HokH). reflexivity.
  - exact (proj1 (proj2 (proj2 (proj2 (proj2
             (C8_no_count_validation cfg_G_example cfg_H_no_harmonics
                [0; 0; 0; 0] phases4 0 Y_example 4)))))
             HokH' eq_refl eq_refl eq_refl).
  - exact (proj1 (proj2 (proj2 (proj2 (proj2 (proj2
             (C8_no_count_validation cfg_G_example cfg_H_no_harmonics
                [0; 0; 0; 0] phases4 0 Y_example 4))))))
             eq_refl eq_refl eq_refl).
Defined.

(** ** Diagnostics *)

Lemma nth_error_map_seq {A : Type} (f : nat -> A) (n i : nat) :
  (i < n)%nat -> nth_error (map f (seq 0 n)) i = Some (f i).
Proof.
  intros Hi. rewrite nth_error_map, nth_error_seq.
  destruct (Nat.ltb_spec i n) as [_|Hc]; [reflexivity | lia].
Qed.

(** C10.  In the diagnostics of both variants, the entry of the history
    of the normalised projected energy spread is nan for every snapshot
    whenever the configured particle count is 10 or fewer; when it is
    larger than 10 the entry of snapshot [i] is the standard deviation of
    that snapshot's eta values divided by [sigma_eta0_rel]. *)
Theorem C10_energy_spread_history (cfgH : H.Config) (cfgG : G.Config)
        (sol_t : list R) (sol_y : list (list R)) (i : nat) :
  (i < length sol_t)%nat ->
  let eta_snapshot := map (fun row => nth i row 0) (Np.slice_even sol_y) in
  ((H.N_particles cfgH <= 10)%Z ->
   nth_error (H.history_sigma_eta_ode cfgH sol_t sol_y) i = Some NaN)
  /\ ((10 < H.N_particles cfgH)%Z ->
      nth_error (H.history_sigma_eta_ode cfgH sol_t sol_y) i
      = Some (Num (Np.std eta_snapshot / H.sigma_eta0_rel cfgH)))
  /\ ((G.N_particles cfgG <= 10)%Z ->
      nth_error (G.history_sigma_eta_ode_fft cfgG sol_t sol_y) i = Some NaN)
  /\ ((10 < G.N_particles cfgG)%Z ->
      nth_error (G.history_sigma_eta_ode_fft cfgG sol_t sol_y) i
      = Some (Num (Np.std eta_snapshot / G.sigma_eta0_rel cfgG))).
Proof.
  intros Hi eta_snapshot.
  unfold H.history_sigma_eta_ode, G.history_sigma_eta_ode_fft.
  rewrite !nth_error_map_seq by exact Hi.
  repeat split; intros HN.
  - destruct (Z.gtb_spec (H.N_particles cfgH) 10); [lia | reflexivity].
  - destruct (Z.gtb_spec (H.N_particles cfgH) 10); [reflexivity | lia].
  - destruct (Z.gtb_spec (G.N_particles cfgG) 10); [lia | reflexivity].
  - destruct (Z.gtb_spec (G.N_particles cfgG) 10); [reflexivity | lia].
Qed.

Lemma C10_energy_spread_history_witness :
  (1 < length [0; 1; 2])%nat
  /\ (H.N_particles cfg_H_example <= 10)%Z
  /\ nth_error (H.history_sigma_eta_ode cfg_H_example [0; 1; 2]
                  [[1; 2; 3]; [0; 0; 0]]) 1 = Some NaN
  /\ (G.N_particles cfg_G_example <= 10)%Z
  /\ nth_error (G.history_sigma_eta_ode_fft cfg_G_example [0; 1; 2]
                  [[1; 2; 3]; [0; 0; 0]]) 1 = Some NaN.
Proof.
  assert (H1 : (1 < length [0; 1; 2])%nat) by (simpl; lia).
  assert (H2 : (H.N_particles cfg_H_example <= 10)%Z) by (simpl; lia).
  assert (H3 : (G.N_particles cfg_G_example <= 10)%Z) by (simpl; lia).
  destruct (C10_energy_spread_history cfg_H_example cfg_G_example [0; 1; 2]
              [[1; 2; 3]; [0; 0; 0]] 1 H1) as (A & _ & B & _).
  split; [exact H1 | split; [exact H2 | split; [exact (A H2) |]]].
  split; [exact H3 | exact (B H3)].
Defined.

(** ** Variant H: four equally spaced phases *)

Lemma bunching_shifted_phases (d : R) :
  bunching_factor 1 [0 + d; PI / 2 + d; PI + d; 3 * (PI / 2) + d] = 0.
Proof.
  unfold bunching_factor. cbn [map Np.Rsum fold_right length].
  simpl INR. rewrite !Rmult_1_l, !cos_plus.
  rewrite cos_0, sin_0, cos_PI2, sin_PI2, cos_PI, sin_PI, cos_3PI2, sin_3PI2.
  field.
Qed.

Lemma bunching_phases4 : bunching_factor 1 phases4 = 0.
Proof.
  rewrite <- (bunching_shifted_phases 0). unfold phases4.
  f_equal. repeat (f_equal; try ring).
Qed.

Lemma harmonic_sum_single (theta : list R) (phase : R) :
  harmonic_sum 1 theta phase = bunching_factor 1 theta * sin phase.
Proof.
  unfold harmonic_sum. cbn [seq map Np.Rsum fold_right]. simpl INR.
  rewrite Rmult_1_l. field.
Qed.

Lemma bunching_drifted_phases :
  bunching_factor 1 [PI; PI / 2; PI; 3 * (PI / 2)] = - (1 / 2).
Proof.
  unfold bunching_factor. cbn [map Np.Rsum fold_right length].
  simpl INR. rewrite !Rmult_1_l, cos_PI, cos_PI2, cos_3PI2. field.
Qed.

(** With a single harmonic and a vanishing bunching factor the
    right-hand side has no eta-derivative. *)
Lemma collective_ode_unbunched (cfg : H.Config) (z : R) (Y : list R) (n : nat) :
  H.N_harmonics_Ez cfg = 1%Z ->
  H.N_particles cfg = Z.of_nat n ->
  length Y = (2 * n)%nat ->
  bunching_factor 1 (Np.slice_odd Y) = 0 ->
  H.collective_ode cfg z Y
  = Ok (interleave (map (fun _ => 0) (Np.slice_odd Y))
                   (map (fun eta => H.theta_change_factor cfg * eta)
                        (Np.slice_even Y))).
Proof.
  intros HNh HN HY Hb.
  rewrite (collective_ode_layout cfg z Y n) by (lia || assumption).
  do 2 f_equal. apply map_ext. intros th.
  rewrite HNh. change (Z.to_nat 1) with 1%nat.
  rewrite harmonic_sum_single, Hb. ring.
Qed.

(** C9, as stated, fails in its last clause: with the energies
    [(1, 0, 0, 0)], [lambda_laser = 2] and [gamma_ref = 1], the state
    advanced along the derivative over [h = 1] has the phases
    [(pi, pi/2, pi, 3*pi/2)], its bunching factor is [-1/2], and
    [d(eta_1)/dz] is [-1/pi^2], not 0. *)
Lemma C9_drifting_phases_counterexample :
  ~ eta_derivative_stays_zero cfg_H_one_harmonic [1; 0; 0; 0] 1.
Proof.
  pose proof PI_RGT_0 as HPI.
  unfold eta_derivative_stays_zero. intros Hclaim.
  set (Y := interleave [1; 0; 0; 0] phases4) in *.
  assert (H0 : H.collective_ode cfg_H_one_harmonic 0 Y
               = Ok (interleave (map (fun _ => 0) (Np.slice_odd Y))
                       (map (fun eta => H.theta_change_factor cfg_H_one_harmonic * eta)
                            (Np.slice_even Y)))).
  { apply (collective_ode_unbunched cfg_H_one_harmonic 0 Y 4);
      try reflexivity.
    exact bunching_phases4. }
  specialize (fun dYdz' => Hclaim _ dYdz' H0).
  set (Y1 := advance 1 Y _) in *.
  assert (EY1 : Y1 = interleave [1; 0; 0; 0] [PI; PI / 2; PI; 3 * (PI / 2)]).
  { unfold Y1, Y, advance, phases4.
    cbn [interleave Np.slice_even Np.slice_odd map Np.map2].
    unfold H.theta_change_factor, H.k_laser, H.gamma_ref_sq.
    cbn [cfg_H_one_harmonic H.lambda_laser H.gamma_ref].
    repeat (f_equal; try (field; lra)). }
  rewrite EY1 in Hclaim.
  rewrite (collective_ode_layout cfg_H_one_harmonic 1 _ 4) in Hclaim
    by (reflexivity || (simpl; lia)).
  specialize (Hclaim _ eq_refl).
  rewrite slice_even_interleave in Hclaim by reflexivity.
  cbn [interleave Np.slice_odd map] in Hclaim.
  change (Z.to_nat (H.N_harmonics_Ez cfg_H_one_harmonic)) with 1%nat in Hclaim.
  rewrite !harmonic_sum_single, bunching_drifted_phases, sin_PI2 in Hclaim.
  injection Hclaim as _ Hsecond _ _.
  revert Hsecond.
  unfold H.eta_change_factor, H.Ez_const_factor, H.n0_avg, H.k_laser.
  cbn [cfg_H_one_harmonic H.lambda_laser H.gamma_ref H.e H.m_e H.c
       H.epsilon_0 H.I_peak_avg H.beam_radius].
  intros Hsecond.
  match type of Hsecond with
  | ?l = 0 => assert (E : l = - (/ PI * / PI)) by (field; lra)
  end.
  rewrite E in Hsecond.
  assert (0 < / PI * / PI)
    by (apply Rmult_lt_0_compat; now apply Rinv_0_lt_compat).
  lra.
Qed.

(** C9, amended.  For the Variant H right-hand side with N = 4 particles
    at the phases 0, pi/2, pi, 3*pi/2 and N_h = 1, in exact arithmetic:
    the bunching factor [b_1] is 0, the field is 0 at every particle and
    [d(eta_i)/dz = 0] for all [i], whatever the energies are.  When the
    four energies are equal, the state advanced along the derivative over
    any [h] has the same energies and again [d(eta_i)/dz = 0] for all [i]
    (the phases stay equally spaced). *)
Theorem C9_equally_spaced_phases (cfg : H.Config) (eta : list R)
        (z h eta_c : R) :
  H.N_particles cfg = 4%Z ->
  H.N_harmonics_Ez cfg = 1%Z ->
  length eta = 4%nat ->
  let Y := interleave eta phases4 in
  bunching_factor 1 phases4 = 0
  /\ H.Ez_particles cfg phases4 = Ok [0; 0; 0; 0]
  /\ exists dYdz,
       H.collective_ode cfg z Y = Ok dYdz
       /\ Np.slice_even dYdz = [0; 0; 0; 0]
       /\ (eta = [eta_c; eta_c; eta_c; eta_c] ->
           Np.slice_even (advance h Y dYdz) = eta
           /\ exists dYdz',
                H.collective_ode cfg (z + h) (advance h Y dYdz) = Ok dYdz'
                /\ Np.slice_even dYdz' = [0; 0; 0; 0]).
Proof.
  intros HN HNh Heta Y.
  split; [exact bunching_phases4|]. split.
  - rewrite Ez_particles_ok by (rewrite ?HNh, ?HN; simpl; lia || reflexivity).
    rewrite HNh. change (Z.to_nat 1) with 1%nat.
    unfold phases4 at 2. cbn [map].
    rewrite !harmonic_sum_single, bunching_phases4.
    f_equal. repeat (f_equal; try ring).
  - assert (HY : length Y = (2 * 4)%nat)
      by (unfold Y; rewrite interleave_length by (now rewrite Heta); lia).
    assert (HO : Np.slice_odd Y = phases4)
      by (unfold Y; apply slice_odd_interleave; rewrite Heta; reflexivity).
    assert (HE : Np.slice_even Y = eta)
      by (unfold Y; apply slice_even_interleave; rewrite Heta; reflexivity).
    eexists. split.
    + apply (collective_ode_unbunched cfg z Y 4 HNh HN HY).
      rewrite HO. exact bunching_phases4.
    + rewrite HO, HE. split.
      * rewrite slice_even_interleave by (rewrite !length_map, Heta; reflexivity).
        reflexivity.
      * intros Hc. unfold Y. rewrite Hc. unfold phases4, advance.
        cbn [interleave map Np.map2 Np.slice_even].
        split; [repeat (f_equal; try ring)|].
        eexists. split.
        -- apply (collective_ode_unbunched cfg (z + h) _ 4 HNh HN);
             [reflexivity|].
           cbn [Np.slice_odd]. apply bunching_shifted_phases.
        -- rewrite slice_even_interleave by reflexivity. reflexivity.
Qed.

Lemma C9_equally_spaced_phases_witness :
  H.N_particles cfg_H_one_harmonic = 4%Z
  /\ H.N_harmonics_Ez cfg_H_one_harmonic = 1%Z
  /\ length [1; 1; 1; 1] = 4%nat
  /\ bunching_factor 1 phases4 = 0
  /\ H.Ez_particles cfg_H_one_harmonic phases4 = Ok [0; 0; 0; 0].
Proof.
  assert (H1 : H.N_particles cfg_H_one_harmonic = 4%Z) by reflexivity.
  assert (H2 : H.N_harmonics_Ez cfg_H_one_harmonic = 1%Z) by reflexivity.
  assert (H3 : length [1; 1; 1; 1] = 4%nat) by reflexivity.
  repeat (split; [assumption|]).
  destruct (C9_equally_spaced_phases cfg_H_one_harmonic [1; 1; 1; 1] 0 1 1
              H1 H2 H3) as (A & B & _).
  split; [exact A | exact B].
Defined.

(** ** Reduction modulo the period *)

Lemma mod_range (x m : R) : 0 < m -> 0 <= Np.mod_ x m < m.
Proof.
  intros Hm. unfold Np.mod_.
  pose proof (Zfloor_bound (x / m)) as [Hlo Hhi].
  assert (Hx : x = x / m * m) by (field; lra).
  split.
  - assert (IZR (Zfloor (x / m)) * m <= x / m * m)
      by (apply Rmult_le_compat_r; lra).
    lra.
  - assert (x / m * m < (IZR (Zfloor (x / m)) + 1) * m)
      by (apply Rmult_lt_compat_r; lra).
    lra.
Qed.

Lemma mod_shift_Z (x m : R) (k : Z) :
  m <> 0 -> Np.mod_ (x + IZR k * m) m = Np.mod_ x m.
Proof.
  intros Hm. unfold Np.mod_.
  replace ((x + IZR k * m) / m) with (x / m + IZR k) by (field; exact Hm).
  rewrite Zfloor_addz, plus_IZR. ring.
Qed.

Lemma scaled_position_bounds (L : R) (n : Z) (x : R) :
  0 < L -> (1 <= n)%Z -> 0 <= x < L ->
  0 <= x / L * IZR n < IZR n.
Proof.
  intros HL Hn [H0 H1].
  assert (Hn' : 0 < IZR n) by (apply IZR_lt; lia).
  assert (Hq0 : 0 <= x / L)
    by (apply Rmult_le_pos; [lra | left; now apply Rinv_0_lt_compat]).
  assert (Hq1 : x / L < 1).
  { apply (Rmult_lt_reg_r L); [exact HL|].
    replace (x / L * L) with x by (field; lra). lra. }
  split.
  - apply Rmult_le_pos; lra.
  - replace (IZR n) with (1 * IZR n) at 2 by ring.
    apply Rmult_lt_compat_r; lra.
Qed.

Lemma Zfloor_range (y : R) (n : Z) :
  0 <= y < IZR n -> (0 <= Zfloor y < n)%Z.
Proof.
  intros [H0 H1]. pose proof (Zfloor_bound y) as [Hlo Hhi]. split.
  - apply (Zfloor_lub 0). exact H0.
  - apply lt_IZR. lra.
Qed.

Lemma hist_index_in_range (cfg : G.Config) (x : R) :
  0 < G.lambda_laser cfg -> (1 <= G.N_grid_s cfg)%Z ->
  0 <= x < G.period_length_s cfg ->
  (0 <= Np.hist_index (G.N_grid_s cfg) 0 (G.period_length_s cfg) x
   < G.N_grid_s cfg)%Z.
Proof.
  intros HL Hn Hx. unfold G.period_length_s in *.
  pose proof (scaled_position_bounds _ _ _ HL Hn Hx) as Hb.
  pose proof (Zfloor_range _ _ Hb) as Hf.
  unfold Np.hist_index.
  replace ((x - 0) / (G.lambda_laser cfg - 0) * IZR (G.N_grid_s cfg))
    with (x / G.lambda_laser cfg * IZR (G.N_grid_s cfg)) by (field; lra).
  destruct (Z.eqb_spec (Zfloor (x / G.lambda_laser cfg * IZR (G.N_grid_s cfg)))
                       (G.N_grid_s cfg)) as [E|_]; lia.
Qed.

(** ** The histogram keeps every particle *)

Lemma Zsum_cons (a : Z) (l : list Z) : Zsum (a :: l) = (a + Zsum l)%Z.
Proof. reflexivity. Qed.

Lemma Zsum_app (l m : list Z) : Zsum (l ++ m) = (Zsum l + Zsum m)%Z.
Proof.
  induction l as [|a l IH]; [reflexivity|].
  rewrite <- app_comm_cons, !Zsum_cons, IH. lia.
Qed.

Lemma Zsum_map_add {A : Type} (f g : A -> Z) (s : list A) :
  Zsum (map (fun j => (f j + g j)%Z) s) = (Zsum (map f s) + Zsum (map g s))%Z.
Proof.
  induction s as [|a s IH]; [reflexivity|].
  cbn [map]. rewrite !Zsum_cons, IH. lia.
Qed.

Lemma Zsum_map_zero {A : Type} (f : A -> Z) (s : list A) :
  (forall j, In j s -> f j = 0%Z) -> Zsum (map f s) = 0%Z.
Proof.
  induction s as [|a s IH]; intros Hf; [reflexivity|].
  cbn [map]. rewrite Zsum_cons.
  rewrite IH by (intros j Hj; apply Hf; now right).
  rewrite (Hf a) by now left. reflexivity.
Qed.

Lemma Zsum_indicator (n : nat) (x : Z) :
  (0 <= x < Z.of_nat n)%Z ->
  Zsum (map (fun j => if (x =? Z.of_nat j)%Z then 1%Z else 0%Z) (seq 0 n)) = 1%Z.
Proof.
  induction n as [|n IH]; intros Hx; [lia|].
  rewrite seq_S, map_app, Zsum_app. cbn [map Nat.add].
  rewrite Zsum_cons. cbn [Zsum fold_right].
  destruct (Z.eqb_spec x (Z.of_nat n)) as [E|NE].
  - rewrite Zsum_map_zero; [lia|].
    intros j Hj. apply in_seq in Hj.
    destruct (Z.eqb_spec x (Z.of_nat j)); lia.
  - rewrite IH by lia. lia.
Qed.

Lemma Zsum_bincount (n : Z) (idx : list Z) :
  Forall (fun i => (0 <= i < n)%Z) idx ->
  Zsum (Np.bincount n idx) = Z.of_nat (length idx).
Proof.
  intros Hall. unfold Np.bincount.
  induction Hall as [|x l Hx Hl IH].
  - rewrite Zsum_map_zero; reflexivity.
  - rewrite (map_ext _ (fun j =>
               ((if (x =? Z.of_nat j)%Z then 1 else 0)
                + Z.of_nat (length (filter (fun i => (i =? Z.of_nat j)%Z) l)))%Z)).
    + rewrite Zsum_map_add, IH, Zsum_indicator by lia.
      cbn [length]. lia.
    + intros j. cbn [filter].
      destruct (x =? Z.of_nat j)%Z; cbn [length]; lia.
Qed.

(** The histogram of reduced positions drops no sample, and every bin
    index it uses is a valid one. *)
Lemma histogram_of_reduced (cfg : G.Config) (s_raw : list R) :
  0 < G.lambda_laser cfg ->
  (1 <= G.N_grid_s cfg)%Z ->
  let s_mod := map (fun s => Np.mod_ s (G.period_length_s cfg)) s_raw in
  let indices :=
    map (Np.hist_index (G.N_grid_s cfg) 0 (G.period_length_s cfg)) s_mod in
  Np.histogram s_mod (G.N_grid_s cfg) 0 (G.period_length_s cfg)
  = Ok (Np.bincount (G.N_grid_s cfg) indices)
  /\ Forall (fun i => (0 <= i < G.N_grid_s cfg)%Z) indices.
Proof.
  intros HL Hn s_mod indices.
  set (L := G.period_length_s cfg) in *.
  assert (HLL : 0 < L) by exact HL.
  assert (Hkeep : filter (Np.hist_keep 0 L) s_mod = s_mod).
  { unfold s_mod. induction s_raw as [|s l IH]; [reflexivity|].
    cbn [map filter].
    pose proof (mod_range s L HLL) as Hr.
    unfold Np.hist_keep at 1. rewrite !Rleb_true by lra. cbn [andb].
    now rewrite IH. }
  split.
  - unfold Np.histogram.
    destruct (Z.ltb_spec (G.N_grid_s cfg) 1) as [Hlt|_]; [lia|].
    rewrite Rleb_true, Reqb_neq by lra.
    now rewrite Hkeep.
  - apply Forall_forall. intros i Hin.
    apply in_map_iff in Hin. destruct Hin as (x & <- & Hx).
    unfold s_mod in Hx. apply in_map_iff in Hx. destruct Hx as (s & <- & _).
    apply hist_index_in_range; try assumption.
    apply mod_range. exact HLL.
Qed.

(** X2.  In Variant G no particle is lost in the binning: whatever the
    raw positions are, the histogram of the reduced positions succeeds,
    has [N_grid_s] bins, and its counts add up to the number of
    particles. *)
Theorem X2_histogram_keeps_every_particle (cfg : G.Config) (s_raw : list R) :
  0 < G.lambda_laser cfg ->
  (1 <= G.N_grid_s cfg)%Z ->
  exists counts,
    Np.histogram (map (fun s => Np.mod_ s (G.period_length_s cfg)) s_raw)
                 (G.N_grid_s cfg) 0 (G.period_length_s cfg) = Ok counts
    /\ length counts = Z.to_nat (G.N_grid_s cfg)
    /\ Forall (fun cnt => (0 <= cnt)%Z) counts
    /\ Zsum counts = Z.of_nat (length s_raw).
Proof.
  intros HL Hn.
  destruct (histogram_of_reduced cfg s_raw HL Hn) as [Hh Hidx].
  eexists. split; [exact Hh|]. split; [|split].
  - unfold Np.bincount. now rewrite length_map, length_seq.
  - unfold Np.bincount. apply Forall_forall. intros cnt Hin.
    apply in_map_iff in Hin. destruct Hin as (j & <- & _). lia.
  - rewrite Zsum_bincount by exact Hidx. now rewrite !length_map.
Qed.

Lemma X2_histogram_keeps_every_particle_witness :
  0 < G.lambda_laser cfg_G_example
  /\ (1 <= G.N_grid_s cfg_G_example)%Z
  /\ exists counts,
       Np.histogram (map (fun s => Np.mod_ s (G.period_length_s cfg_G_example))
                         [7; -3; 1 / 2])
                    (G.N_grid_s cfg_G_example) 0
                    (G.period_length_s cfg_G_example) = Ok counts
       /\ Zsum counts = 3%Z.
Proof.
  assert (H1 : 0 < G.lambda_laser cfg_G_example) by (simpl; lra).
  assert (H2 : (1 <= G.N_grid_s cfg_G_example)%Z) by (simpl; lia).
  split; [exact H1 | split; [exact H2 |]].
  destruct (X2_histogram_keeps_every_particle cfg_G_example [7; -3; 1 / 2] H1 H2)
    as (counts & E & _ & _ & S).
  exists counts. split; [exact E | exact S].
Defined.

(** ** Shape of the state vector *)

Lemma slice_lengths_odd {A : Type} (n : nat) (Y : list A) :
  length Y = (2 * n + 1)%nat ->
  length (Np.slice_even Y) = S n /\ length (Np.slice_odd Y) = n.
Proof.
  revert Y; induction n as [|n IH]; intros [|x [|y t]]; simpl; intros HL;
    try discriminate; try lia; try (split; reflexivity).
  destruct (IH t) as [He Ho]; [lia|]. now rewrite He, Ho.
Qed.

(** The two slice assignments of a right-hand side fail on a state of odd
    length: the eta slice has one more slot than the position slice. *)
Lemma assign_slices_odd (n : nat) (Y A B : list R) :
  length Y = (2 * n + 1)%nat -> length A = n -> length B = S n ->
  (dYdz <- Np.assign_even (Np.zeros_like Y) A ;; Np.assign_odd dYdz B)
  = Err ValueError.
Proof.
  intros HY HA HB.
  destruct (Nat.eq_dec n 1) as [E1|NE].
  - rewrite E1 in HY, HA, HB. clear E1.
    destruct Y as [|y0 [|y1 [|y2 [|y3 Y']]]]; try discriminate.
    destruct A as [|a [|a' A']]; try discriminate.
    destruct B as [|b0 [|b1 [|b2 B']]]; try discriminate.
    reflexivity.
  - assert (HZ : length (Np.zeros_like Y) = (2 * n + 1)%nat)
      by (unfold Np.zeros_like; now rewrite repeat_length).
    destruct (slice_lengths_odd n _ HZ) as [He Ho].
    unfold Np.assign_even, Np.broadcast_to. rewrite He.
    destruct (Nat.eqb_spec (length A) (S n)) as [E|_]; [lia|].
    destruct (Nat.eqb_spec (length A) 1) as [E|_]; [lia|].
    reflexivity.
Qed.

(** X3.  The Variant G right-hand side over a valid grid accepts exactly
    the states of even length: on an even-length state it returns a
    derivative array of the same length, on an odd-length state it fails
    with a ValueError (the two slices of the state cannot be assigned). *)
Theorem X3_state_length_must_be_even (cfg : G.Config) (z : R) (Y : list R) :
  (1 <= G.N_grid_s cfg)%Z ->
  0 <= G.lambda_laser cfg ->
  (Nat.even (length Y) = true ->
   exists dYdz, G.collective_ode_fft cfg z Y = Ok dYdz
                /\ length dYdz = length Y)
  /\ (Nat.even (length Y) = false ->
      G.collective_ode_fft cfg z Y = Err ValueError).
Proof.
  intros Hn HL. split; intros Hpar.
  - apply Nat.even_spec in Hpar. destruct Hpar as (n & Hlen).
    destruct (charge_density_ok cfg
                (map (fun s => Np.mod_ s (G.period_length_s cfg)) (Np.slice_odd Y))
                Hn HL) as (rho_s & Hrho & _).
    eexists. split.
    + apply (collective_ode_fft_layout cfg z Y n rho_s Hlen Hrho).
    + rewrite interleave_length.
      * unfold G.Ez_particles_interp. rewrite !length_map.
        rewrite (slice_odd_length n Y Hlen). lia.
      * unfold G.Ez_particles_interp. rewrite !length_map.
        rewrite (slice_odd_length n Y Hlen), (slice_even_length n Y Hlen).
        reflexivity.
  - assert (Hodd : Nat.odd (length Y) = true)
      by (rewrite <- Nat.negb_even, Hpar; reflexivity).
    apply Nat.odd_spec in Hodd. destruct Hodd as (n & Hlen).
    destruct (slice_lengths_odd n Y Hlen) as [He Ho].
    unfold G.collective_ode_fft.
    destruct (charge_density_ok cfg
                (map (fun s => Np.mod_ s (G.period_length_s cfg)) (Np.slice_odd Y))
                Hn HL) as (rho_s & -> & _).
    cbn [bind Ok].
    apply (assign_slices_odd n).
    + exact Hlen.
    + unfold G.Ez_particles_interp. now rewrite !length_map.
    + now rewrite length_map.
Qed.

Lemma X3_state_length_must_be_even_witness :
  (1 <= G.N_grid_s cfg_G_example)%Z
  /\ 0 <= G.lambda_laser cfg_G_example
  /\ G.collective_ode_fft cfg_G_example 0 [0; 1; 2] = Err ValueError.
Proof.
  assert (H1 : (1 <= G.N_grid_s cfg_G_example)%Z) by (simpl; lia).
  assert (H2 : 0 <= G.lambda_laser cfg_G_example) by (simpl; lra).
  split; [exact H1 | split; [exact H2 |]].
  exact (proj2 (X3_state_length_must_be_even cfg_G_example 0 [0; 1; 2] H1 H2)
               eq_refl).
Defined.

(** ** The grid density does not depend on the order of the particles *)

Lemma filter_length_perm {A : Type} (p : A -> bool) (l l' : list A) :
  Permutation l l' -> length (filter p l) = length (filter p l').
Proof.
  induction 1 as [|x l l' HP IH|x y l|l l' l'' H1 IH1 H2 IH2].
  - reflexivity.
  - cbn [filter]. destruct (p x); cbn [length]; now rewrite IH.
  - cbn [filter]. destruct (p x), (p y); reflexivity.
  - now rewrite IH1.
Qed.

Lemma filter_perm {A : Type} (p : A -> bool) (l l' : list A) :
  Permutation l l' -> Permutation (filter p l) (filter p l').
Proof.
  induction 1 as [|x l l' HP IH|x y l|l l' l'' H1 IH1 H2 IH2].
  - constructor.
  - cbn [filter]. destruct (p x); [now constructor | exact IH].
  - cbn [filter]. destruct (p x), (p y); try reflexivity. constructor.
  - now transitivity (filter p l').
Qed.

Lemma histogram_perm (a a' : list R) (n : Z) (lo hi : R) :
  Permutation a a' -> Np.histogram a n lo hi = Np.histogram a' n lo hi.
Proof.
  intros HP. unfold Np.histogram.
  destruct (n <? 1)%Z; [reflexivity|].
  destruct (Np.Rleb lo hi); [|reflexivity].
  destruct (if Np.Reqb lo hi then (lo - / 2, hi + / 2) else (lo, hi))
    as [first_edge last_edge].
  f_equal. unfold Np.bincount. apply map_ext. intros j. f_equal.
  apply filter_length_perm, Permutation_map, filter_perm, HP.
Qed.

(** X4.  In Variant G the charge density on the grid, and with it the
    field on the grid, depends on the positions as a collection only:
    reordering the particles changes neither. *)
Theorem X4_density_ignores_particle_order (cfg : G.Config) (s s' : list R) :
  Permutation s s' ->
  let reduce := map (fun x => Np.mod_ x (G.period_length_s cfg)) in
  G.charge_density cfg (reduce s') = G.charge_density cfg (reduce s)
  /\ forall rho_s rho_s',
       G.charge_density cfg (reduce s) = Ok rho_s ->
       G.charge_density cfg (reduce s') = Ok rho_s' ->
       G.Ez_s_grid cfg rho_s' = G.Ez_s_grid cfg rho_s.
Proof.
  intros HP reduce.
  assert (E : G.charge_density cfg (reduce s') = G.charge_density cfg (reduce s)).
  { unfold G.charge_density.
    rewrite (histogram_perm (reduce s') (reduce s)); [reflexivity|].
    unfold reduce. apply Permutation_map. now symmetry. }
  split; [exact E|].
  intros rho_s rho_s' H1 H2. rewrite E, H1 in H2.
  injection H2 as <-. reflexivity.
Qed.

Lemma X4_density_ignores_particle_order_witness :
  Permutation [1; 2; 3] [3; 1; 2]
  /\ G.charge_density cfg_G_example
       (map (fun x => Np.mod_ x (G.period_length_s cfg_G_example)) [3; 1; 2])
     = G.charge_density cfg_G_example
         (map (fun x => Np.mod_ x (G.period_length_s cfg_G_example)) [1; 2; 3]).
Proof.
  assert (H : Permutation [1; 2; 3] [3; 1; 2]).
  { apply (Permutation_cons_app [3] [2] 1). apply perm_swap. }
  split; [exact H|].
  exact (proj1 (X4_density_ignores_particle_order cfg_G_example _ _ H)).
Defined.

(** ** Sums of roots of unity *)

Lemma Cx_eq (a b : Cx.C) : Cx.re a = Cx.re b -> Cx.im a = Cx.im b -> a = b.
Proof. destruct a, b; cbn [Cx.re Cx.im]; intros -> ->; reflexivity. Qed.

Ltac Cx_ring :=
  apply Cx_eq; cbn [Cx.re Cx.im Cx.Cadd Cx.Cmul Cx.RtoC Cx.C0 Cx.cis]; ring.

Lemma Cadd_0_r (a : Cx.C) : Cx.Cadd a Cx.C0 = a.
Proof. Cx_ring. Qed.

Lemma Cadd_0_l (a : Cx.C) : Cx.Cadd Cx.C0 a = a.
Proof. Cx_ring. Qed.

Lemma Cmul_0_l (a : Cx.C) : Cx.Cmul Cx.C0 a = Cx.C0.
Proof. Cx_ring. Qed.

Lemma Cmul_0_r (a : Cx.C) : Cx.Cmul a Cx.C0 = Cx.C0.
Proof. Cx_ring. Qed.

Lemma Csum_cons (a : Cx.C) (l : list Cx.C) :
  Cx.Csum (a :: l) = Cx.Cadd a (Cx.Csum l).
Proof. reflexivity. Qed.

Lemma Csum_app (l m : list Cx.C) :
  Cx.Csum (l ++ m) = Cx.Cadd (Cx.Csum l) (Cx.Csum m).
Proof.
  induction l as [|a l IH].
  - cbn [app]. symmetry. apply Cadd_0_l.
  - rewrite <- app_comm_cons, !Csum_cons, IH. Cx_ring.
Qed.

Lemma Csum_map_add {A : Type} (f g : A -> Cx.C) (l : list A) :
  Cx.Csum (map (fun n => Cx.Cadd (f n) (g n)) l)
  = Cx.Cadd (Cx.Csum (map f l)) (Cx.Csum (map g l)).
Proof.
  induction l as [|a l IH]; cbn [map].
  - symmetry. apply Cadd_0_l.
  - rewrite !Csum_cons, IH. Cx_ring.
Qed.

Lemma Csum_map_scale {A : Type} (b : Cx.C) (f : A -> Cx.C) (l : list A) :
  Cx.Csum (map (fun n => Cx.Cmul b (f n)) l) = Cx.Cmul b (Cx.Csum (map f l)).
Proof.
  induction l as [|a l IH]; cbn [map].
  - symmetry. apply Cmul_0_r.
  - rewrite !Csum_cons, IH. Cx_ring.
Qed.

Lemma Csum_map_zero {A : Type} (f : A -> Cx.C) (l : list A) :
  (forall n, In n l -> f n = Cx.C0) -> Cx.Csum (map f l) = Cx.C0.
Proof.
  induction l as [|a l IH]; intros Hf; [reflexivity|].
  cbn [map]. rewrite Csum_cons.
  rewrite IH by (intros n Hn; apply Hf; now right).
  rewrite (Hf a) by now left. apply Cadd_0_l.
Qed.

Lemma Csum_exchange {A B : Type} (f : A -> B -> Cx.C) (la : list A) (lb : list B) :
  Cx.Csum (map (fun a => Cx.Csum (map (fun b => f a b) lb)) la)
  = Cx.Csum (map (fun b => Cx.Csum (map (fun a => f a b) la)) lb).
Proof.
  induction la as [|a la IH]; cbn [map].
  - symmetry. apply Csum_map_zero. reflexivity.
  - rewrite Csum_cons, IH.
    rewrite <- Csum_map_add. reflexivity.
Qed.

Lemma cis_add (a b : R) : Cx.cis (a + b) = Cx.Cmul (Cx.cis a) (Cx.cis b).
Proof.
  apply Cx_eq; cbn [Cx.re Cx.im Cx.Cmul Cx.cis].
  - apply cos_plus.
  - rewrite sin_plus. ring.
Qed.

(** [(w - 1) * (1 + w + ... + w^(N-1)) = w^N - 1] for [w = cis theta]. *)
Lemma cis_sum_telescope (theta : R) (N : nat) :
  Cx.Cmul (Cx.Cadd (Cx.cis theta) (Cx.RtoC (-1)))
          (Cx.Csum (map (fun n => Cx.cis (INR n * theta)) (seq 0 N)))
  = Cx.Cadd (Cx.cis (INR N * theta)) (Cx.RtoC (-1)).
Proof.
  induction N as [|N IH].
  - cbn [seq map Cx.Csum fold_right]. simpl INR. rewrite Rmult_0_l.
    apply Cx_eq; cbn [Cx.re Cx.im Cx.Cadd Cx.Cmul Cx.RtoC Cx.C0 Cx.cis];
      rewrite ?cos_0, ?sin_0; ring.
  - rewrite seq_S, map_app, Csum_app. cbn [map Nat.add].
    rewrite Csum_cons, Cadd_0_r.
    replace (INR (S N) * theta) with (INR N * theta + theta)
      by (rewrite S_INR; ring).
    rewrite cis_add.
    set (S0 := Cx.Csum (map (fun n => Cx.cis (INR n * theta)) (seq 0 N))) in *.
    transitivity
      (Cx.Cadd (Cx.Cmul (Cx.Cadd (Cx.cis theta) (Cx.RtoC (-1))) S0)
               (Cx.Cmul (Cx.Cadd (Cx.cis theta) (Cx.RtoC (-1)))
                        (Cx.cis (INR N * theta)))).
    { Cx_ring. }
    rewrite IH. Cx_ring.
Qed.

Lemma cis_sum_vanishes (theta : R) (N : nat) :
  cos theta < 1 ->
  Cx.cis (INR N * theta) = Cx.RtoC 1 ->
  Cx.Csum (map (fun n => Cx.cis (INR n * theta)) (seq 0 N)) = Cx.C0.
Proof.
  intros Hc HN.
  pose proof (cis_sum_telescope theta N) as T. rewrite HN in T.
  set (S0 := Cx.Csum (map (fun n => Cx.cis (INR n * theta)) (seq 0 N))) in *.
  pose proof (f_equal Cx.re T) as Tr. pose proof (f_equal Cx.im T) as Ti.
  cbn [Cx.re Cx.im Cx.Cadd Cx.Cmul Cx.RtoC Cx.cis] in Tr, Ti.
  set (x := Cx.re S0) in *. set (y := Cx.im S0) in *.
  set (c := cos theta) in *. set (s := sin theta) in *.
  assert (Hd : 0 < (c - 1) * (c - 1) + s * s) by nra.
  assert (Hx : ((c - 1) * (c - 1) + s * s) * x = 0).
  { replace (((c - 1) * (c - 1) + s * s) * x)
      with ((c - 1) * ((c + -1) * x - (s + 0) * y)
            + s * ((c + -1) * y + (s + 0) * x)) by ring.
    rewrite Tr, Ti. ring. }
  assert (Hy : ((c - 1) * (c - 1) + s * s) * y = 0).
  { replace (((c - 1) * (c - 1) + s * s) * y)
      with ((c - 1) * ((c + -1) * y + (s + 0) * x)
            - s * ((c + -1) * x - (s + 0) * y)) by ring.
    rewrite Tr, Ti. ring. }
  apply Rmult_integral in Hx. apply Rmult_integral in Hy.
  apply Cx_eq; cbn [Cx.re Cx.im Cx.C0]; fold x; fold y; lra.
Qed.

Lemma cos_turn_fraction (k N : nat) :
  (0 < k < N)%nat -> cos (2 * PI * INR k / INR N) < 1.
Proof.
  intros Hk. pose proof PI_RGT_0 as HPI.
  assert (HN : 0 < INR N) by (apply lt_0_INR; lia).
  assert (Hk0 : 0 < INR k) by (apply lt_0_INR; lia).
  assert (HkN : INR k < INR N) by (apply lt_INR; lia).
  replace (2 * PI * INR k / INR N) with (2 * (PI * INR k / INR N))
    by (field; lra).
  rewrite cos_2a_sin.
  assert (Hs : 0 < sin (PI * INR k / INR N)).
  { apply sin_gt_0.
    - apply Rmult_lt_0_compat; [nra | now apply Rinv_0_lt_compat].
    - apply (Rmult_lt_reg_r (INR N)); [exact HN|].
      replace (PI * INR k / INR N * INR N) with (PI * INR k) by (field; lra).
      nra. }
  nra.
Qed.

Lemma cis_whole_turns (k : nat) : Cx.cis (2 * PI * INR k) = Cx.RtoC 1.
Proof.
  apply Cx_eq; cbn [Cx.re Cx.im Cx.cis Cx.RtoC].
  - replace (2 * PI * INR k) with (0 + 2 * INR k * PI) by ring.
    rewrite cos_period. apply cos_0.
  - replace (2 * PI * INR k) with (0 + 2 * INR k * PI) by ring.
    rewrite sin_period. apply sin_0.
Qed.

(** The transform kernels of a non-zero frequency sum to zero over a
    period. *)
Lemma ifft_kernel_sum (k N : nat) :
  (0 < k < N)%nat ->
  Cx.Csum (map (fun n => Cx.cis (2 * PI * INR (k * n) / INR N)) (seq 0 N))
  = Cx.C0.
Proof.
  intros Hk.
  assert (HN : INR N <> 0) by (apply not_0_INR; lia).
  rewrite (map_ext _ (fun n => Cx.cis (INR n * (2 * PI * INR k / INR N)))).
  - apply cis_sum_vanishes.
    + now apply cos_turn_fraction.
    + replace (INR N * (2 * PI * INR k / INR N)) with (2 * PI * INR k)
        by (field; exact HN).
      apply cis_whole_turns.
  - intros n. f_equal. rewrite mult_INR. field. exact HN.
Qed.

Lemma fft_kernel_sum (k N : nat) :
  (0 < k < N)%nat ->
  Cx.Csum (map (fun n => Cx.cis (- (2 * PI * INR (k * n) / INR N))) (seq 0 N))
  = Cx.C0.
Proof.
  intros Hk.
  assert (HN : INR N <> 0) by (apply not_0_INR; lia).
  rewrite (map_ext _ (fun n => Cx.cis (INR n * (- (2 * PI * INR k / INR N))))).
  - apply cis_sum_vanishes.
    + rewrite cos_neg. now apply cos_turn_fraction.
    + replace (INR N * (- (2 * PI * INR k / INR N))) with (- (2 * PI * INR k))
        by (field; exact HN).
      apply Cx_eq; cbn [Cx.re Cx.im Cx.cis Cx.RtoC].
      * rewrite cos_neg. apply (f_equal Cx.re (cis_whole_turns k)).
      * rewrite sin_neg.
        pose proof (f_equal Cx.im (cis_whole_turns k)) as E.
        cbn [Cx.im Cx.cis Cx.RtoC] in E. rewrite E. ring.
  - intros n. f_equal. rewrite mult_INR. field. exact HN.
Qed.

(** ** The transform of the density *)

Lemma nth_map_seq {A : Type} (f : nat -> A) (N k : nat) (d : A) :
  (k < N)%nat -> nth k (map f (seq 0 N)) d = f k.
Proof.
  intros Hk.
  rewrite (nth_indep _ d (f 0%nat)) by (now rewrite length_map, length_seq).
  rewrite map_nth, seq_nth by exact Hk. reflexivity.
Qed.

Lemma nth_RtoC (l : list R) (n : nat) :
  nth n (map Cx.RtoC l) Cx.C0 = Cx.RtoC (nth n l 0).
Proof. change Cx.C0 with (Cx.RtoC 0). apply map_nth. Qed.

Lemma nth_fft (x : list Cx.C) (k : nat) :
  (k < length x)%nat ->
  nth k (Cx.fft x) Cx.C0
  = Cx.Csum (map (fun n => Cx.Cmul (nth n x Cx.C0)
                             (Cx.cis (- (2 * PI * INR (k * n) / INR (length x)))))
                 (seq 0 (length x))).
Proof. intros Hk. unfold Cx.fft. now rewrite nth_map_seq. Qed.

(** A uniform offset of the samples only shows in the zero-frequency
    entry of the transform. *)
Lemma fft_offset (x : list R) (m : R) (k : nat) :
  (0 < k < length x)%nat ->
  nth k (Cx.fft (map Cx.RtoC (map (fun r => r - m) x))) Cx.C0
  = nth k (Cx.fft (map Cx.RtoC x)) Cx.C0.
Proof.
  intros Hk. rewrite !nth_fft by (rewrite ?length_map; lia).
  rewrite !length_map.
  rewrite (map_ext_in _
    (fun n => Cx.Cadd
                (Cx.Cmul (nth n (map Cx.RtoC x) Cx.C0)
                         (Cx.cis (- (2 * PI * INR (k * n) / INR (length x)))))
                (Cx.Cmul (Cx.RtoC (- m))
                         (Cx.cis (- (2 * PI * INR (k * n) / INR (length x))))))).
  - rewrite Csum_map_add, Csum_map_scale, fft_kernel_sum by exact Hk.
    rewrite Cmul_0_r. apply Cadd_0_r.
  - intros n Hn. apply in_seq in Hn. rewrite !nth_RtoC.
    rewrite (nth_map_lt _ x 0) by lia. Cx_ring.
Qed.

Lemma map2_ext_nth {A B C : Type} (f g : A -> B -> C)
      (l : list A) (m m' : list B) (dA : A) (dB : B) :
  length l = length m -> length m = length m' ->
  (forall i, (i < length l)%nat ->
     f (nth i l dA) (nth i m dB) = g (nth i l dA) (nth i m' dB)) ->
  Np.map2 f l m = Np.map2 g l m'.
Proof.
  revert m m'; induction l as [|a l IH]; intros [|b m] [|b' m'] H1 H2 Hext;
    try discriminate; try reflexivity.
  cbn [Np.map2]. f_equal.
  - apply (Hext 0%nat). simpl. lia.
  - apply IH; [simpl in *; lia | simpl in *; lia |].
    intros i Hi. apply (Hext (S i)). simpl. lia.
Qed.

Lemma k_s_grid_fft_dc (cfg : G.Config) : nth 0 (G.k_s_grid_fft cfg) 0 = 0.
Proof.
  destruct (Z_lt_le_dec (G.N_grid_s cfg) 1) as [Hlt|Hge].
  - unfold G.k_s_grid_fft, Cx.fftfreq.
    replace (Z.to_nat (G.N_grid_s cfg)) with 0%nat by lia. reflexivity.
  - destruct (k_s_grid_fft_head cfg Hge) as (ks & ->). reflexivity.
Qed.

Lemma Ez_fft_plot_eq (cfg : G.Config) (rho_s : list R) :
  length rho_s = Z.to_nat (G.N_grid_s cfg) ->
  G.Ez_fft_plot cfg rho_s = G.Ez_fft cfg rho_s.
Proof.
  intros HL. unfold G.Ez_fft_plot, G.Ez_fft.
  apply (map2_ext_nth _ _ _ _ _ 0 Cx.C0).
  - rewrite k_s_grid_fft_length, fft_length, length_map. now rewrite HL.
  - rewrite !fft_length, !length_map. unfold G.rho_ac. now rewrite length_map.
  - intros i Hi. rewrite k_s_grid_fft_length in Hi.
    destruct i as [|i].
    + rewrite k_s_grid_fft_dc, Reqb_refl. reflexivity.
    + unfold G.rho_ac.
      rewrite (fft_offset rho_s (Np.mean rho_s) (S i)) by lia.
      reflexivity.
Qed.

Lemma Ez_s_grid_plot_eq (cfg : G.Config) (rho_s : list R) :
  length rho_s = Z.to_nat (G.N_grid_s cfg) ->
  G.Ez_s_grid_plot cfg rho_s = G.Ez_s_grid cfg rho_s.
Proof.
  intros HL.
  unfold G.Ez_s_grid_plot, G.Ez_s_grid, G.Ez_s_grid_complex.
  now rewrite Ez_fft_plot_eq.
Qed.

(** X5.  The field profile recomputed for the plots, which transforms the
    density without subtracting its mean, is the field on the grid that
    the right-hand side computes from the same density: dropping the
    zero-frequency entry of the spectrum already removes the mean. *)
Theorem X5_plot_field_is_solver_field (cfg : G.Config) (rho_s : list R) :
  length rho_s = Z.to_nat (G.N_grid_s cfg) ->
  G.Ez_fft_plot cfg rho_s = G.Ez_fft cfg rho_s
  /\ G.Ez_s_grid_plot cfg rho_s = G.Ez_s_grid cfg rho_s.
Proof.
  intros HL. split; [now apply Ez_fft_plot_eq | now apply Ez_s_grid_plot_eq].
Qed.

Lemma X5_plot_field_is_solver_field_witness :
  length [1; 2; 3; 4] = Z.to_nat (G.N_grid_s cfg_G_example)
  /\ G.Ez_s_grid_plot cfg_G_example [1; 2; 3; 4]
     = G.Ez_s_grid cfg_G_example [1; 2; 3; 4].
Proof.
  assert (H : length [1; 2; 3; 4] = Z.to_nat (G.N_grid_s cfg_G_example))
    by reflexivity.
  split; [exact H|].
  exact (proj2 (X5_plot_field_is_solver_field cfg_G_example [1; 2; 3; 4] H)).
Defined.

(** ** The field on the grid has no mean *)

Lemma Rsum_map_re (l : list Cx.C) : Np.Rsum (map Cx.re l) = Cx.re (Cx.Csum l).
Proof.
  induction l as [|a l IH]; [reflexivity|].
  cbn [map Np.Rsum fold_right]. fold (Np.Rsum (map Cx.re l)).
  rewrite IH, Csum_cons. reflexivity.
Qed.

Lemma ifft_total (y : list Cx.C) :
  nth 0 y Cx.C0 = Cx.C0 -> Cx.Csum (Cx.ifft y) = Cx.C0.
Proof.
  intros H0. unfold Cx.ifft. set (N := length y).
  rewrite Csum_map_scale, Csum_exchange.
  rewrite Csum_map_zero; [apply Cmul_0_r|].
  intros k Hk. apply in_seq in Hk.
  rewrite Csum_map_scale.
  destruct k as [|k].
  - rewrite H0. apply Cmul_0_l.
  - rewrite ifft_kernel_sum by lia. apply Cmul_0_r.
Qed.

Lemma Ez_fft_dc (cfg : G.Config) (rho_s : list R) :
  nth 0 (G.Ez_fft cfg rho_s) Cx.C0 = Cx.C0.
Proof.
  unfold G.Ez_fft. pose proof (k_s_grid_fft_dc cfg) as Hk.
  destruct (G.k_s_grid_fft cfg) as [|k0 ks]; [reflexivity|].
  destruct (Cx.fft (map Cx.RtoC (G.rho_ac rho_s))) as [|x xs]; [reflexivity|].
  cbn [nth] in Hk. subst k0. cbn [Np.map2 nth]. now rewrite Reqb_refl.
Qed.

(** X6.  In Variant G the field on the grid sums to zero over the period,
    for every density and every configuration: the beam exerts no net
    force on itself. *)
Theorem X6_grid_field_has_zero_mean (cfg : G.Config) (rho_s : list R) :
  Np.Rsum (G.Ez_s_grid cfg rho_s) = 0.
Proof.
  unfold G.Ez_s_grid, G.Ez_s_grid_complex.
  rewrite Rsum_map_re, ifft_total by apply Ez_fft_dc.
  reflexivity.
Qed.

(** ** The wavenumbers of the grid *)

(** X7.  The wavenumbers of the grid are whole multiples of the laser
    wavenumber: entry [j] is [j * k_laser] in the first half
    ([j <= (N_g - 1) / 2]) and [(j - N_g) * k_laser] in the second, so
    only entry 0 is zero, and at every other entry the field spectrum is
    the density spectrum divided by [1j * k * epsilon_0]. *)
Theorem X7_wavenumbers_are_laser_harmonics (cfg : G.Config) (rho_s : list R)
        (j : nat) :
  G.lambda_laser cfg <> 0 ->
  length rho_s = Z.to_nat (G.N_grid_s cfg) ->
  (1 <= Z.of_nat j < G.N_grid_s cfg)%Z ->
  let harmonic :=
    if (Z.of_nat j <=? (G.N_grid_s cfg - 1) / 2)%Z
    then Z.of_nat j else (Z.of_nat j - G.N_grid_s cfg)%Z in
  let k := nth j (G.k_s_grid_fft cfg) 0 in
  harmonic <> 0%Z
  /\ k = IZR harmonic * G.k_laser cfg
  /\ k <> 0
  /\ nth j (G.Ez_fft cfg rho_s) Cx.C0
     = Cx.Cdiv (nth j (Cx.fft (map Cx.RtoC (G.rho_ac rho_s))) Cx.C0)
               (Cx.Cmul (Cx.Cmul Cx.Ci (Cx.RtoC k)) (Cx.RtoC (G.epsilon_0 cfg))).
Proof.
  intros HL Hrho Hj harmonic k.
  pose proof PI_RGT_0 as HPI.
  assert (HN : IZR (G.N_grid_s cfg) <> 0) by (apply not_0_IZR; lia).
  assert (Hh : harmonic <> 0%Z).
  { unfold harmonic.
    destruct (Z.leb_spec (Z.of_nat j) ((G.N_grid_s cfg - 1) / 2)); lia. }
  assert (Hk : k = IZR harmonic * G.k_laser cfg).
  { unfold k, G.k_s_grid_fft, Cx.fftfreq.
    rewrite (nth_map_lt _ _ 0) by (rewrite length_map, length_seq; lia).
    rewrite (nth_map_lt _ _ 0%nat) by (rewrite length_seq; lia).
    rewrite seq_nth by lia. cbn [Nat.add].
    replace (if (Z.of_nat j <? (G.N_grid_s cfg - 1) / 2 + 1)%Z
             then Z.of_nat j else (Z.of_nat j - G.N_grid_s cfg)%Z)
      with harmonic.
    - unfold G.ds_grid, G.period_length_s, G.k_laser. field.
      split; assumption.
    - unfold harmonic.
      destruct (Z.leb_spec (Z.of_nat j) ((G.N_grid_s cfg - 1) / 2));
        destruct (Z.ltb_spec (Z.of_nat j) ((G.N_grid_s cfg - 1) / 2 + 1));
        lia || reflexivity. }
  assert (Hk0 : k <> 0).
  { rewrite Hk. unfold G.k_laser.
    apply Rmult_integral_contrapositive_currified.
    - apply not_0_IZR. exact Hh.
    - unfold Rdiv. apply Rmult_integral_contrapositive_currified; [lra|].
      now apply Rinv_neq_0_compat. }
  split; [exact Hh|]. split; [exact Hk|]. split; [exact Hk0|].
  unfold G.Ez_fft.
  set (X := Cx.fft (map Cx.RtoC (G.rho_ac rho_s))).
  assert (HX : length X = Z.to_nat (G.N_grid_s cfg)).
  { unfold X. rewrite fft_length, length_map. unfold G.rho_ac.
    now rewrite length_map. }
  pose proof (k_s_grid_fft_length cfg) as HK.
  fold k.
  assert (Hnth : forall (ks : list R) (xs : list Cx.C) (i : nat),
             length ks = length xs -> (i < length ks)%nat ->
             nth i (Np.map2
                      (fun k rho_k =>
                         if Np.Reqb k 0 then Cx.RtoC 0
                         else Cx.Cdiv rho_k
                                (Cx.Cmul (Cx.Cmul Cx.Ci (Cx.RtoC k))
                                         (Cx.RtoC (G.epsilon_0 cfg))))
                      ks xs) Cx.C0
             = (fun k rho_k =>
                  if Np.Reqb k 0 then Cx.RtoC 0
                  else Cx.Cdiv rho_k
                         (Cx.Cmul (Cx.Cmul Cx.Ci (Cx.RtoC k))
                                  (Cx.RtoC (G.epsilon_0 cfg))))
                 (nth i ks 0) (nth i xs Cx.C0)).
  { induction ks as [|k0 ks IH]; intros [|x0 xs] i Hlen Hi;
      try discriminate; simpl in Hi; try lia.
    destruct i as [|i]; [reflexivity|].
    cbn [Np.map2 nth]. apply IH; simpl in *; lia. }
  rewrite Hnth by lia. cbv beta. fold k.
  now rewrite Reqb_neq by exact Hk0.
Qed.

Lemma X7_wavenumbers_are_laser_harmonics_witness :
  G.lambda_laser cfg_G_example <> 0
  /\ length [1; 2; 3; 4] = Z.to_nat (G.N_grid_s cfg_G_example)
  /\ (1 <= Z.of_nat 3 < G.N_grid_s cfg_G_example)%Z
  /\ nth 3 (G.k_s_grid_fft cfg_G_example) 0
     = IZR (if (Z.of_nat 3 <=? (G.N_grid_s cfg_G_example - 1) / 2)%Z
            then Z.of_nat 3 else (Z.of_nat 3 - G.N_grid_s cfg_G_example)%Z)
       * G.k_laser cfg_G_example.
Proof.
  assert (H1 : G.lambda_laser cfg_G_example <> 0) by (simpl; lra).
  assert (H2 : length [1; 2; 3; 4] = Z.to_nat (G.N_grid_s cfg_G_example))
    by reflexivity.
  assert (H3 : (1 <= Z.of_nat 3 < G.N_grid_s cfg_G_example)%Z) by (simpl; lia).
  split; [exact H1 | split; [exact H2 | split; [exact H3 |]]].
  exact (proj1 (proj2 (X7_wavenumbers_are_laser_harmonics cfg_G_example
                         [1; 2; 3; 4] 3 H1 H2 H3))).
Defined.

(** ** The field is linear in the density *)

Lemma Rsum_scale (a : R) (l : list R) :
  Np.Rsum (map (fun r => a * r) l) = a * Np.Rsum l.
Proof.
  induction l as [|x l IH].
  - cbn [map Np.Rsum fold_right]. ring.
  - cbn [map Np.Rsum fold_right]. fold (Np.Rsum (map (fun r => a * r) l)).
    fold (Np.Rsum l). rewrite IH. ring.
Qed.

Lemma rho_ac_scale (a : R) (rho : list R) :
  G.rho_ac (map (fun r => a * r) rho) = map (fun r => a * r) (G.rho_ac rho).
Proof.
  unfold G.rho_ac. rewrite !map_map. apply map_ext. intros r.
  unfold Np.mean. rewrite Rsum_scale, length_map. unfold Rdiv. ring.
Qed.

Lemma nth_map_Cmul (a : Cx.C) (x : list Cx.C) (n : nat) :
  nth n (map (Cx.Cmul a) x) Cx.C0 = Cx.Cmul a (nth n x Cx.C0).
Proof.
  destruct (Nat.lt_ge_cases n (length x)) as [Hn|Hn].
  - rewrite (nth_indep _ _ (Cx.Cmul a Cx.C0)) by (now rewrite length_map).
    apply map_nth.
  - rewrite !nth_overflow by (rewrite ?length_map; lia).
    symmetry. apply Cmul_0_r.
Qed.

Lemma fft_scale (a : Cx.C) (x : list Cx.C) :
  Cx.fft (map (Cx.Cmul a) x) = map (Cx.Cmul a) (Cx.fft x).
Proof.
  unfold Cx.fft. rewrite length_map, map_map. apply map_ext. intros k.
  rewrite <- Csum_map_scale. f_equal. apply map_ext. intros n.
  rewrite nth_map_Cmul. Cx_ring.
Qed.

Lemma ifft_scale (a : Cx.C) (y : list Cx.C) :
  Cx.ifft (map (Cx.Cmul a) y) = map (Cx.Cmul a) (Cx.ifft y).
Proof.
  unfold Cx.ifft. rewrite length_map, map_map. apply map_ext. intros n.
  transitivity
    (Cx.Cmul (Cx.RtoC (1 / INR (length y)))
       (Cx.Cmul a
          (Cx.Csum (map (fun k => Cx.Cmul (nth k y Cx.C0)
                                    (Cx.cis (2 * PI * INR (k * n) / INR (length y))))
                        (seq 0 (length y)))))).
  - f_equal. rewrite <- Csum_map_scale. f_equal. apply map_ext. intros k.
    rewrite nth_map_Cmul. Cx_ring.
  - Cx_ring.
Qed.

Lemma map2_map_r {A B C : Type} (f : A -> B -> C) (g : B -> B) (h : C -> C)
      (l : list A) (m : list B) :
  (forall a b, f a (g b) = h (f a b)) ->
  Np.map2 f l (map g m) = map h (Np.map2 f l m).
Proof.
  intros Hf. revert m; induction l as [|a l IH]; intros [|b m];
    try reflexivity.
  cbn [map Np.map2]. now rewrite Hf, IH.
Qed.

(** X8.  The Variant G field on the grid is proportional to the density:
    scaling the density by a factor scales the field by the same factor.
    In particular a uniform density (every bin equally filled) gives the
    zero field at every grid point. *)
Theorem X8_grid_field_scales_with_density (cfg : G.Config) (rho_s : list R)
        (a c : R) (n : nat) :
  G.Ez_s_grid cfg (map (fun r => a * r) rho_s)
  = map (fun E => a * E) (G.Ez_s_grid cfg rho_s)
  /\ Forall (fun E => E = 0) (G.Ez_s_grid cfg (repeat c n)).
Proof.
  assert (Hscale : forall a rho,
    G.Ez_s_grid cfg (map (fun r => a * r) rho)
    = map (fun E => a * E) (G.Ez_s_grid cfg rho)).
  { clear. intros a rho.
    unfold G.Ez_s_grid, G.Ez_s_grid_complex, G.Ez_fft.
    rewrite rho_ac_scale.
    replace (map Cx.RtoC (map (fun r => a * r) (G.rho_ac rho)))
      with (map (Cx.Cmul (Cx.RtoC a)) (map Cx.RtoC (G.rho_ac rho))).
    2:{ rewrite !map_map. apply map_ext. intros r. Cx_ring. }
    rewrite fft_scale.
    rewrite (map2_map_r _ _ (Cx.Cmul (Cx.RtoC a))).
    - rewrite ifft_scale, !map_map. apply map_ext. intros z.
      cbn [Cx.re Cx.im Cx.Cmul Cx.RtoC]. ring.
    - intros k b. destruct (Np.Reqb k 0).
      + Cx_ring.
      + apply Cx_eq;
          cbn [Cx.re Cx.im Cx.Cdiv Cx.Cmul Cx.RtoC Cx.Ci];
          unfold Rdiv; ring. }
  split; [apply Hscale|].
  replace (repeat c n)
    with (map (fun r => r + c) (map (fun r => 0 * r) (repeat c n))).
  2:{ rewrite map_map. rewrite <- (map_id (repeat c n)) at 2.
      apply map_ext_in. intros r Hr. apply repeat_spec in Hr. subst r. ring. }
  unfold G.Ez_s_grid, G.Ez_s_grid_complex, G.Ez_fft.
  rewrite rho_ac_offset.
  change (Forall (fun E => E = 0)
            (G.Ez_s_grid cfg (map (fun r => 0 * r) (repeat c n)))).
  rewrite Hscale. apply Forall_forall. intros E HE.
  apply in_map_iff in HE. destruct HE as (E0 & <- & _). ring.
Qed.

(** ** The energy change and the plotted force *)

Lemma rho_s_plot_eq (cfg : G.Config) (s_mod : list R) :
  G.rho_s_plot cfg s_mod = G.charge_density cfg s_mod.
Proof.
  unfold G.rho_s_plot, G.charge_density, Np.zeros, Np.histogram.
  destruct (Z.ltb_spec (G.N_grid_s cfg) 0) as [Hlt|Hge]; [|reflexivity].
  destruct (Z.ltb_spec (G.N_grid_s cfg) 1) as [_|Hge]; [reflexivity | lia].
Qed.

(** X9.  In Variant G the energy derivative of a particle is the force
    on an electron, as the plots recompute it from the same snapshot,
    read at the particle's bin and divided by [gamma_ref * m_e * c^2]. *)
Theorem X9_energy_change_is_plotted_force (cfg : G.Config) (z : R)
        (Y : list R) (n i : nat) :
  length Y = (2 * n)%nat ->
  (i < n)%nat ->
  (1 <= G.N_grid_s cfg)%Z ->
  0 <= G.lambda_laser cfg ->
  let s_mod :=
    map (fun s => Np.mod_ s (G.period_length_s cfg)) (Np.slice_odd Y) in
  exists rho_s_plot dYdz,
    G.rho_s_plot cfg s_mod = Ok rho_s_plot
    /\ G.collective_ode_fft cfg z Y = Ok dYdz
    /\ nth (2 * i) dYdz 0
       = nth (Z.to_nat (G.particle_grid_index cfg (nth i s_mod 0)))
             (G.force_on_electron_grid_plot cfg rho_s_plot) 0
         / (G.gamma_ref cfg * G.m_e cfg * (G.c cfg) ^ 2).
Proof.
  intros HY Hi Hn HL s_mod.
  destruct (charge_density_ok cfg s_mod Hn HL) as (rho & Hrho & Hlen).
  exists rho. eexists.
  split; [rewrite rho_s_plot_eq; exact Hrho|].
  split; [apply (collective_ode_fft_layout cfg z Y n rho HY Hrho)|].
  pose proof (slice_odd_length n Y HY) as HO.
  pose proof (slice_even_length n Y HY) as HE.
  assert (Hs : length s_mod = n) by (unfold s_mod; now rewrite length_map).
  fold s_mod.
  rewrite nth_interleave_even
    by (unfold G.Ez_particles_interp; rewrite !length_map; lia).
  rewrite (nth_map_lt _ _ 0)
    by (unfold G.Ez_particles_interp; rewrite length_map; lia).
  unfold G.Ez_particles_interp.
  rewrite (nth_map_lt _ s_mod 0) by lia.
  unfold G.force_on_electron_grid_plot.
  pose proof (clip_bounds (Zfloor (nth i s_mod 0 / G.ds_grid cfg))
                          (G.N_grid_s cfg) Hn) as B.
  fold (G.particle_grid_index cfg (nth i s_mod 0)) in B.
  rewrite (nth_map_lt _ _ 0)
    by (rewrite Ez_s_grid_plot_eq, Ez_s_grid_length by exact Hlen; lia).
  rewrite Ez_s_grid_plot_eq by exact Hlen.
  unfold G.eta_change_factor_ode, Rdiv. ring.
Qed.

Lemma X9_energy_change_is_plotted_force_witness :
  length Y_two_bins = (2 * 2)%nat
  /\ (1 < 2)%nat
  /\ (1 <= G.N_grid_s cfg_G_example)%Z
  /\ 0 <= G.lambda_laser cfg_G_example
  /\ exists rho_s_plot dYdz,
       G.rho_s_plot cfg_G_example
         (map (fun s => Np.mod_ s (G.period_length_s cfg_G_example))
              (Np.slice_odd Y_two_bins)) = Ok rho_s_plot
       /\ G.collective_ode_fft cfg_G_example 0 Y_two_bins = Ok dYdz.
Proof.
  assert (H1 : length Y_two_bins = (2 * 2)%nat) by reflexivity.
  assert (H2 : (1 < 2)%nat) by lia.
  assert (H3 : (1 <= G.N_grid_s cfg_G_example)%Z) by (simpl; lia).
  assert (H4 : 0 <= G.lambda_laser cfg_G_example) by (simpl; lra).
  repeat (split; [assumption|]).
  destruct (X9_energy_change_is_plotted_force cfg_G_example 0 Y_two_bins 2 1
              H1 H2 H3 H4) as (rho & dYdz & A & B & _).
  exists rho, dYdz. split; [exact A | exact B].
Defined.

(** ** Variant H: phases up to whole turns *)







Lemma bind_ext {A B : Type} (m : result A) (k k' : A -> result B) :
  (forall a, k a = k' a) -> bind m k = bind m k'.
Proof. intros Hk. destruct m as [e|a]; [reflexivity | apply Hk]. Qed.




(** ** Variant H: the ensemble as a collection *)

Lemma Rsum_perm (l l' : list R) : Permutation l l' -> Np.Rsum l = Np.Rsum l'.
Proof.
  induction 1 as [|x l l' HP IH|x y l|l l' l'' H1 IH1 H2 IH2].
  - reflexivity.
  - cbn [Np.Rsum fold_right]. fold (Np.Rsum l). fold (Np.Rsum l').
    now rewrite IH.
  - cbn [Np.Rsum fold_right]. fold (Np.Rsum l). ring.
  - now rewrite IH1.
Qed.

(** X11.  In Variant H the bunching spectrum, and with it the field felt
    at any given phase, depends on the phases as a collection only:
    reordering the particles changes neither. *)
Theorem X11_bunching_ignores_particle_order (cfg : H.Config)
        (theta theta' : list R) (phase : R) :
  Permutation theta theta' ->
  H.bn_array cfg theta' = H.bn_array cfg theta
  /\ harmonic_sum (Z.to_nat (H.N_harmonics_Ez cfg)) theta' phase
     = harmonic_sum (Z.to_nat (H.N_harmonics_Ez cfg)) theta phase.
Proof.
  intros HP.
  assert (Hb : forall n, bunching_factor n theta' = bunching_factor n theta).
  { intros n. unfold bunching_factor.
    rewrite (Permutation_length HP).
    rewrite (Rsum_perm _ _ (Permutation_map (fun th => cos (INR n * th)) HP)).
    reflexivity. }
  split.
  - unfold H.bn_array. apply bind_ext. intros _. f_equal.
    apply map_ext. intros n. now rewrite !mean_cos_bunching.
  - unfold harmonic_sum. f_equal. apply map_ext. intros n. now rewrite Hb.
Qed.

Lemma X11_bunching_ignores_particle_order_witness :
  Permutation [1; 2; 3] [3; 1; 2]
  /\ H.bn_array cfg_H_example [3; 1; 2] = H.bn_array cfg_H_example [1; 2; 3].
Proof.
  assert (H : Permutation [1; 2; 3] [3; 1; 2]).
  { apply (Permutation_cons_app [3] [2] 1). apply perm_swap. }
  split; [exact H|].
  exact (proj1 (X11_bunching_ignores_particle_order cfg_H_example _ _ 0 H)).
Defined.

(** ** Variant H: the field recomputed for the plots *)

Lemma Ez_plot_loop_rounds (N_h : nat) (theta : list R) (m : nat) :
  (m <= N_h)%nat ->
  fold_left (H.Ez_plot_loop_body
               (map (fun k => bunching_factor k theta) (seq 1 N_h)) theta)
            (seq 1 m) (Ok (repeat 0 (length theta)))
  = Ok (map (fun th => - harmonic_sum m theta th) theta).
Proof.
  induction m as [|m IH]; intros Hm.
  - cbn [seq fold_left]. f_equal. rewrite repeat_as_map.
    apply map_ext. intros th. unfold harmonic_sum.
    cbn [seq map Np.Rsum fold_right]. ring.
  - rewrite seq_S, fold_left_app, IH by lia.
    cbn [fold_left Nat.add]. unfold H.Ez_plot_loop_body. cbn [bind Ok].
    rewrite nth_bunching by lia.
    set (b := bunching_factor (S m) theta).
    assert (Hadd :
      Np.iadd (map (fun th => - harmonic_sum m theta th) theta)
              (map (fun th => - (b / INR (S m)) * sin (INR (S m) * th)) theta)
      = Ok (map (fun th => - harmonic_sum (S m) theta th) theta)).
    { unfold Np.iadd. rewrite broadcast_to_same by (now rewrite !length_map).
      cbn [bind Ok]. rewrite map2_Rplus_map. f_equal.
      apply map_ext. intros th. rewrite harmonic_sum_S. fold b. ring. }
    unfold H.bn_differs_from_zero. rewrite nth_bunching by lia. fold b.
    destruct theta as [|th0 theta']; [exact Hadd|].
    unfold Np.Reqb. destruct (Req_dec_T b 0) as [Hb|Hb]; cbn [negb andb].
    + f_equal. apply map_ext. intros th. rewrite harmonic_sum_S.
      fold b. rewrite Hb. unfold Rdiv. ring.
    + exact Hadd.
Qed.

Lemma Ez_particles_plot_ok (cfg : H.Config) (theta : list R) :
  (0 <= H.N_harmonics_Ez cfg)%Z ->
  H.N_particles cfg = Z.of_nat (length theta) ->
  H.Ez_particles_plot cfg theta
  = Ok (map (fun th => - H.Ez_const_factor cfg
                       * harmonic_sum (Z.to_nat (H.N_harmonics_Ez cfg)) theta th)
            theta).
Proof.
  intros HN HP. unfold H.Ez_particles_plot.
  rewrite bn_array_ok by assumption. cbn [bind Ok].
  unfold Np.zeros. rewrite HP.
  destruct (Z.ltb_spec (Z.of_nat (length theta)) 0) as [Hlt|_]; [lia|].
  rewrite Nat2Z.id.
  change (@inr exn (list R) (repeat 0 (length theta)))
    with (Ok (repeat 0 (length theta))).
  rewrite Ez_plot_loop_rounds by apply Nat.le_refl.
  cbn [bind Ok]. rewrite map_map. f_equal. apply map_ext. intros th. ring.
Qed.

(** X12.  In Variant H the field recomputed for the force plot from the
    raw phases of a snapshot is the field the right-hand side uses, and
    the energy derivative of every particle is the plotted force proxy
    [-e * Ez] divided by [gamma_ref * m_e * c^2]. *)
Theorem X12_plotted_force_drives_energy (cfg : H.Config) (z : R)
        (Y : list R) (n : nat) :
  length Y = (2 * n)%nat ->
  (0 <= H.N_harmonics_Ez cfg)%Z ->
  H.N_particles cfg = Z.of_nat n ->
  let theta_plot_raw := Np.slice_odd Y in
  H.Ez_particles_plot cfg theta_plot_raw = H.Ez_particles cfg theta_plot_raw
  /\ exists force_proxy_plot dYdz,
       H.force_proxy_plot cfg theta_plot_raw = Ok force_proxy_plot
       /\ length force_proxy_plot = n
       /\ H.collective_ode cfg z Y = Ok dYdz
       /\ forall i, (i < n)%nat ->
            nth (2 * i) dYdz 0
            = nth i force_proxy_plot 0
              / (H.gamma_ref cfg * H.m_e cfg * (H.c cfg) ^ 2).
Proof.
  intros HY HNh HNp theta.
  pose proof (slice_odd_length n Y HY) as HO.
  pose proof (slice_even_length n Y HY) as HE.
  assert (HP : H.N_particles cfg = Z.of_nat (length theta))
    by (unfold theta; now rewrite HO).
  split.
  - now rewrite Ez_particles_plot_ok, Ez_particles_ok.
  - unfold H.force_proxy_plot. rewrite Ez_particles_plot_ok by assumption.
    cbn [bind Ok]. eexists. eexists.
    split; [reflexivity|].
    split; [unfold theta; now rewrite !length_map|].
    split; [apply (collective_ode_layout cfg z Y n HNh HNp HY)|].
    intros i Hi.
    rewrite nth_interleave_even by (rewrite !length_map; lia).
    fold theta. rewrite map_map.
    rewrite !(nth_map_lt _ theta 0) by (unfold theta; lia).
    unfold H.eta_change_factor, Rdiv. ring.
Qed.

Lemma X12_plotted_force_drives_energy_witness :
  length Y_example = (2 * 4)%nat
  /\ (0 <= H.N_harmonics_Ez cfg_H_example)%Z
  /\ H.N_particles cfg_H_example = Z.of_nat 4
  /\ H.Ez_particles_plot cfg_H_example (Np.slice_odd Y_example)
     = H.Ez_particles cfg_H_example (Np.slice_odd Y_example).
Proof.
  assert (H1 : length Y_example = (2 * 4)%nat) by reflexivity.
  assert (H2 : (0 <= H.N_harmonics_Ez cfg_H_example)%Z) by (simpl; lia).
  assert (H3 : H.N_particles cfg_H_example = Z.of_nat 4) by reflexivity.
  split; [exact H1 | split; [exact H2 | split; [exact H3 |]]].
  exact (proj1 (X12_plotted_force_drives_energy cfg_H_example 0 Y_example 4
                  H1 H2 H3)).
Defined.

(** ** Variant H: bounds *)

Lemma Rsum_cos_bound (n : nat) (theta : list R) :
  Rabs (Np.Rsum (map (fun th => cos (INR n * th)) theta)) <= INR (length theta).
Proof.
  induction theta as [|a l IH].
  - cbn [map Np.Rsum fold_right length]. rewrite Rabs_R0. simpl. lra.
  - cbn [map Np.Rsum fold_right]. fold (Np.Rsum (map (fun th => cos (INR n * th)) l)).
    change (length (a :: l)) with (S (length l)). rewrite S_INR.
    eapply Rle_trans; [apply Rabs_triang|].
    pose proof (COS_bound (INR n * a)) as [Hlo Hhi].
    assert (Rabs (cos (INR n * a)) <= 1) by (apply Rabs_le; lra).
    lra.
Qed.

Lemma bunching_factor_bound (n : nat) (theta : list R) :
  theta <> [] -> Rabs (bunching_factor n theta) <= 1.
Proof.
  intros Hne. unfold bunching_factor.
  assert (HN : 0 < INR (length theta)).
  { apply lt_0_INR. destruct theta; [contradiction | simpl; lia]. }
  unfold Rdiv. rewrite Rabs_mult, (Rabs_pos_eq (/ INR (length theta)))
    by (left; now apply Rinv_0_lt_compat).
  apply (Rmult_le_reg_r (INR (length theta))); [exact HN|].
  rewrite Rmult_assoc, Rinv_l, Rmult_1_r, Rmult_1_l by lra.
  apply Rsum_cos_bound.
Qed.

Lemma harmonic_sum_bound (N_h : nat) (theta : list R) (phase : R) :
  theta <> [] ->
  Rabs (harmonic_sum N_h theta phase) <= harmonic_number N_h.
Proof.
  intros Hne. induction N_h as [|m IH].
  - unfold harmonic_sum, harmonic_number.
    cbn [seq map Np.Rsum fold_right]. rewrite Rabs_R0. lra.
  - rewrite harmonic_sum_S. unfold harmonic_number.
    rewrite seq_S, map_app. cbn [map Nat.add]. rewrite Rsum_snoc.
    fold (harmonic_number m).
    eapply Rle_trans; [apply Rabs_triang|].
    apply Rplus_le_compat; [exact IH|].
    assert (Hm : 0 < INR (S m)) by (apply lt_0_INR; lia).
    pose proof (bunching_factor_bound (S m) theta Hne) as Hb.
    pose proof (SIN_bound (INR (S m) * phase)) as [Hlo Hhi].
    assert (Hs : Rabs (sin (INR (S m) * phase)) <= 1) by (apply Rabs_le; lra).
    unfold Rdiv. rewrite !Rabs_mult, (Rabs_pos_eq (/ INR (S m)))
      by (left; now apply Rinv_0_lt_compat).
    assert (Hi : 0 < / INR (S m)) by now apply Rinv_0_lt_compat.
    pose proof (Rabs_pos (bunching_factor (S m) theta)).
    pose proof (Rabs_pos (sin (INR (S m) * phase))).
    rewrite Rmult_1_l.
    assert (Rabs (bunching_factor (S m) theta) * / INR (S m) <= / INR (S m))
      by nra.
    nra.
Qed.

(** X13.  In Variant H, for a non-empty ensemble, every bunching factor
    lies in [[-1, 1]], and the field at every particle is bounded in size
    by [|Ez_const_factor| * (1 + 1/2 + ... + 1/N_h)], wherever the
    particles are. *)
Theorem X13_field_is_bounded (cfg : H.Config) (theta : list R) :
  theta <> [] ->
  (0 <= H.N_harmonics_Ez cfg)%Z ->
  H.N_particles cfg = Z.of_nat (length theta) ->
  (exists bn, H.bn_array cfg theta = Ok bn
              /\ Forall (fun b => -1 <= b <= 1) bn)
  /\ exists Ez, H.Ez_particles cfg theta = Ok Ez
                /\ Forall (fun E =>
                             Rabs E <= Rabs (H.Ez_const_factor cfg)
                                       * harmonic_number
                                           (Z.to_nat (H.N_harmonics_Ez cfg)))
                          Ez.
Proof.
  intros Hne HNh HNp. split.
  - eexists. split; [now apply bn_array_ok|].
    apply Forall_forall. intros b Hb. apply in_map_iff in Hb.
    destruct Hb as (n & <- & _).
    pose proof (bunching_factor_bound n theta Hne) as B.
    unfold Rabs in B. destruct (Rcase_abs (bunching_factor n theta)); lra.
  - eexists. split; [now apply Ez_particles_ok|].
    apply Forall_forall. intros E HE. apply in_map_iff in HE.
    destruct HE as (th & <- & _).
    rewrite Rabs_mult, Rabs_Ropp.
    apply Rmult_le_compat_l; [apply Rabs_pos|].
    now apply harmonic_sum_bound.
Qed.

Lemma X13_field_is_bounded_witness :
  phases4 <> []
  /\ (0 <= H.N_harmonics_Ez cfg_H_example)%Z
  /\ H.N_particles cfg_H_example = Z.of_nat (length phases4)
  /\ exists bn, H.bn_array cfg_H_example phases4 = Ok bn
                /\ Forall (fun b => -1 <= b <= 1) bn.
Proof.
  assert (H1 : phases4 <> []) by discriminate.
  assert (H2 : (0 <= H.N_harmonics_Ez cfg_H_example)%Z) by (simpl; lia).
  assert (H3 : H.N_particles cfg_H_example = Z.of_nat (length phases4))
    by reflexivity.
  split; [exact H1 | split; [exact H2 | split; [exact H3 |]]].
  exact (proj1 (X13_field_is_bounded cfg_H_example phases4 H1 H2 H3)).
Defined.

(** ** The initial distributions *)

Lemma map2_ext {A B C : Type} (f g : A -> B -> C) (l : list A) (m : list B) :
  (forall a b, f a b = g a b) -> Np.map2 f l m = Np.map2 g l m.
Proof.
  intros Hfg. revert m; induction l as [|a l IH]; intros [|b m];
    try reflexivity.
  cbn [Np.map2]. now rewrite Hfg, IH.
Qed.

Lemma Forall_map2 {A B C : Type} (P : C -> Prop) (f : A -> B -> C)
      (l : list A) (m : list B) :
  (forall a b, P (f a b)) -> Forall P (Np.map2 f l m).
Proof.
  intros HP. revert m; induction l as [|a l IH]; intros [|b m];
    try constructor; [apply HP | apply IH].
Qed.

Lemma map_map2 {A B C D : Type} (g : C -> D) (f : A -> B -> C)
      (l : list A) (m : list B) :
  map g (Np.map2 f l m) = Np.map2 (fun a b => g (f a b)) l m.
Proof.
  revert m; induction l as [|a l IH]; intros [|b m]; try reflexivity.
  cbn [Np.map2 map]. now rewrite IH.
Qed.

Lemma same_phases_refl (theta : list R) : same_phases theta theta.
Proof.
  induction theta as [|a l IH]; constructor; [|exact IH].
  exists 0%Z. ring.
Qed.

Lemma same_phases_map2 (f g : R -> R -> R) (l m : list R) :
  (forall a b, exists k : Z, g a b = f a b + 2 * IZR k * PI) ->
  same_phases (Np.map2 f l m) (Np.map2 g l m).
Proof.
  intros Hfg. revert m; induction l as [|a l IH]; intros [|b m];
    try constructor; [apply Hfg | apply IH].
Qed.

Lemma mod_turns (x : R) : exists k : Z, Np.mod_ x (2 * PI) = x + 2 * IZR k * PI.
Proof.
  exists (- Zfloor (x / (2 * PI)))%Z. unfold Np.mod_. rewrite opp_IZR. ring.
Qed.

(** X14.  When no module-level division has a zero divisor, the harmonic
    script reaches [solve_ivp] with an initial state of 2N entries that
    interleaves the modulated energies [eta0 + A_mod * sin(theta0)] with
    phases in [[0, 2 * pi)]; each initial phase is
    [theta0 + k_laser * R56 * eta1] up to a whole number of turns. *)
Theorem X14_initial_state_of_harmonic_script (cfg : H.Config)
        (eta0 theta0 : list R) (n : nat) :
  H_parameters_ok cfg ->
  H.N_particles cfg = Z.of_nat n ->
  length eta0 = n -> length theta0 = n ->
  let eta1 := Np.map2 (fun eta0 theta0 => eta0 + H.A_mod cfg * sin theta0)
                      eta0 theta0 in
  exists Y0,
    H.module_level cfg eta0 theta0 = Ok (H_globals cfg Y0)
    /\ length Y0 = (2 * n)%nat
    /\ Np.slice_even Y0 = eta1
    /\ same_phases
         (Np.map2 (fun theta1 eta1 => theta1 + H.k_laser cfg * H.R56 cfg * eta1)
                  theta0 eta1)
         (Np.slice_odd Y0)
    /\ Forall (fun theta => 0 <= theta < 2 * PI) (Np.slice_odd Y0).
Proof.
  intros Hok HN He Ht eta1.
  assert (Hs : 0 <= H.sigma_eta0_rel cfg)
    by (destruct Hok as (_ & _ & _ & Hs & _); lra).
  assert (L1 : length eta1 = n) by (unfold eta1; rewrite map2_length; lia).
  set (theta_init :=
         Np.map2 (fun theta1 eta1 =>
                    Np.mod_ (Np.mod_ (theta1 + H.k_laser cfg * H.R56 cfg * eta1)
                                     (2 * PI))
                            (2 * PI))
                 theta0 eta1).
  assert (L2 : length theta_init = n)
    by (unfold theta_init; rewrite map2_length; lia).
  exists (interleave eta1 theta_init).
  split.
  { rewrite (module_level_ok cfg eta0 theta0 Hok).
    now rewrite (initial_state_ok cfg eta0 theta0 n Hs HN He Ht). }
  split; [rewrite interleave_length; lia|].
  split; [apply slice_even_interleave; lia|].
  rewrite slice_odd_interleave by lia.
  split.
  - apply same_phases_map2. intros a b.
    destruct (mod_turns (a + H.k_laser cfg * H.R56 cfg * b)) as (k1 & E1).
    destruct (mod_turns (Np.mod_ (a + H.k_laser cfg * H.R56 cfg * b) (2 * PI)))
      as (k2 & E2).
    exists (k1 + k2)%Z. rewrite E2, E1, plus_IZR. ring.
  - apply Forall_map2. intros a b. pose proof PI_RGT_0.
    apply mod_range. lra.
Qed.

Lemma X14_initial_state_of_harmonic_script_witness :
  H_parameters_ok cfg_H_example
  /\ H.N_particles cfg_H_example = Z.of_nat 4
  /\ length [0; 0; 0; 0] = 4%nat
  /\ length phases4 = 4%nat
  /\ exists Y0,
       H.module_level cfg_H_example [0; 0; 0; 0] phases4
       = Ok (H_globals cfg_H_example Y0)
       /\ length Y0 = 8%nat
       /\ Forall (fun theta => 0 <= theta < 2 * PI) (Np.slice_odd Y0).
Proof.
  assert (H0 : H_parameters_ok cfg_H_example)
    by (unfold H_parameters_ok; simpl; repeat split; lra).
  assert (H1 : H.N_particles cfg_H_example = Z.of_nat 4) by reflexivity.
  assert (H2 : length [0; 0; 0; 0] = 4%nat) by reflexivity.
  assert (H3 : length phases4 = 4%nat) by reflexivity.
  split; [exact H0 | split; [exact H1 | split; [exact H2 | split; [exact H3 |]]]].
  destruct (X14_initial_state_of_harmonic_script cfg_H_example [0; 0; 0; 0]
              phases4 4 H0 H1 H2 H3) as (Y0 & A & L & _ & _ & B).
  exists Y0. split; [exact A | split; [exact L | exact B]].
Defined.

Lemma position_to_phase (lambda theta Rr eta : R) :
  0 < lambda ->
  Np.mod_ (theta / (2 * PI / lambda) + Rr * eta) lambda * (2 * PI / lambda)
  = Np.mod_ (theta + 2 * PI / lambda * Rr * eta) (2 * PI).
Proof.
  intros HL. pose proof PI_RGT_0 as HPI. unfold Np.mod_.
  replace ((theta / (2 * PI / lambda) + Rr * eta) / lambda)
    with ((theta + 2 * PI / lambda * Rr * eta) / (2 * PI))
    by (field; lra).
  field. lra.
Qed.

Lemma s_grid_ok (cfg : G.Config) :
  (0 <= G.N_grid_s cfg)%Z -> exists points, G.s_grid cfg = Ok points.
Proof.
  intros Hn. unfold G.s_grid, Np.linspace.
  destruct (Z.ltb_spec (G.N_grid_s cfg) 0) as [Hlt|_]; [lia|].
  eexists. reflexivity.
Qed.

(** The grid script reaches [solve_ivp] with the interleaved energies and
    reduced positions as its state. *)
Lemma module_level_fft_state (cfg : G.Config) (eta0 theta0 : list R) (n : nat) :
  G_parameters_ok cfg ->
  (1 <= G.N_grid_s cfg)%Z ->
  (0 < n)%nat ->
  G.N_particles cfg = Z.of_nat n ->
  length eta0 = n -> length theta0 = n ->
  exists points,
    G.module_level cfg eta0 theta0
    = Ok (G_globals cfg points
            (interleave (G.eta_init_ode cfg eta0 theta0)
                        (G.s_init_ode cfg eta0 theta0))).
Proof.
  intros Hok HNg Hn HN He Ht.
  assert (Hs : 0 <= G.sigma_eta0_rel cfg)
    by (destruct Hok as (_ & _ & _ & Hs & _); lra).
  destruct (s_grid_ok cfg) as (points & Hgrid); [lia|].
  exists points.
  rewrite (module_level_fft_ok cfg eta0 theta0 Hok) by lia.
  rewrite Hgrid. cbn [bind Ok].
  now rewrite (initial_state_fft_ok cfg eta0 theta0 n Hs HN He Ht).
Qed.

(** X15.  For the same draws (of at least one particle) and the same
    laser wavelength, energy spread and modulation ratio, both scripts
    reach [solve_ivp] with the same ensemble: the same energies, and
    phases that agree up to whole turns, the phase of the grid script
    being [theta_init_ode = s_init_ode * k_laser] of its stored positions
    (as the comment at that line of the grid script expects).  The stored
    positions lie within the range [[0, lambda]] of the histogram. *)
Theorem X15_both_scripts_start_alike (cfgH : H.Config) (cfgG : G.Config)
        (eta0 theta0 : list R) (n : nat) :
  (0 < n)%nat ->
  H_parameters_ok cfgH ->
  G_parameters_ok cfgG ->
  (1 <= G.N_grid_s cfgG)%Z ->
  0 < G.lambda_laser cfgG ->
  H.lambda_laser cfgH = G.lambda_laser cfgG ->
  H.sigma_eta0_rel cfgH = G.sigma_eta0_rel cfgG ->
  H.A_mod_over_sigma_eta0 cfgH = G.A_mod_over_sigma_eta0 cfgG ->
  H.N_particles cfgH = Z.of_nat n ->
  G.N_particles cfgG = Z.of_nat n ->
  length eta0 = n -> length theta0 = n ->
  exists YH YG points,
    H.module_level cfgH eta0 theta0 = Ok (H_globals cfgH YH)
    /\ G.module_level cfgG eta0 theta0 = Ok (G_globals cfgG points YG)
    /\ Np.slice_even YH = Np.slice_even YG
    /\ Forall (fun s => 0 <= s <= G.lambda_laser cfgG) (Np.slice_odd YG)
    /\ G.theta_init_ode cfgG eta0 theta0
       = map (fun s => s * G.k_laser cfgG) (Np.slice_odd YG)
    /\ same_phases (G.theta_init_ode cfgG eta0 theta0) (Np.slice_odd YH).
Proof.
  intros Hpos HokH HokG HNg HL El Es Ea HNH HNG He Ht.
  assert (EA : H.A_mod cfgH = G.A_mod cfgG)
    by (unfold H.A_mod, G.A_mod; now rewrite Ea, Es).
  assert (EK : H.k_laser cfgH = G.k_laser cfgG)
    by (unfold H.k_laser, G.k_laser; now rewrite El).
  assert (ER : H.R56 cfgH = G.R56 cfgG)
    by (unfold H.R56, G.R56, H.B_hghg, G.B_hghg; now rewrite EK, Ea, Es).
  assert (HsH : 0 <= H.sigma_eta0_rel cfgH)
    by (destruct HokH as (_ & _ & _ & Hs & _); lra).
  set (eta1 := G.eta_init_ode cfgG eta0 theta0).
  set (s_init := G.s_init_ode cfgG eta0 theta0).
  assert (L1 : length eta1 = n)
    by (unfold eta1, G.eta_init_ode; rewrite map2_length; lia).
  assert (L2 : length s_init = n).
  { unfold s_init, G.s_init_ode, G.s_init_ode_raw.
    rewrite length_map, map2_length; fold eta1; lia. }
  destruct (module_level_fft_state cfgG eta0 theta0 n HokG HNg Hpos HNG He Ht)
    as (points & HG).
  fold eta1 in HG. fold s_init in HG.
  assert (Hphase : map (fun s => s * G.k_laser cfgG) s_init
                   = Np.map2 (fun theta1 e1 =>
                        Np.mod_ (Np.mod_ (theta1 + H.k_laser cfgH * H.R56 cfgH * e1)
                                         (2 * PI))
                                (2 * PI))
                      theta0 eta1).
  { unfold s_init, G.s_init_ode, G.s_init_ode_raw. fold eta1.
    rewrite map_map, map_map2. apply map2_ext. intros theta1 e1.
    rewrite EK, ER. unfold G.k_laser, G.period_length_s.
    rewrite (position_to_phase _ _ _ _ HL).
    symmetry. pose proof PI_RGT_0.
    apply mod_small, mod_range. lra. }
  eexists. exists (interleave eta1 s_init), points.
  split.
  { rewrite (module_level_ok cfgH eta0 theta0 HokH).
    now rewrite (initial_state_ok cfgH eta0 theta0 n HsH HNH He Ht). }
  rewrite EA. fold (G.eta_init_ode cfgG eta0 theta0). fold eta1.
  split; [exact HG|].
  rewrite !slice_even_interleave, !slice_odd_interleave
    by (rewrite ?map2_length; lia).
  split; [reflexivity|]. split.
  - unfold s_init, G.s_init_ode. apply Forall_forall. intros s Hs.
    apply in_map_iff in Hs. destruct Hs as (x & <- & _).
    pose proof (mod_range x (G.period_length_s cfgG) HL) as Hr.
    unfold G.period_length_s in *. lra.
  - unfold G.theta_init_ode. fold s_init.
    split; [reflexivity|].
    rewrite Hphase. apply same_phases_refl.
Qed.

Lemma X15_both_scripts_start_alike_witness :
  (0 < 4)%nat
  /\ H_parameters_ok cfg_H_one_harmonic
  /\ G_parameters_ok cfg_G_four_particles
  /\ (1 <= G.N_grid_s cfg_G_four_particles)%Z
  /\ 0 < G.lambda_laser cfg_G_four_particles
  /\ H.lambda_laser cfg_H_one_harmonic = G.lambda_laser cfg_G_four_particles
  /\ H.sigma_eta0_rel cfg_H_one_harmonic = G.sigma_eta0_rel cfg_G_four_particles
  /\ H.A_mod_over_sigma_eta0 cfg_H_one_harmonic
     = G.A_mod_over_sigma_eta0 cfg_G_four_particles
  /\ H.N_particles cfg_H_one_harmonic = Z.of_nat 4
  /\ G.N_particles cfg_G_four_particles = Z.of_nat 4
  /\ length [0; 0; 0; 0] = 4%nat
  /\ length phases4 = 4%nat
  /\ exists YH YG points,
       H.module_level cfg_H_one_harmonic [0; 0; 0; 0] phases4
       = Ok (H_globals cfg_H_one_harmonic YH)
       /\ G.module_level cfg_G_four_particles [0; 0; 0; 0] phases4
          = Ok (G_globals cfg_G_four_particles points YG)
       /\ Np.slice_even YH = Np.slice_even YG
       /\ same_phases (G.theta_init_ode cfg_G_four_particles [0; 0; 0; 0] phases4)
                      (Np.slice_odd YH).
Proof.
  assert (H0 : (0 < 4)%nat) by lia.
  assert (Ha : H_parameters_ok cfg_H_one_harmonic)
    by (unfold H_parameters_ok; simpl; repeat split; lra).
  assert (Hb : G_parameters_ok cfg_G_four_particles)
    by (unfold G_parameters_ok; simpl; repeat split; lra).
  assert (Hc : (1 <= G.N_grid_s cfg_G_four_particles)%Z) by (simpl; lia).
  assert (H1 : 0 < G.lambda_laser cfg_G_four_particles) by (simpl; lra).
  assert (H2 : H.lambda_laser cfg_H_one_harmonic
               = G.lambda_laser cfg_G_four_particles) by reflexivity.
  assert (H3 : H.sigma_eta0_rel cfg_H_one_harmonic
               = G.sigma_eta0_rel cfg_G_four_particles) by reflexivity.
  assert (H4 : H.A_mod_over_sigma_eta0 cfg_H_one_harmonic
               = G.A_mod_over_sigma_eta0 cfg_G_four_particles) by reflexivity.
  assert (H5 : H.N_particles cfg_H_one_harmonic = Z.of_nat 4) by reflexivity.
  assert (H6 : G.N_particles cfg_G_four_particles = Z.of_nat 4) by reflexivity.
  assert (H7 : length [0; 0; 0; 0] = 4%nat) by reflexivity.
  assert (H8 : length phases4 = 4%nat) by reflexivity.
  repeat (split; [assumption|]).
  destruct (X15_both_scripts_start_alike cfg_H_one_harmonic
              cfg_G_four_particles [0; 0; 0; 0] phases4 4
              H0 Ha Hb Hc H1 H2 H3 H4 H5 H6 H7 H8)
    as (YH & YG & points & A & B & C & _ & _ & D).
  exists YH, YG, points.
  split; [exact A | split; [exact B | split; [exact C | exact D]]].
Defined.

(** ** The grid points *)

(** X16.  The grid points [s_grid] are the lower edges of the bins, not
    their centres: there are [N_grid_s] of them and point [j] is
    [j * ds_grid]; on the abscissa of the plots, [s_grid * k_laser /
    (2 * pi)], point [j] sits at [j / N_grid_s]. *)
Theorem X16_grid_points_are_bin_edges (cfg : G.Config) (j : nat) :
  G.lambda_laser cfg <> 0 ->
  (Z.of_nat j < G.N_grid_s cfg)%Z ->
  exists points,
    G.s_grid cfg = Ok points
    /\ length points = Z.to_nat (G.N_grid_s cfg)
    /\ nth j points 0 = INR j * G.ds_grid cfg
    /\ nth j points 0 * G.k_laser cfg / (2 * PI)
       = INR j / IZR (G.N_grid_s cfg).
Proof.
  intros HL Hj.
  assert (Hn : (1 <= G.N_grid_s cfg)%Z) by lia.
  assert (HN : IZR (G.N_grid_s cfg) <> 0) by (apply not_0_IZR; lia).
  unfold G.s_grid, Np.linspace.
  destruct (Z.ltb_spec (G.N_grid_s cfg) 0) as [Hlt|_]; [lia|].
  eexists. split; [reflexivity|].
  split; [now rewrite length_map, length_seq|].
  assert (Hpt :
    nth j (map (fun j0 =>
                  if (1 <? G.N_grid_s cfg)%Z
                     && (Z.of_nat j0 =? G.N_grid_s cfg - 1)%Z
                  then G.period_length_s cfg - G.ds_grid cfg
                  else 0 + INR j0 * ((G.period_length_s cfg - G.ds_grid cfg - 0)
                                     / IZR (G.N_grid_s cfg - 1)))
               (seq 0 (Z.to_nat (G.N_grid_s cfg)))) 0
    = INR j * G.ds_grid cfg).
  { rewrite nth_map_seq by lia.
    destruct (Z.ltb_spec 1 (G.N_grid_s cfg)) as [H2|H1]; cbn [andb].
    - assert (HN1 : IZR (G.N_grid_s cfg - 1) <> 0) by (apply not_0_IZR; lia).
      destruct (Z.eqb_spec (Z.of_nat j) (G.N_grid_s cfg - 1)) as [E|NE].
      + rewrite INR_IZR_INZ, E, minus_IZR.
        unfold G.ds_grid, G.period_length_s. field. exact HN.
      + rewrite minus_IZR in *. unfold G.ds_grid, G.period_length_s.
        field. split; assumption.
    - assert (j = 0%nat) by lia. subst j. simpl INR. ring. }
  split; [exact Hpt|].
  rewrite Hpt. pose proof PI_RGT_0.
  unfold G.ds_grid, G.k_laser, G.period_length_s. field.
  repeat split; try assumption; lra.
Qed.

Lemma X16_grid_points_are_bin_edges_witness :
  G.lambda_laser cfg_G_example <> 0
  /\ (Z.of_nat 3 < G.N_grid_s cfg_G_example)%Z
  /\ exists points,
       G.s_grid cfg_G_example = Ok points
       /\ length points = 4%nat
       /\ nth 3 points 0 = INR 3 * G.ds_grid cfg_G_example.
Proof.
  assert (H1 : G.lambda_laser cfg_G_example <> 0) by (simpl; lra).
  assert (H2 : (Z.of_nat 3 < G.N_grid_s cfg_G_example)%Z) by (simpl; lia).
  split; [exact H1 | split; [exact H2 |]].
  destruct (X16_grid_points_are_bin_edges cfg_G_example 3 H1 H2)
    as (points & A & L & B & _).
  exists points. split; [exact A | split; [exact L | exact B]].
Defined.

(** ** The history of the energy spread *)

Lemma Rsum_nonneg (l : list R) : Forall (fun x => 0 <= x) l -> 0 <= Np.Rsum l.
Proof.
  induction 1 as [|x l Hx Hl IH]; cbn [Np.Rsum fold_right]; [lra|].
  fold (Np.Rsum l). lra.
Qed.

Lemma Rsum_all (v : R) (l : list R) :
  Forall (fun x => x = v) l -> Np.Rsum l = INR (length l) * v.
Proof.
  induction 1 as [|x l Hx Hl IH].
  - cbn [Np.Rsum fold_right length]. simpl INR. ring.
  - cbn [Np.Rsum fold_right]. fold (Np.Rsum l).
    change (length (x :: l)) with (S (length l)). rewrite S_INR, IH, Hx. ring.
Qed.

Lemma std_nonneg (l : list R) : 0 <= Np.std l.
Proof. unfold Np.std. apply sqrt_pos. Qed.

Lemma std_of_equal_values (v : R) (l : list R) :
  l <> [] -> Forall (fun x => x = v) l -> Np.std l = 0.
Proof.
  intros Hne Hall.
  assert (HN : INR (length l) <> 0).
  { apply not_0_INR. destruct l; [contradiction | discriminate]. }
  assert (Hm : Np.mean l = v).
  { unfold Np.mean. rewrite (Rsum_all v l Hall). field. exact HN. }
  unfold Np.std. rewrite Hm.
  replace (Np.mean (map (fun x => (x - v) * (x - v)) l)) with 0;
    [apply sqrt_0|].
  unfold Np.mean. rewrite (Rsum_all 0).
  - rewrite length_map. field. exact HN.
  - apply Forall_forall. intros y Hy. apply in_map_iff in Hy.
    destruct Hy as (x & <- & Hx).
    rewrite Forall_forall in Hall. rewrite (Hall x Hx). ring.
Qed.

(** X17.  With more than 10 particles and a positive initial spread, the
    history entry of every snapshot of a non-empty trajectory is a number
    that is never negative, in both variants, and it is zero for a
    snapshot in which all particles have the same energy. *)
Theorem X17_spread_history_is_nonnegative (cfgH : H.Config) (cfgG : G.Config)
        (sol_t : list R) (sol_y : list (list R)) (i : nat) (v : R) :
  (i < length sol_t)%nat ->
  Np.slice_even sol_y <> [] ->
  (10 < H.N_particles cfgH)%Z -> 0 < H.sigma_eta0_rel cfgH ->
  (10 < G.N_particles cfgG)%Z -> 0 < G.sigma_eta0_rel cfgG ->
  let eta_snapshot := map (fun row => nth i row 0) (Np.slice_even sol_y) in
  exists xH xG,
    nth_error (H.history_sigma_eta_ode cfgH sol_t sol_y) i = Some (Num xH)
    /\ nth_error (G.history_sigma_eta_ode_fft cfgG sol_t sol_y) i = Some (Num xG)
    /\ 0 <= xH /\ 0 <= xG
    /\ (Forall (fun eta => eta = v) eta_snapshot -> xH = 0 /\ xG = 0).
Proof.
  intros Hi Hne HNH HsH HNG HsG eta_snapshot.
  unfold H.history_sigma_eta_ode, G.history_sigma_eta_ode_fft.
  rewrite !nth_error_map_seq by exact Hi.
  destruct (Z.gtb_spec (H.N_particles cfgH) 10) as [_|Hc]; [|lia].
  destruct (Z.gtb_spec (G.N_particles cfgG) 10) as [_|Hc]; [|lia].
  fold eta_snapshot.
  eexists. eexists. split; [reflexivity|]. split; [reflexivity|].
  pose proof (std_nonneg eta_snapshot) as Hstd.
  assert (HiH : 0 < / H.sigma_eta0_rel cfgH) by now apply Rinv_0_lt_compat.
  assert (HiG : 0 < / G.sigma_eta0_rel cfgG) by now apply Rinv_0_lt_compat.
  split; [unfold Rdiv; nra|]. split; [unfold Rdiv; nra|].
  intros Hall.
  assert (Hsn : eta_snapshot <> []).
  { unfold eta_snapshot. destruct (Np.slice_even sol_y); [contradiction|].
    discriminate. }
  rewrite (std_of_equal_values v eta_snapshot Hsn Hall).
  unfold Rdiv. split; ring.
Qed.

Lemma X17_spread_history_is_nonnegative_witness :
  (1 < length [0; 1; 2])%nat
  /\ Np.slice_even [[1; 2; 3]; [0; 0; 0]] <> []
  /\ (10 < H.N_particles cfg_H_eleven)%Z /\ 0 < H.sigma_eta0_rel cfg_H_eleven
  /\ (10 < G.N_particles cfg_G_eleven)%Z /\ 0 < G.sigma_eta0_rel cfg_G_eleven
  /\ exists xH xG,
       nth_error (H.history_sigma_eta_ode cfg_H_eleven [0; 1; 2]
                    [[1; 2; 3]; [0; 0; 0]]) 1 = Some (Num xH)
       /\ nth_error (G.history_sigma_eta_ode_fft cfg_G_eleven [0; 1; 2]
                       [[1; 2; 3]; [0; 0; 0]]) 1 = Some (Num xG)
       /\ 0 <= xH /\ 0 <= xG.
Proof.
  assert (H1 : (1 < length [0; 1; 2])%nat) by (simpl; lia).
  assert (H2 : Np.slice_even [[1; 2; 3]; [0; 0; 0]] <> []) by discriminate.
  assert (H3 : (10 < H.N_particles cfg_H_eleven)%Z) by (simpl; lia).
  assert (H4 : 0 < H.sigma_eta0_rel cfg_H_eleven) by (simpl; lra).
  assert (H5 : (10 < G.N_particles cfg_G_eleven)%Z) by (simpl; lia).
  assert (H6 : 0 < G.sigma_eta0_rel cfg_G_eleven) by (simpl; lra).
  repeat (split; [assumption|]).
  destruct (X17_spread_history_is_nonnegative cfg_H_eleven cfg_G_eleven
              [0; 1; 2] [[1; 2; 3]; [0; 0; 0]] 1 0 H1 H2 H3 H4 H5 H6)
    as (xH & xG & A & B & C & D & _).
  exists xH, xG. repeat split; assumption.
Defined.

(** ** The plotted current *)

Lemma Rsum_map_IZR (a : R) (l : list Z) :
  Np.Rsum (map (fun cnt => a * IZR cnt) l) = a * IZR (Zsum l).
Proof.
  induction l as [|x l IH].
  - cbn [map Np.Rsum fold_right Zsum]. ring.
  - cbn [map Np.Rsum fold_right].
    fold (Np.Rsum (map (fun cnt => a * IZR cnt) l)).
    rewrite IH, Zsum_cons, plus_IZR. ring.
Qed.

(** X18.  The current profile recomputed for the plots averages, over the
    grid, to minus the configured beam current, whatever the positions of
    the particles are (the plot shows its negative, so the plotted curve
    averages to [I_avg_beam]). *)
Theorem X18_plotted_current_averages_to_beam_current (cfg : G.Config)
        (s_raw : list R) :
  0 < G.lambda_laser cfg ->
  (1 <= G.N_grid_s cfg)%Z ->
  G.c cfg <> 0 ->
  s_raw <> [] ->
  G.N_particles cfg = Z.of_nat (length s_raw) ->
  exists current_s_plot,
    G.current_s_plot cfg
      (map (fun s => Np.mod_ s (G.period_length_s cfg)) s_raw)
    = Ok current_s_plot
    /\ length current_s_plot = Z.to_nat (G.N_grid_s cfg)
    /\ Np.mean current_s_plot = - G.I_avg_beam cfg.
Proof.
  intros HL Hn Hc Hne HN.
  destruct (histogram_of_reduced cfg s_raw HL Hn) as [Hh Hidx].
  set (counts := Np.bincount (G.N_grid_s cfg) _) in Hh.
  assert (Hlen : length counts = Z.to_nat (G.N_grid_s cfg))
    by (unfold counts, Np.bincount; now rewrite length_map, length_seq).
  assert (Hsum : Zsum counts = Z.of_nat (length s_raw))
    by (unfold counts; rewrite Zsum_bincount by exact Hidx;
        now rewrite !length_map).
  unfold G.current_s_plot. rewrite Hh. cbn [bind Ok].
  eexists. split; [reflexivity|].
  split; [now rewrite length_map|].
  unfold Np.mean. rewrite length_map, Hlen.
  rewrite (map_ext _ (fun cnt => (- G.Q_macro cfg * G.c cfg / G.ds_grid cfg)
                                 * IZR cnt))
    by (intros cnt; unfold Rdiv; ring).
  rewrite Rsum_map_IZR, Hsum.
  assert (HNg : IZR (G.N_grid_s cfg) <> 0) by (apply not_0_IZR; lia).
  assert (HNp : IZR (Z.of_nat (length s_raw)) <> 0).
  { apply not_0_IZR. destruct s_raw; [contradiction | simpl; lia]. }
  rewrite INR_IZR_INZ, Z2Nat.id by lia.
  unfold G.Q_macro, G.Q_total_in_one_period, G.T_laser_period, G.ds_grid,
    G.period_length_s. rewrite HN.
  field. repeat split; try assumption; lra.
Qed.

Lemma X18_plotted_current_averages_to_beam_current_witness :
  0 < G.lambda_laser cfg_G_example
  /\ (1 <= G.N_grid_s cfg_G_example)%Z
  /\ G.c cfg_G_example <> 0
  /\ [7; -3] <> []
  /\ G.N_particles cfg_G_example = Z.of_nat (length [7; -3])
  /\ exists current_s_plot,
       G.current_s_plot cfg_G_example
         (map (fun s => Np.mod_ s (G.period_length_s cfg_G_example)) [7; -3])
       = Ok current_s_plot
       /\ Np.mean current_s_plot = - G.I_avg_beam cfg_G_example.
Proof.
  assert (H1 : 0 < G.lambda_laser cfg_G_example) by (simpl; lra).
  assert (H2 : (1 <= G.N_grid_s cfg_G_example)%Z) by (simpl; lia).
  assert (H3 : G.c cfg_G_example <> 0) by (simpl; lra).
  assert (H4 : [7; -3] <> ([] : list R)) by discriminate.
  assert (H5 : G.N_particles cfg_G_example = Z.of_nat (length [7; -3]))
    by reflexivity.
  repeat (split; [assumption|]).
  destruct (X18_plotted_current_averages_to_beam_current cfg_G_example
              [7; -3] H1 H2 H3 H4 H5) as (cur & A & _ & B).
  exists cur. split; [exact A | exact B].
Defined.

(** ** From the module-level code into the right-hand side *)

(** X19.  With at least one particle, each script reaches [solve_ivp]
    whenever no module-level division has a zero divisor and the spread is
    positive (the grid script also needs at least one grid point), and
    only then; the names it has bound hold the values the right-hand side
    reads, and the initial state is accepted by the right-hand side: its
    first evaluation returns a derivative array of the length of the
    state (for a non-negative harmonic count in Variant H and a positive
    wavelength in Variant G). *)
Theorem X19_first_evaluation_succeeds (cfgH : H.Config) (cfgG : G.Config)
        (eta0 theta0 : list R) (n : nat) :
  (0 < n)%nat ->
  H.N_particles cfgH = Z.of_nat n ->
  G.N_particles cfgG = Z.of_nat n ->
  length eta0 = n -> length theta0 = n ->
  (H_parameters_ok cfgH ->
   (0 <= H.N_harmonics_Ez cfgH)%Z ->
   exists Y0 dYdz,
     H.module_level cfgH eta0 theta0 = Ok (H_globals cfgH Y0)
     /\ H.collective_ode cfgH 0 Y0 = Ok dYdz
     /\ length dYdz = length Y0)
  /\ (G_parameters_ok cfgG ->
      (1 <= G.N_grid_s cfgG)%Z ->
      0 < G.lambda_laser cfgG ->
      exists points Y0 dYdz,
        G.module_level cfgG eta0 theta0 = Ok (G_globals cfgG points Y0)
        /\ G.collective_ode_fft cfgG 0 Y0 = Ok dYdz
        /\ length dYdz = length Y0)
  /\ (forall g, H.module_level cfgH eta0 theta0 = Ok g ->
                H_parameters_ok cfgH)
  /\ (forall g, G.module_level cfgG eta0 theta0 = Ok g ->
                G_parameters_ok cfgG /\ (1 <= G.N_grid_s cfgG)%Z).
Proof.
  intros Hpos HNH HNG He Ht.
  split; [|split; [|split]].
  - intros Hok HNh.
    assert (Hs : 0 <= H.sigma_eta0_rel cfgH)
      by (destruct Hok as (_ & _ & _ & Hs & _); lra).
    pose proof (initial_state_ok cfgH eta0 theta0 n Hs HNH He Ht) as HY0.
    cbv zeta in HY0.
    set (Y0 := interleave _ _) in HY0.
    assert (Hlen : length Y0 = (2 * n)%nat).
    { unfold Y0.
      assert (L1 : length (Np.map2 (fun eta0 theta0 =>
                                      eta0 + H.A_mod cfgH * sin theta0)
                                   eta0 theta0) = n)
        by (rewrite map2_length; lia).
      rewrite interleave_length; [rewrite L1; lia|].
      rewrite L1, map2_length; [lia | rewrite L1; lia]. }
    exists Y0. eexists. split; [|split].
    + rewrite (module_level_ok cfgH eta0 theta0 Hok). now rewrite HY0.
    + apply (collective_ode_layout cfgH 0 Y0 n HNh HNH Hlen).
    + rewrite interleave_length; rewrite !length_map.
      * rewrite (slice_odd_length n Y0 Hlen). lia.
      * now rewrite (slice_odd_length n Y0 Hlen), (slice_even_length n Y0 Hlen).
  - intros Hok HNg HL.
    destruct (module_level_fft_state cfgG eta0 theta0 n Hok HNg Hpos HNG He Ht)
      as (points & HG).
    set (eta1 := G.eta_init_ode cfgG eta0 theta0) in *.
    set (s_init := G.s_init_ode cfgG eta0 theta0) in *.
    assert (L1 : length eta1 = n)
      by (unfold eta1, G.eta_init_ode; rewrite map2_length; lia).
    assert (L2 : length s_init = n).
    { unfold s_init, G.s_init_ode, G.s_init_ode_raw.
      rewrite length_map, map2_length; fold eta1; lia. }
    assert (Hlen : length (interleave eta1 s_init) = (2 * n)%nat)
      by (rewrite interleave_length; lia).
    destruct (charge_density_ok cfgG
                (map (fun s => Np.mod_ s (G.period_length_s cfgG))
                     (Np.slice_odd (interleave eta1 s_init)))
                HNg (Rlt_le _ _ HL)) as (rho & Hrho & _).
    exists points, (interleave eta1 s_init). eexists.
    split; [exact HG|]. split.
    + apply (collective_ode_fft_layout cfgG 0 _ n rho Hlen Hrho).
    + rewrite Hlen, interleave_length;
        unfold G.Ez_particles_interp; rewrite !length_map;
        rewrite ?slice_odd_interleave, ?slice_even_interleave by lia; lia.
  - intros g Hg. exact (proj1 (module_level_inv cfgH eta0 theta0 g Hg)).
  - intros g Hg.
    destruct (module_level_fft_inv cfgG eta0 theta0 g Hg)
      as (Hok & _ & HNg & _).
    split; assumption.
Qed.

Lemma X19_first_evaluation_succeeds_witness :
  (0 < 4)%nat
  /\ H.N_particles cfg_H_one_harmonic = Z.of_nat 4
  /\ G.N_particles cfg_G_four_particles = Z.of_nat 4
  /\ length [0; 0; 0; 0] = 4%nat
  /\ length phases4 = 4%nat
  /\ (exists Y0 dYdz,
        H.module_level cfg_H_one_harmonic [0; 0; 0; 0] phases4
        = Ok (H_globals cfg_H_one_harmonic Y0)
        /\ H.collective_ode cfg_H_one_harmonic 0 Y0 = Ok dYdz
        /\ length dYdz = length Y0)
  /\ exists points Y0 dYdz,
       G.module_level cfg_G_four_particles [0; 0; 0; 0] phases4
       = Ok (G_globals cfg_G_four_particles points Y0)
       /\ G.collective_ode_fft cfg_G_four_particles 0 Y0 = Ok dYdz
       /\ length dYdz = length Y0.
Proof.
  assert (H0 : (0 < 4)%nat) by lia.
  assert (H1 : H.N_particles cfg_H_one_harmonic = Z.of_nat 4) by reflexivity.
  assert (H2 : G.N_particles cfg_G_four_particles = Z.of_nat 4) by reflexivity.
  assert (H3 : length [0; 0; 0; 0] = 4%nat) by reflexivity.
  assert (H4 : length phases4 = 4%nat) by reflexivity.
  assert (Ha : H_parameters_ok cfg_H_one_harmonic)
    by (unfold H_parameters_ok; simpl; repeat split; lra).
  assert (Hb : G_parameters_ok cfg_G_four_particles)
    by (unfold G_parameters_ok; simpl; repeat split; lra).
  assert (H5 : (0 <= H.N_harmonics_Ez cfg_H_one_harmonic)%Z) by (simpl; lia).
  assert (H6 : (1 <= G.N_grid_s cfg_G_four_particles)%Z) by (simpl; lia).
  assert (H7 : 0 < G.lambda_laser cfg_G_four_particles) by (simpl; lra).
  repeat (split; [assumption|]).
  destruct (X19_first_evaluation_succeeds cfg_H_one_harmonic
              cfg_G_four_particles [0; 0; 0; 0] phases4 4
              H0 H1 H2 H3 H4) as (A & B & _).
  split; [exact (A Ha H5) | exact (B Hb H6 H7)].
Defined.
